(** * Generic Nibble Trie (gnt.c) and Generic Bitwise Trie (gbt.c)

    A shallow embedding of the two trie engines of the repository and the
    properties their specification states about them.

    Conventions of the embedding.
    - A C pointer that may be NULL is an [option]; a 16-slot pointer array is
      a [list] of 16 options, read with [slot] and written with stdpp's
      list insert.
    - [uint8_t] counters are [Z] with their wrap-around modulo 256 written
      out; [gnt_data_t] and [gnt_key_t] ([uintptr_t]) are [Z], 64 bits wide.
    - The tree is an ownership tree (no node has two parents), so the node a
      pointer designates is represented by the node itself and an in-place
      update by rebuilding the path to it.
    - [calloc] is assumed to succeed (the source never tests its result in
      the insertion loop).  Every [calloc], every [free] of a non-NULL
      pointer and every call of the deallocator is recorded, in order, in a
      trace of events.
    - Reading an uninitialised local, dereferencing NULL and waiting on a
      mutex that is already held are the faults of type [fault].
    - A [while] loop driven by the accessor is a recursion on a fuel
      argument; running out of fuel is the fault [OutOfFuel]. *)

From Stdlib Require Import ZArith Lia String Ascii.
From stdpp Require Import base numbers option list.

Local Open Scope Z_scope.

(** ** Events, faults and the outcome monad *)

Inductive event : Type :=
  | Calloc
  | Free
  | Dealloc (data : Z).

#[global] Instance event_eq_dec : EqDecision event.
Proof. solve_decision. Defined.

Inductive fault : Type :=
  | NullDeref
  | UninitRead
  | Blocked
  | OutOfFuel.

Inductive outcome (A : Type) : Type :=
  | Ok (a : A) (tr : list event)
  | Fault (f : fault).

Arguments Ok {A} a tr.
Arguments Fault {A} f.

Definition outcome_ret {A} (a : A) : outcome A := Ok a [].

Definition outcome_bind {A B} (k : A -> outcome B) (m : outcome A) : outcome B :=
  match m with
  | Ok a tr =>
      match k a with
      | Ok b tr' => Ok b (tr ++ tr')
      | Fault f => Fault f
      end
  | Fault f => Fault f
  end.

#[global] Instance outcome_mret : MRet outcome := @outcome_ret.
#[global] Instance outcome_mbind : MBind outcome := @outcome_bind.

Definition emit (tr : list event) : outcome unit := Ok tt tr.

(** [p->field] on a possibly-NULL pointer. *)
Definition deref {A} (p : option A) : outcome A :=
  match p with
  | Some a => Ok a []
  | None => Fault NullDeref
  end.

(** [free(p)]: releases one block unless [p] is NULL. *)
Definition free {A} (p : option A) : list event :=
  match p with
  | Some _ => [Free]
  | None => []
  end.

(** The calls of the deallocator recorded in a trace, in order. *)
Definition deallocs (tr : list event) : list Z :=
  omap (fun e => match e with Dealloc d => Some d | _ => None end) tr.

Definition count_free (tr : list event) : nat :=
  length (filter (fun e => e = Free) tr).

(** ** Fixed-width integers *)

Definition uintptr_bits : Z := 64.
Definition to_uintptr (z : Z) : Z := z mod 2 ^ uintptr_bits.
Definition to_uint8 (z : Z) : Z := z mod 256.

Definition GNT_HIGH_NIBBLE (byte : Z) : Z := Z.shiftr byte 4.
Definition GNT_LOW_NIBBLE (byte : Z) : Z := Z.land byte 15.

(** ** Storage layer: [gnt_nibble_t] and [gnt_node_t]

    gbt.c declares the same two structures under the names [gbt_nibble_t]
    and [gbt_node_t]; both engines use the types below. *)

Inductive gnt_nibble_t : Type :=
  | Nibble (children : Z) (nodes : list (option gnt_node_t))
with gnt_node_t : Type :=
  | Node (occupied : bool) (children : Z) (data : Z)
         (nibbles : list (option gnt_nibble_t)).

Definition nibble_children (nb : gnt_nibble_t) : Z :=
  match nb with Nibble c _ => c end.
Definition nibble_nodes (nb : gnt_nibble_t) : list (option gnt_node_t) :=
  match nb with Nibble _ l => l end.

Definition node_occupied (nd : gnt_node_t) : bool :=
  match nd with Node o _ _ _ => o end.
Definition node_children (nd : gnt_node_t) : Z :=
  match nd with Node _ c _ _ => c end.
Definition node_data (nd : gnt_node_t) : Z :=
  match nd with Node _ _ d _ => d end.
Definition node_nibbles (nd : gnt_node_t) : list (option gnt_nibble_t) :=
  match nd with Node _ _ _ l => l end.

(** [p[i]] for a pointer array; indices are nibbles, hence below 16. *)
Definition slot {A} (a : list (option A)) (i : Z) : option A :=
  mjoin (a !! Z.to_nat i).

(** [p[i] = v]. *)
Definition set_slot {A} (a : list (option A)) (i : Z) (v : option A)
  : list (option A) :=
  <[Z.to_nat i := v]> a.

(** [calloc(1, sizeof(gnt_nibble_t))] and [calloc(1, sizeof(gnt_node_t))]. *)
Definition null_array {A} : list (option A) := replicate 16 None.
Definition calloc_nibble : gnt_nibble_t := Nibble 0 null_array.
Definition calloc_node : gnt_node_t := Node false 0 0 null_array.

(** ** Key accessors

    An accessor [gnt_status_t f(gnt_byte_t* byte, gnt_key_t key, gnt_index_t
    index)] is a function to [option Z]: [Some b] when it returns 0 after
    storing [b] in [*byte], [None] when it returns a non-zero status and
    leaves [*byte] alone (both accessors of the repository do). *)

Definition accessor_t : Type := Z -> nat -> option Z.

(** The engine reads [*byte], a [gnt_byte_t]: eight bits of what was stored. *)
Definition call_accessor (accessor : accessor_t) (key : Z) (index : nat)
  : option Z :=
  to_uint8 <$> accessor key index.

(** [strlen]: the number of characters before the first NUL. *)
Fixpoint strlen (str : string) : nat :=
  match str with
  | EmptyString => 0%nat
  | String c rest => if Ascii.eqb c Ascii.zero then 0%nat else S (strlen rest)
  end.

(** [str[index]] for [index < strlen str]. *)
Fixpoint char_at (str : string) (index : nat) : Z :=
  match str, index with
  | EmptyString, _ => 0
  | String c _, O => Z.of_N (N_of_ascii c)
  | String _ rest, S i => char_at rest i
  end.

(** [gnt_accessor_string] (and [gbt_accessor_string], the same text): the key
    is the address of a NUL-terminated buffer; [mem] gives the contents of
    the buffer at an address. *)
Definition gnt_accessor_string (mem : Z -> string) : accessor_t :=
  fun key index =>
    let str := mem key in
    if (strlen str <=? index)%nat then None else Some (char_at str index).

Definition gbt_accessor_string (mem : Z -> string) : accessor_t :=
  fun key index =>
    let str := mem key in
    if (strlen str <=? index)%nat then None else Some (char_at str index).

(** Fuel of the digit-counting loops below: a 64-bit key leaves them after
    at most 8 (base 256) or 20 (base 10) iterations. *)
Definition digit_fuel : nat := 64%nat.

(** The [do { digits++; temp >>= 8; } while (temp > 0);] loop of
    [_gnt_accessor_default]; [digits] is a [uint8_t]. *)
Fixpoint gnt_count_digits (fuel : nat) (digits temp : Z) : Z :=
  let digits := to_uint8 (digits + 1) in
  let temp := Z.shiftr temp 8 in
  match fuel with
  | O => digits
  | S fuel => if 0 <? temp then gnt_count_digits fuel digits temp else digits
  end.

(** [for (i = 0; i < n; i++) key >>= 8;] *)
Fixpoint gnt_shift_key (n : nat) (k : Z) : Z :=
  match n with
  | O => k
  | S n => gnt_shift_key n (Z.shiftr k 8)
  end.

Definition _gnt_accessor_default : accessor_t :=
  fun key index =>
    let digits := gnt_count_digits digit_fuel 0 key in
    if digits <=? Z.of_nat index then None
    else
      let key := gnt_shift_key (Z.to_nat (digits - Z.of_nat index - 1)) key in
      Some (Z.land key 255).

(** The same loops in [_gbt_accessor_default], which divide by ten. *)
Fixpoint gbt_count_digits (fuel : nat) (digits temp : Z) : Z :=
  let digits := to_uint8 (digits + 1) in
  let temp := temp / 10 in
  match fuel with
  | O => digits
  | S fuel => if 0 <? temp then gbt_count_digits fuel digits temp else digits
  end.

Fixpoint gbt_shift_key (n : nat) (k : Z) : Z :=
  match n with
  | O => k
  | S n => gbt_shift_key n (k / 10)
  end.

Definition _gbt_accessor_default : accessor_t :=
  fun key index =>
    let digits := gbt_count_digits digit_fuel 0 key in
    if digits <=? Z.of_nat index then None
    else
      let key := gbt_shift_key (Z.to_nat (digits - Z.of_nat index - 1)) key in
      Some (key mod 10).

(** The three outcomes of one level of the recursive deletion
    ([enum { END, CONTINUE, STOP }] in both files). *)
Inductive delete_status : Type := END | CONTINUE | STOP.

(** * The guarded engine: gnt.c *)

(** [struct gnt_trie]. [gnt_mutex] is [true] while the mutex is held;
    [gnt_deallocator] is [true] when the deallocator pointer is not NULL
    (its calls are the [Dealloc] events). *)
Record gnt_trie_t : Type := GntTrie {
  gnt_mutex : bool;
  gnt_children : Z;
  gnt_nibbles : list (option gnt_nibble_t);
  gnt_accessor : accessor_t;
  gnt_deallocator : bool
}.

Record gnt_cfg_t : Type := GntCfg {
  gnt_cfg_accessor : option accessor_t;
  gnt_cfg_deallocator : bool
}.

(** [mtx_lock] on a plain mutex: the caller waits for ever when it is held. *)
Definition gnt_mtx_lock (t : gnt_trie_t) : outcome gnt_trie_t :=
  if gnt_mutex t then Fault Blocked
  else mret (GntTrie true (gnt_children t) (gnt_nibbles t) (gnt_accessor t)
               (gnt_deallocator t)).

Definition gnt_mtx_unlock (t : gnt_trie_t) : gnt_trie_t :=
  GntTrie false (gnt_children t) (gnt_nibbles t) (gnt_accessor t)
    (gnt_deallocator t).

(** [gnt_create]; [calloc] and [mtx_init] succeed. The block of the handle
    is the one [gnt_destroy] frees last; its allocation leaves no event. *)
Definition gnt_create (cfg : option gnt_cfg_t) : gnt_trie_t :=
  let '(accessor, deallocator) :=
    match cfg with
    | Some c =>
        (match gnt_cfg_accessor c with
         | Some a => a
         | None => _gnt_accessor_default
         end,
         gnt_cfg_deallocator c)
    | None => (_gnt_accessor_default, false)
    end in
  GntTrie false 0 null_array accessor deallocator.

(** One iteration of the [while] loop of [gnt_insert] (lines 134-154) on the
    array [nibbles] and the counter [*children]; [rest] is what the
    following iterations and the final store do to the node reached. *)
Definition gnt_insert_body (nibbles : list (option gnt_nibble_t)) (children : Z)
    (byte : Z) (rest : gnt_node_t -> outcome gnt_node_t)
  : outcome (list (option gnt_nibble_t) * Z) :=
  let high_nibble := GNT_HIGH_NIBBLE byte in
  let low_nibble := GNT_LOW_NIBBLE byte in
  '(nibble, children) ←
    match slot nibbles high_nibble with
    | None => _ ← emit [Calloc]; mret (calloc_nibble, to_uint8 (children + 1))
    | Some nibble => mret (nibble, children)
    end;
  '(node, nibble_count) ←
    match slot (nibble_nodes nibble) low_nibble with
    | None =>
        _ ← emit [Calloc];
        mret (calloc_node, to_uint8 (nibble_children nibble + 1))
    | Some node => mret (node, nibble_children nibble)
    end;
  node ← rest node;
  mret (set_slot nibbles high_nibble
          (Some (Nibble nibble_count
                   (set_slot (nibble_nodes nibble) low_nibble (Some node)))),
        children).

(** Lines 157-163: the store in the terminal node. *)
Definition gnt_insert_store (deallocator : bool) (data : Z) (node : gnt_node_t)
  : outcome gnt_node_t :=
  _ ← emit (if node_occupied node && deallocator
            then [Dealloc (node_data node)] else []);
  mret (Node true (node_children node) data (node_nibbles node)).

(** The loop of [gnt_insert] from an iteration at which [node] is set:
    [nibbles] is [node->nibbles] and [children] is [&node->children]. *)
Fixpoint gnt_insert_loop (fuel : nat) (accessor : accessor_t)
    (deallocator : bool) (key : Z) (data : Z) (index : nat) (node : gnt_node_t)
  : outcome gnt_node_t :=
  match fuel with
  | O => Fault OutOfFuel
  | S fuel =>
      match call_accessor accessor key index with
      | None => gnt_insert_store deallocator data node
      | Some byte =>
          '(nibbles, children) ←
            gnt_insert_body (node_nibbles node) (node_children node) byte
              (gnt_insert_loop fuel accessor deallocator key data (S index));
          mret (Node (node_occupied node) children (node_data node) nibbles)
      end
  end.

(** [gnt_insert]. Before the first iteration [node] is uninitialised: when
    the accessor fails at index 0, line 157 reads it. *)
Definition gnt_insert (fuel : nat) (trie : option gnt_trie_t) (key : Z) (data : Z)
  : outcome (Z * option gnt_trie_t) :=
  match trie with
  | None => mret (-1, None)
  | Some t =>
      t ← gnt_mtx_lock t;
      match call_accessor (gnt_accessor t) key 0 with
      | None => Fault UninitRead
      | Some byte =>
          '(nibbles, children) ←
            gnt_insert_body (gnt_nibbles t) (gnt_children t) byte
              (gnt_insert_loop fuel (gnt_accessor t) (gnt_deallocator t) key data 1);
          mret (0, Some (gnt_mtx_unlock
                           (GntTrie (gnt_mutex t) children nibbles
                              (gnt_accessor t) (gnt_deallocator t))))
      end
  end.

(** One iteration of the loop of [gnt_search] (lines 182-200). *)
Definition gnt_search_body (nibbles : list (option gnt_nibble_t)) (byte : Z)
    (rest : gnt_node_t -> outcome Z) : outcome Z :=
  let high_nibble := GNT_HIGH_NIBBLE byte in
  let low_nibble := GNT_LOW_NIBBLE byte in
  match slot nibbles high_nibble with
  | None => mret 0
  | Some nibble =>
      match slot (nibble_nodes nibble) low_nibble with
      | None => mret 0
      | Some node => rest node
      end
  end.

Fixpoint gnt_search_loop (fuel : nat) (accessor : accessor_t) (key : Z)
    (index : nat) (node : gnt_node_t) : outcome Z :=
  match fuel with
  | O => Fault OutOfFuel
  | S fuel =>
      match call_accessor accessor key index with
      | None => mret (node_data node)
      | Some byte =>
          gnt_search_body (node_nibbles node) byte
            (gnt_search_loop fuel accessor key (S index))
      end
  end.

(** [gnt_search]; the result is the value returned and the trie as the call
    leaves it. A NULL handle gives [(gnt_data_t) -1]. *)
Definition gnt_search (fuel : nat) (trie : option gnt_trie_t) (key : Z)
  : outcome (Z * option gnt_trie_t) :=
  match trie with
  | None => mret (to_uintptr (-1), None)
  | Some t =>
      t ← gnt_mtx_lock t;
      match call_accessor (gnt_accessor t) key 0 with
      | None => Fault UninitRead
      | Some byte =>
          data ← gnt_search_body (gnt_nibbles t) byte
                   (gnt_search_loop fuel (gnt_accessor t) key 1);
          mret (data, Some (gnt_mtx_unlock t))
      end
  end.

(** [_gnt_delete_recursive]. The result is the status, what the call left in
    [*byte] ([None] when it stored nothing there) and the array [nibbles]
    with the updates made below it. *)
Fixpoint _gnt_delete_recursive (fuel : nat) (nibbles : list (option gnt_nibble_t))
    (key : Z) (index : nat) (accessor : accessor_t) (deallocator : bool)
  : outcome (delete_status * option Z * list (option gnt_nibble_t)) :=
  match fuel with
  | O => Fault OutOfFuel
  | S fuel =>
      match call_accessor accessor key index with
      | None => mret (END, None, nibbles)
      | Some byte =>
          let high_nibble := GNT_HIGH_NIBBLE byte in
          let low_nibble := GNT_LOW_NIBBLE byte in
          nibble ← deref (slot nibbles high_nibble);
          node ← deref (slot (nibble_nodes nibble) low_nibble);
          '(status, written, below) ←
            _gnt_delete_recursive fuel (node_nibbles node) key (S index)
              accessor deallocator;
          (* [uint8_t child_byte = 0;] unless the call stored a byte in it *)
          let child_byte := default 0 written in
          let node := Node (node_occupied node) (node_children node)
                        (node_data node) below in
          let with_nibble (nb : gnt_nibble_t) :=
            set_slot nibbles high_nibble (Some nb) in
          let with_node (nd : gnt_node_t) :=
            with_nibble (Nibble (nibble_children nibble)
                           (set_slot (nibble_nodes nibble) low_nibble (Some nd))) in
          match status with
          | STOP => mret (STOP, Some byte, with_node node)
          | _ =>
              (* lines 323-337 *)
              '(node, stop) ←
                match status with
                | END =>
                    _ ← emit (if deallocator then [Dealloc (node_data node)] else []);
                    mret (Node false (node_children node) 0 (node_nibbles node),
                          negb (node_children node =? 0))
                | _ => mret (node, false)
                end;
              if stop : bool then mret (STOP, Some byte, with_node node)
              else
                (* lines 339-350 *)
                let child_high := GNT_HIGH_NIBBLE child_byte in
                _ ← emit (free (slot (node_nibbles node) child_high));
                let node := Node (node_occupied node) (node_children node)
                              (node_data node)
                              (set_slot (node_nibbles node) child_high None) in
                let node :=
                  if node_children node =? 0 then node
                  else Node (node_occupied node) (to_uint8 (node_children node - 1))
                         (node_data node) (node_nibbles node) in
                if negb (node_children node =? 0)
                then mret (STOP, Some byte, with_node node)
                else
                  (* lines 352-361 *)
                  _ ← emit (free (Some node));
                  let nibble :=
                    Nibble (to_uint8 (nibble_children nibble - 1))
                      (set_slot (nibble_nodes nibble) low_nibble None) in
                  if negb (nibble_children nibble =? 0)
                  then mret (STOP, Some byte, with_nibble nibble)
                  else mret (CONTINUE, Some byte, with_nibble nibble)
          end
      end
  end.

(** [gnt_delete]; its local [child_byte] is uninitialised until the
    recursive call stores a byte in it. *)
Definition gnt_delete (fuel : nat) (trie : option gnt_trie_t) (key : Z)
  : outcome (Z * option gnt_trie_t) :=
  match trie with
  | None => mret (-1, None)
  | Some t =>
      t ← gnt_mtx_lock t;
      '(status, child_byte, nibbles) ←
        _gnt_delete_recursive fuel (gnt_nibbles t) key 0 (gnt_accessor t)
          (gnt_deallocator t);
      let t := GntTrie (gnt_mutex t) (gnt_children t) nibbles (gnt_accessor t)
                 (gnt_deallocator t) in
      t ←
        match status with
        | CONTINUE =>
            if gnt_children t =? 0 then mret t
            else
              match child_byte with
              | None => Fault UninitRead
              | Some child_byte =>
                  let high := GNT_HIGH_NIBBLE child_byte in
                  _ ← emit (free (slot (gnt_nibbles t) high));
                  mret (GntTrie (gnt_mutex t) (to_uint8 (gnt_children t - 1))
                          (set_slot (gnt_nibbles t) high None)
                          (gnt_accessor t) (gnt_deallocator t))
              end
        | _ => mret t
        end;
      mret (0, Some (gnt_mtx_unlock t))
  end.

(** The loop shared by the two destroy functions,
    [for (i = 0; children && i < 16; i++) if (p[i]) { ...; children--; }],
    with [destroy_one] what is done for a slot that is not NULL; [children]
    is the local [uint8_t] copy of the counter. The blocks are gone
    afterwards, so the result is the trace alone. *)
Section DestroyLoop.
Context {A : Type} (destroy_one : A -> list event).

Fixpoint destroy_slots (slots : list (option A)) (children : Z) : list event :=
  match slots with
  | [] => []
  | p :: rest =>
      if children =? 0 then []
      else
        match p with
        | Some x => destroy_one x ++ destroy_slots rest (to_uint8 (children - 1))
        | None => destroy_slots rest children
        end
  end.
End DestroyLoop.

(** What [_gnt_destroy_recursive_nibbles] does for one nibble layer (lines
    274-275) and [_gnt_destroy_recursive_nodes] for one node (lines 288-295). *)
Fixpoint gnt_destroy_nibble (deallocator : bool) (nibble : gnt_nibble_t)
  : list event :=
  match nibble with
  | Nibble children nodes =>
      destroy_slots (gnt_destroy_node deallocator) nodes children ++ [Free]
  end
with gnt_destroy_node (deallocator : bool) (node : gnt_node_t) : list event :=
  match node with
  | Node _ children data nibbles =>
      destroy_slots (gnt_destroy_nibble deallocator) nibbles children
      ++ (if deallocator then [Dealloc data] else [])
      ++ [Free]
  end.

Definition _gnt_destroy_recursive_nibbles (nibbles : list (option gnt_nibble_t))
    (children : Z) (deallocator : bool) : list event :=
  destroy_slots (gnt_destroy_nibble deallocator) nibbles children.

Definition _gnt_destroy_recursive_nodes (nodes : list (option gnt_node_t))
    (children : Z) (deallocator : bool) : list event :=
  destroy_slots (gnt_destroy_node deallocator) nodes children.

(** [gnt_destroy]: the status and the trace; the last [Free] is the handle. *)
Definition gnt_destroy (trie : option gnt_trie_t) : outcome Z :=
  match trie with
  | None => mret (-1)
  | Some t =>
      _ ← emit (_gnt_destroy_recursive_nibbles (gnt_nibbles t) (gnt_children t)
                  (gnt_deallocator t));
      _ ← emit [Free];
      mret 0
  end.

(** * The unguarded engine: gbt.c

    The text of gbt.c is that of gnt.c without the mutex; its functions are
    embedded from it one by one. *)

Definition GBT_HIGH_NIBBLE (byte : Z) : Z := Z.shiftr byte 4.
Definition GBT_LOW_NIBBLE (byte : Z) : Z := Z.land byte 15.

(** [struct gbt_trie]. *)
Record gbt_trie_t : Type := GbtTrie {
  gbt_children : Z;
  gbt_nibbles : list (option gnt_nibble_t);
  gbt_accessor : accessor_t;
  gbt_deallocator : bool
}.

Record gbt_cfg_t : Type := GbtCfg {
  gbt_cfg_accessor : option accessor_t;
  gbt_cfg_deallocator : bool
}.

(** [gbt_create]; [calloc] succeeds. The block of the handle is the one
    [gbt_destroy] frees last; its allocation leaves no event. *)
Definition gbt_create (cfg : option gbt_cfg_t) : gbt_trie_t :=
  let '(accessor, deallocator) :=
    match cfg with
    | Some c =>
        (match gbt_cfg_accessor c with
         | Some a => a
         | None => _gbt_accessor_default
         end,
         gbt_cfg_deallocator c)
    | None => (_gbt_accessor_default, false)
    end in
  GbtTrie 0 null_array accessor deallocator.

(** One iteration of the [while] loop of [gbt_insert] (lines 123-143) on the
    array [nibbles] and the counter [*children]; [rest] is what the
    following iterations and the final store do to the node reached. *)
Definition gbt_insert_body (nibbles : list (option gnt_nibble_t)) (children : Z)
    (byte : Z) (rest : gnt_node_t -> outcome gnt_node_t)
  : outcome (list (option gnt_nibble_t) * Z) :=
  let high_nibble := GBT_HIGH_NIBBLE byte in
  let low_nibble := GBT_LOW_NIBBLE byte in
  '(nibble, children) ←
    match slot nibbles high_nibble with
    | None => _ ← emit [Calloc]; mret (calloc_nibble, to_uint8 (children + 1))
    | Some nibble => mret (nibble, children)
    end;
  '(node, nibble_count) ←
    match slot (nibble_nodes nibble) low_nibble with
    | None =>
        _ ← emit [Calloc];
        mret (calloc_node, to_uint8 (nibble_children nibble + 1))
    | Some node => mret (node, nibble_children nibble)
    end;
  node ← rest node;
  mret (set_slot nibbles high_nibble
          (Some (Nibble nibble_count
                   (set_slot (nibble_nodes nibble) low_nibble (Some node)))),
        children).

(** Lines 146-152: the store in the terminal node. *)
Definition gbt_insert_store (deallocator : bool) (data : Z) (node : gnt_node_t)
  : outcome gnt_node_t :=
  _ ← emit (if node_occupied node && deallocator
            then [Dealloc (node_data node)] else []);
  mret (Node true (node_children node) data (node_nibbles node)).

(** The loop of [gbt_insert] from an iteration at which [node] is set:
    [nibbles] is [node->nibbles] and [children] is [&node->children]. *)
Fixpoint gbt_insert_loop (fuel : nat) (accessor : accessor_t)
    (deallocator : bool) (key : Z) (data : Z) (index : nat) (node : gnt_node_t)
  : outcome gnt_node_t :=
  match fuel with
  | O => Fault OutOfFuel
  | S fuel =>
      match call_accessor accessor key index with
      | None => gbt_insert_store deallocator data node
      | Some byte =>
          '(nibbles, children) ←
            gbt_insert_body (node_nibbles node) (node_children node) byte
              (gbt_insert_loop fuel accessor deallocator key data (S index));
          mret (Node (node_occupied node) children (node_data node) nibbles)
      end
  end.

(** [gbt_insert]. Before the first iteration [node] is uninitialised: when
    the accessor fails at index 0, line 146 reads it. *)
Definition gbt_insert (fuel : nat) (trie : option gbt_trie_t) (key : Z) (data : Z)
  : outcome (Z * option gbt_trie_t) :=
  match trie with
  | None => mret (-1, None)
  | Some t =>
      match call_accessor (gbt_accessor t) key 0 with
      | None => Fault UninitRead
      | Some byte =>
          '(nibbles, children) ←
            gbt_insert_body (gbt_nibbles t) (gbt_children t) byte
              (gbt_insert_loop fuel (gbt_accessor t) (gbt_deallocator t) key data 1);
          mret (0, Some (GbtTrie children nibbles (gbt_accessor t)
                           (gbt_deallocator t)))
      end
  end.

(** One iteration of the loop of [gbt_search] (lines 169-185). *)
Definition gbt_search_body (nibbles : list (option gnt_nibble_t)) (byte : Z)
    (rest : gnt_node_t -> outcome Z) : outcome Z :=
  let high_nibble := GBT_HIGH_NIBBLE byte in
  let low_nibble := GBT_LOW_NIBBLE byte in
  match slot nibbles high_nibble with
  | None => mret 0
  | Some nibble =>
      match slot (nibble_nodes nibble) low_nibble with
      | None => mret 0
      | Some node => rest node
      end
  end.

Fixpoint gbt_search_loop (fuel : nat) (accessor : accessor_t) (key : Z)
    (index : nat) (node : gnt_node_t) : outcome Z :=
  match fuel with
  | O => Fault OutOfFuel
  | S fuel =>
      match call_accessor accessor key index with
      | None => mret (node_data node)
      | Some byte =>
          gbt_search_body (node_nibbles node) byte
            (gbt_search_loop fuel accessor key (S index))
      end
  end.

(** [gbt_search]; the result is the value returned and the trie as the call
    leaves it. A NULL handle gives [(gbt_data_t) -1]. *)
Definition gbt_search (fuel : nat) (trie : option gbt_trie_t) (key : Z)
  : outcome (Z * option gbt_trie_t) :=
  match trie with
  | None => mret (to_uintptr (-1), None)
  | Some t =>
      match call_accessor (gbt_accessor t) key 0 with
      | None => Fault UninitRead
      | Some byte =>
          data ← gbt_search_body (gbt_nibbles t) byte
                   (gbt_search_loop fuel (gbt_accessor t) key 1);
          mret (data, Some t)
      end
  end.

(** [_gbt_delete_recursive]. The result is the status, what the call left in
    [*byte] ([None] when it stored nothing there) and the array [nibbles]
    with the updates made below it. *)
Fixpoint _gbt_delete_recursive (fuel : nat) (nibbles : list (option gnt_nibble_t))
    (key : Z) (index : nat) (accessor : accessor_t) (deallocator : bool)
  : outcome (delete_status * option Z * list (option gnt_nibble_t)) :=
  match fuel with
  | O => Fault OutOfFuel
  | S fuel =>
      match call_accessor accessor key index with
      | None => mret (END, None, nibbles)
      | Some byte =>
          let high_nibble := GBT_HIGH_NIBBLE byte in
          let low_nibble := GBT_LOW_NIBBLE byte in
          nibble ← deref (slot nibbles high_nibble);
          node ← deref (slot (nibble_nodes nibble) low_nibble);
          '(status, written, below) ←
            _gbt_delete_recursive fuel (node_nibbles node) key (S index)
              accessor deallocator;
          (* [uint8_t child_byte = 0;] unless the call stored a byte in it *)
          let child_byte := default 0 written in
          let node := Node (node_occupied node) (node_children node)
                        (node_data node) below in
          let with_nibble (nb : gnt_nibble_t) :=
            set_slot nibbles high_nibble (Some nb) in
          let with_node (nd : gnt_node_t) :=
            with_nibble (Nibble (nibble_children nibble)
                           (set_slot (nibble_nodes nibble) low_nibble (Some nd))) in
          match status with
          | STOP => mret (STOP, Some byte, with_node node)
          | _ =>
              (* lines 303-317 *)
              '(node, stop) ←
                match status with
                | END =>
                    _ ← emit (if deallocator then [Dealloc (node_data node)] else []);
                    mret (Node false (node_children node) 0 (node_nibbles node),
                          negb (node_children node =? 0))
                | _ => mret (node, false)
                end;
              if stop : bool then mret (STOP, Some byte, with_node node)
              else
                (* lines 319-330 *)
                let child_high := GBT_HIGH_NIBBLE child_byte in
                _ ← emit (free (slot (node_nibbles node) child_high));
                let node := Node (node_occupied node) (node_children node)
                              (node_data node)
                              (set_slot (node_nibbles node) child_high None) in
                let node :=
                  if node_children node =? 0 then node
                  else Node (node_occupied node) (to_uint8 (node_children node - 1))
                         (node_data node) (node_nibbles node) in
                if negb (node_children node =? 0)
                then mret (STOP, Some byte, with_node node)
                else
                  (* lines 332-341 *)
                  _ ← emit (free (Some node));
                  let nibble :=
                    Nibble (to_uint8 (nibble_children nibble - 1))
                      (set_slot (nibble_nodes nibble) low_nibble None) in
                  if negb (nibble_children nibble =? 0)
                  then mret (STOP, Some byte, with_nibble nibble)
                  else mret (CONTINUE, Some byte, with_nibble nibble)
          end
      end
  end.

(** [gbt_delete]; its local [child_byte] is uninitialised until the
    recursive call stores a byte in it. *)
Definition gbt_delete (fuel : nat) (trie : option gbt_trie_t) (key : Z)
  : outcome (Z * option gbt_trie_t) :=
  match trie with
  | None => mret (-1, None)
  | Some t =>
      '(status, child_byte, nibbles) ←
        _gbt_delete_recursive fuel (gbt_nibbles t) key 0 (gbt_accessor t)
          (gbt_deallocator t);
      let t := GbtTrie (gbt_children t) nibbles (gbt_accessor t)
                 (gbt_deallocator t) in
      t ←
        match status with
        | CONTINUE =>
            if gbt_children t =? 0 then mret t
            else
              match child_byte with
              | None => Fault UninitRead
              | Some child_byte =>
                  let high := GBT_HIGH_NIBBLE child_byte in
                  _ ← emit (free (slot (gbt_nibbles t) high));
                  mret (GbtTrie (to_uint8 (gbt_children t - 1))
                          (set_slot (gbt_nibbles t) high None)
                          (gbt_accessor t) (gbt_deallocator t))
              end
        | _ => mret t
        end;
      mret (0, Some t)
  end.

(** What [_gbt_destroy_recursive_nibbles] does for one nibble layer (lines
    254-255) and [_gbt_destroy_recursive_nodes] for one node (lines 268-275). *)
Fixpoint gbt_destroy_nibble (deallocator : bool) (nibble : gnt_nibble_t)
  : list event :=
  match nibble with
  | Nibble children nodes =>
      destroy_slots (gbt_destroy_node deallocator) nodes children ++ [Free]
  end
with gbt_destroy_node (deallocator : bool) (node : gnt_node_t) : list event :=
  match node with
  | Node _ children data nibbles =>
      destroy_slots (gbt_destroy_nibble deallocator) nibbles children
      ++ (if deallocator then [Dealloc data] else [])
      ++ [Free]
  end.

Definition _gbt_destroy_recursive_nibbles (nibbles : list (option gnt_nibble_t))
    (children : Z) (deallocator : bool) : list event :=
  destroy_slots (gbt_destroy_nibble deallocator) nibbles children.

Definition _gbt_destroy_recursive_nodes (nodes : list (option gnt_node_t))
    (children : Z) (deallocator : bool) : list event :=
  destroy_slots (gbt_destroy_node deallocator) nodes children.

(** [gbt_destroy]: the status and the trace; the last [Free] is the handle. *)
Definition gbt_destroy (trie : option gbt_trie_t) : outcome Z :=
  match trie with
  | None => mret (-1)
  | Some t =>
      _ ← emit (_gbt_destroy_recursive_nibbles (gbt_nibbles t) (gbt_children t)
                  (gbt_deallocator t));
      _ ← emit [Free];
      mret 0
  end.

(** * Reading a key, paths and the counting invariant *)

(** The byte sequence the accessor produces for a key from [index] on, as
    the loops of the engine read it; [None] when it has not ended within
    [fuel] calls. *)
Fixpoint read_key (fuel : nat) (accessor : accessor_t) (key : Z) (index : nat)
  : option (list Z) :=
  match fuel with
  | O => None
  | S fuel =>
      match call_accessor accessor key index with
      | None => Some []
      | Some byte => cons byte <$> read_key fuel accessor key (S index)
      end
  end.

(** The node that one key byte leads to from an array of nibble layers. *)
Definition child (nibbles : list (option gnt_nibble_t)) (byte : Z)
  : option gnt_node_t :=
  nibble ← slot nibbles (GNT_HIGH_NIBBLE byte);
  slot (nibble_nodes nibble) (GNT_LOW_NIBBLE byte).

(** The node that a byte sequence leads to from a node. *)
Fixpoint descend (bytes : list Z) (node : gnt_node_t) : option gnt_node_t :=
  match bytes with
  | [] => Some node
  | byte :: bytes => child (node_nibbles node) byte ≫= descend bytes
  end.

(** The terminal node of a key in a trie: the node its byte sequence leads
    to from the root array, when every slot on the way is there. The empty
    sequence leads to no node. *)
Definition terminal (nibbles : list (option gnt_nibble_t)) (bytes : list Z)
  : option gnt_node_t :=
  match bytes with
  | [] => None
  | byte :: bytes => child nibbles byte ≫= descend bytes
  end.

(** The number of slots of an array that are not NULL. *)
Fixpoint count_nonnull {A} (a : list (option A)) : Z :=
  match a with
  | [] => 0
  | Some _ :: rest => 1 + count_nonnull rest
  | None :: rest => count_nonnull rest
  end.

(** An array of 16 slots whose counter is exact and whose elements are
    well formed. *)
Definition slots_ok {A} (ok : A -> bool) (children : Z) (a : list (option A))
  : bool :=
  (length a =? 16)%nat
  && (children =? count_nonnull a)
  && forallb (fun p => match p with Some x => ok x | None => true end) a.

(** Every counter of a subtree is the number of non-NULL slots of its array. *)
Fixpoint nibble_ok (nibble : gnt_nibble_t) : bool :=
  match nibble with
  | Nibble children nodes =>
      (length nodes =? 16)%nat
      && (children =? count_nonnull nodes)
      && forallb (fun p => match p with Some x => node_ok x | None => true end)
           nodes
  end
with node_ok (node : gnt_node_t) : bool :=
  match node with
  | Node _ children _ nibbles =>
      (length nibbles =? 16)%nat
      && (children =? count_nonnull nibbles)
      && forallb (fun p => match p with Some x => nibble_ok x | None => true end)
           nibbles
  end.

(** The invariant of a trie between two calls: the mutex is free and the
    counter of the root and of every nibble layer and node is exact. *)
Definition gnt_ok (t : gnt_trie_t) : bool :=
  negb (gnt_mutex t) && slots_ok nibble_ok (gnt_children t) (gnt_nibbles t).

(** ** Sequences of operations *)

Inductive gnt_op : Type :=
  | Insert (key data : Z)
  | Search (key : Z)
  | Delete (key : Z).

(** One operation on a handle: the value it returns and the handle after. *)
Definition gnt_step (fuel : nat) (trie : option gnt_trie_t) (op : gnt_op)
  : outcome (Z * option gnt_trie_t) :=
  match op with
  | Insert key data => gnt_insert fuel trie key data
  | Search key => gnt_search fuel trie key
  | Delete key => gnt_delete fuel trie key
  end.

(** A sequence of operations: the values returned, in order, and the handle
    left by the last one. *)
Fixpoint gnt_run (fuel : nat) (trie : option gnt_trie_t) (ops : list gnt_op)
  : outcome (list Z * option gnt_trie_t) :=
  match ops with
  | [] => mret ([], trie)
  | op :: ops =>
      '(v, trie) ← gnt_step fuel trie op;
      '(vs, trie) ← gnt_run fuel trie ops;
      mret (v :: vs, trie)
  end.

Definition gbt_step (fuel : nat) (trie : option gbt_trie_t) (op : gnt_op)
  : outcome (Z * option gbt_trie_t) :=
  match op with
  | Insert key data => gbt_insert fuel trie key data
  | Search key => gbt_search fuel trie key
  | Delete key => gbt_delete fuel trie key
  end.

Fixpoint gbt_run (fuel : nat) (trie : option gbt_trie_t) (ops : list gnt_op)
  : outcome (list Z * option gbt_trie_t) :=
  match ops with
  | [] => mret ([], trie)
  | op :: ops =>
      '(v, trie) ← gbt_step fuel trie op;
      '(vs, trie) ← gbt_run fuel trie ops;
      mret (v :: vs, trie)
  end.

(** * Definitions used by the statements and the proofs *)

Definition is_byte (b : Z) : Prop := 0 <= b < 256.

(** The root of a trie seen as a node that stores nothing. *)
Definition root_node (t : gnt_trie_t) : gnt_node_t :=
  Node false (gnt_children t) 0 (gnt_nibbles t).

(** The trie [t] with the counter and the array of the node [n] as its root. *)
Definition with_root (t : gnt_trie_t) (n : gnt_node_t) : gnt_trie_t :=
  GntTrie false (node_children n) (node_nibbles n) (gnt_accessor t)
    (gnt_deallocator t).

(** The node the loop of [gnt_insert] moves to for one key byte: the child
    that is there, or the one it allocates. *)
Definition next_node (nibbles : list (option gnt_nibble_t)) (byte : Z) : gnt_node_t :=
  default calloc_node (child nibbles byte).

(** The allocations of one iteration. *)
Definition body_events (nibbles : list (option gnt_nibble_t)) (byte : Z) : list event :=
  (match slot nibbles (GNT_HIGH_NIBBLE byte) with Some _ => [] | None => [Calloc] end)
  ++ (match child nibbles byte with Some _ => [] | None => [Calloc] end).

(** The array and the counter one iteration leaves, when the rest of the
    insertion turns the node it moves to into [node']. *)
Definition put_body (nibbles : list (option gnt_nibble_t)) (children : Z)
    (byte : Z) (node' : gnt_node_t) : list (option gnt_nibble_t) * Z :=
  let high_nibble := GNT_HIGH_NIBBLE byte in
  let low_nibble := GNT_LOW_NIBBLE byte in
  let nibble := default calloc_nibble (slot nibbles high_nibble) in
  let nibble_count :=
    match slot (nibble_nodes nibble) low_nibble with
    | Some _ => nibble_children nibble
    | None => to_uint8 (nibble_children nibble + 1)
    end in
  (set_slot nibbles high_nibble
     (Some (Nibble nibble_count
              (set_slot (nibble_nodes nibble) low_nibble (Some node')))),
   match slot nibbles high_nibble with
   | Some _ => children
   | None => to_uint8 (children + 1)
   end).

(** The node [node] after the insertion of [data] under the bytes [bytes]. *)
Fixpoint put (data : Z) (bytes : list Z) (node : gnt_node_t) : gnt_node_t :=
  match bytes with
  | [] => Node true (node_children node) data (node_nibbles node)
  | byte :: bytes =>
      let '(nibbles, children) :=
        put_body (node_nibbles node) (node_children node) byte
          (put data bytes (next_node (node_nibbles node) byte)) in
      Node (node_occupied node) children (node_data node) nibbles
  end.

(** The trace of that insertion. *)
Fixpoint put_events (deallocator : bool) (bytes : list Z) (node : gnt_node_t)
  : list event :=
  match bytes with
  | [] => if node_occupied node && deallocator then [Dealloc (node_data node)] else []
  | byte :: bytes =>
      body_events (node_nibbles node) byte
      ++ put_events deallocator bytes (next_node (node_nibbles node) byte)
  end.

Ltac monad_simpl :=
  unfold mbind, mret, outcome_mbind, outcome_mret, outcome_bind, outcome_ret,
    emit, deref in *; simpl.

Definition slot_ok {A} (ok : A -> bool) (p : option A) : Prop :=
  match p with Some x => ok x = true | None => True end.

Definition handle_ok (trie : option gnt_trie_t) : Prop :=
  exists t, trie = Some t /\ gnt_ok t = true.

(** A memory with three strings: "a" at address 1, "ab" at 2, "abc" at 3. *)
Definition example_mem (p : Z) : string :=
  if p =? 1 then "a"%string
  else if p =? 2 then "ab"%string
  else if p =? 3 then "abc"%string
  else EmptyString.

(** A string-keyed trie with a deallocator. *)
Definition example_cfg : gnt_cfg_t :=
  GntCfg (Some (gnt_accessor_string example_mem)) true.

(** Two keys are the same key of a trie when the accessor produces the same
    byte sequence for them. *)
Definition same_key (fuel : nat) (accessor : accessor_t) (k1 k2 : Z) : bool :=
  bool_decide (read_key fuel accessor k1 0 = read_key fuel accessor k2 0).

(** The payload of the most recent insertion for [key] in a sequence of
    insertions [(key, data)], oldest first. *)
Fixpoint last_payload (fuel : nat) (accessor : accessor_t) (ops : list (Z * Z))
    (key : Z) : option Z :=
  match ops with
  | [] => None
  | (k, data) :: ops =>
      match last_payload fuel accessor ops key with
      | Some d => Some d
      | None => if same_key fuel accessor k key then Some data else None
      end
  end.

Definition inserts (ops : list (Z * Z)) : list gnt_op :=
  map (fun op => Insert op.1 op.2) ops.

(** The payload field of the terminal node of a byte sequence, 0 when there
    is no such node. *)
Definition payload_at (t : gnt_trie_t) (bytes : list Z) : Z :=
  from_option node_data 0 (terminal (gnt_nibbles t) bytes).

(** The trie a sequence of operations leaves when it is run on a new trie. *)
Definition trie_after (fuel : nat) (cfg : option gnt_cfg_t) (ops : list gnt_op)
  : gnt_trie_t :=
  match gnt_run fuel (Some (gnt_create cfg)) ops with
  | Ok (_, Some t) _ => t
  | _ => gnt_create cfg
  end.

(** The example trie with "a" -> 11 and "ab" -> 22. *)
Definition example_trie : gnt_trie_t :=
  trie_after 8 (Some example_cfg) [Insert 1 11; Insert 2 22].

(** The unguarded trie with the fields of a guarded one. *)
Definition unguard (t : gnt_trie_t) : gbt_trie_t :=
  GbtTrie (gnt_children t) (gnt_nibbles t) (gnt_accessor t) (gnt_deallocator t).

Definition unguard_outcome {A} (o : outcome (A * option gnt_trie_t))
  : outcome (A * option gbt_trie_t) :=
  match o with
  | Ok (a, trie) tr => Ok (a, unguard <$> trie) tr
  | Fault f => Fault f
  end.

Definition free_handle (trie : option gnt_trie_t) : Prop :=
  match trie with
  | Some t => gnt_mutex t = false
  | None => True
  end.

(** The value of a sequence of digits in base [base], most significant
    digit first. *)
Definition digits_value (base : Z) (ds : list Z) : Z :=
  fold_left (fun acc d => acc * base + d) ds 0.

(** [ds] is the representation of [key] in base [base], most significant
    digit first: digits below [base], the value [key], no leading zero, and
    the single digit 0 for the key 0. *)
Definition msb_digits (base key : Z) (ds : list Z) : Prop :=
  ds <> [] /\
  Forall (fun d => 0 <= d < base) ds /\
  digits_value base ds = key /\
  (key <> 0 -> hd 0 ds <> 0) /\
  (key = 0 -> ds = [0]).

(** The two default accessors as one function of the base. *)
Fixpoint count_digits_base (base : Z) (fuel : nat) (digits temp : Z) : Z :=
  let digits := to_uint8 (digits + 1) in
  let temp := temp / base in
  match fuel with
  | O => digits
  | S fuel => if 0 <? temp then count_digits_base base fuel digits temp else digits
  end.

Fixpoint shift_base (base : Z) (n : nat) (k : Z) : Z :=
  match n with
  | O => k
  | S n => shift_base base n (k / base)
  end.

Definition accessor_base (base : Z) : accessor_t :=
  fun key index =>
    let digits := count_digits_base base digit_fuel 0 key in
    if digits <=? Z.of_nat index then None
    else Some (shift_base base (Z.to_nat (digits - Z.of_nat index - 1)) key mod base).

(** The digits of [key] of weight below [base ^ m], most significant first. *)
Fixpoint digits_below (base key : Z) (m : nat) : list Z :=
  match m with
  | O => []
  | S m => (key / base ^ Z.of_nat m) mod base :: digits_below base key m
  end.

(** A whole life of a trie: creation, a sequence of operations, destruction.
    The result is the values returned and the status of the destruction. *)
Definition gnt_session (fuel : nat) (cfg : option gnt_cfg_t) (ops : list gnt_op)
  : outcome (list Z * Z) :=
  '(vs, trie) ← gnt_run fuel (Some (gnt_create cfg)) ops;
  status ← gnt_destroy trie;
  mret (vs, status).

Definition gbt_session (fuel : nat) (cfg : option gbt_cfg_t) (ops : list gnt_op)
  : outcome (list Z * Z) :=
  '(vs, trie) ← gbt_run fuel (Some (gbt_create cfg)) ops;
  status ← gbt_destroy trie;
  mret (vs, status).

(** ** Deletion as a function of the byte sequence *)

(** Lines 318-350 of [_gnt_delete_recursive] for the node [node] (its array
    already updated by the recursive call, which returned [status] and left
    [written] in [child_byte]): the node as these lines leave it, or [None]
    when they go on to free it, and the events up to there. *)
Definition unwind_node (deallocator : bool) (status : delete_status)
    (written : option Z) (node : gnt_node_t) : option gnt_node_t * list event :=
  match status with
  | STOP => (Some node, [])
  | _ =>
      let '(node, stop, ev1) :=
        match status with
        | END =>
            (Node false (node_children node) 0 (node_nibbles node),
             negb (node_children node =? 0),
             if deallocator then [Dealloc (node_data node)] else [])
        | _ => (node, false, [])
        end in
      if stop : bool then (Some node, ev1)
      else
        let child_high := GNT_HIGH_NIBBLE (default 0 written) in
        let ev2 := free (slot (node_nibbles node) child_high) in
        let node := Node (node_occupied node) (node_children node) (node_data node)
                      (set_slot (node_nibbles node) child_high None) in
        let node :=
          if node_children node =? 0 then node
          else Node (node_occupied node) (to_uint8 (node_children node - 1))
                 (node_data node) (node_nibbles node) in
        if negb (node_children node =? 0) then (Some node, ev1 ++ ev2)
        else (None, ev1 ++ ev2 ++ [Free])
  end.

(** The nibble layer [nibble] with what [unwind_node] made of its node at
    [low_nibble] (lines 352-354 when the node is freed), and the status the
    level returns (lines 356-361). *)
Definition unwind_nibble (nibble : gnt_nibble_t) (low_nibble : Z)
    (r : option gnt_node_t) : gnt_nibble_t * delete_status :=
  match r with
  | Some node =>
      (Nibble (nibble_children nibble)
         (set_slot (nibble_nodes nibble) low_nibble (Some node)), STOP)
  | None =>
      let children := to_uint8 (nibble_children nibble - 1) in
      (Nibble children (set_slot (nibble_nodes nibble) low_nibble None),
       if negb (children =? 0) then STOP else CONTINUE)
  end.

(** [_gnt_delete_recursive] on the bytes that the accessor produces from
    [index] on: the status, the array and the trace, or [None] when a slot on
    the path is NULL. *)
Fixpoint prune (deallocator : bool) (bytes : list Z)
    (nibbles : list (option gnt_nibble_t))
  : option (delete_status * list (option gnt_nibble_t) * list event) :=
  match bytes with
  | [] => Some (END, nibbles, [])
  | byte :: bytes =>
      nibble ← slot nibbles (GNT_HIGH_NIBBLE byte);
      node ← slot (nibble_nodes nibble) (GNT_LOW_NIBBLE byte);
      '(status, below, tr) ← prune deallocator bytes (node_nibbles node);
      let '(r, ev) :=
        unwind_node deallocator status (head bytes)
          (Node (node_occupied node) (node_children node) (node_data node) below) in
      let '(nibble, status) := unwind_nibble nibble (GNT_LOW_NIBBLE byte) r in
      Some (status, set_slot nibbles (GNT_HIGH_NIBBLE byte) (Some nibble), tr ++ ev)
  end.

(** The root of a trie after [gnt_delete] got [status] and the array
    [nibbles] from the recursion on a key whose first byte is [byte]. *)
Definition prune_root (t : gnt_trie_t) (byte : Z) (status : delete_status)
    (nibbles : list (option gnt_nibble_t)) : gnt_trie_t * list event :=
  match status with
  | CONTINUE =>
      if gnt_children t =? 0
      then (GntTrie false (gnt_children t) nibbles (gnt_accessor t)
              (gnt_deallocator t), [])
      else
        let high := GNT_HIGH_NIBBLE byte in
        (GntTrie false (to_uint8 (gnt_children t - 1)) (set_slot nibbles high None)
           (gnt_accessor t) (gnt_deallocator t),
         free (slot nibbles high))
  | _ =>
      (GntTrie false (gnt_children t) nibbles (gnt_accessor t) (gnt_deallocator t),
       [])
  end.

(** ** Blocks, nodes and traces *)

Definition count_calloc (tr : list event) : nat :=
  length (filter (fun e => e = Calloc) tr).

(** The number of blocks ([gnt_nibble_t] and [gnt_node_t] structures) of a
    subtree, and the number of its [gnt_node_t] structures alone. *)
Fixpoint nibble_blocks (nibble : gnt_nibble_t) : nat :=
  match nibble with
  | Nibble _ nodes =>
      S (list_sum (map (fun p => match p with Some x => node_blocks x | None => 0%nat end)
                     nodes))
  end
with node_blocks (node : gnt_node_t) : nat :=
  match node with
  | Node _ _ _ nibbles =>
      S (list_sum (map (fun p => match p with Some x => nibble_blocks x | None => 0%nat end)
                     nibbles))
  end.

Fixpoint nibble_node_count (nibble : gnt_nibble_t) : nat :=
  match nibble with
  | Nibble _ nodes =>
      list_sum (map (fun p => match p with Some x => node_node_count x | None => 0%nat end)
                  nodes)
  end
with node_node_count (node : gnt_node_t) : nat :=
  match node with
  | Node _ _ _ nibbles =>
      S (list_sum (map (fun p => match p with Some x => nibble_node_count x | None => 0%nat end)
                     nibbles))
  end.

(** The sum of a measure over the elements of an array. *)
Definition slots_sum {A} (f : A -> nat) (a : list (option A)) : nat :=
  list_sum (map (fun p => match p with Some x => f x | None => 0%nat end) a).

(** The blocks a trie owns, the handle apart, and its nodes. *)
Definition gnt_blocks (t : gnt_trie_t) : nat := slots_sum nibble_blocks (gnt_nibbles t).
Definition gnt_node_count (t : gnt_trie_t) : nat :=
  slots_sum nibble_node_count (gnt_nibbles t).

(** ** Strings as keys *)

(** The characters of a buffer before its first NUL, as unsigned bytes. *)
Fixpoint string_bytes (str : string) : list Z :=
  match str with
  | EmptyString => []
  | String c rest =>
      if Ascii.eqb c Ascii.zero then []
      else Z.of_N (N_of_ascii c) :: string_bytes rest
  end.

(** ** The unguarded trie seen as a guarded one *)

(** The guarded trie with the fields of an unguarded one and a free mutex. *)
Definition guard (t : gbt_trie_t) : gnt_trie_t :=
  GntTrie false (gbt_children t) (gbt_nibbles t) (gbt_accessor t) (gbt_deallocator t).

(** The counters of an unguarded trie are exact. *)
Definition gbt_ok (t : gbt_trie_t) : bool :=
  slots_ok nibble_ok (gbt_children t) (gbt_nibbles t).

(** ** Integer keys and payloads (gnt.h) *)

(** [_gnt_int64_to_data]: the conversion [(gnt_data_t) data] of a signed
    64-bit integer, which [GNT_KEY] and [GNT_DATA] select for an [int64_t]. *)
Definition _gnt_int64_to_data (data : Z) : Z := to_uintptr data.

(** * Proofs *)

(** ** The outcome monad *)

Lemma bind_Ok {A B} (a : A) (tr : list event) (k : A -> outcome B) :
  Ok a tr ≫= k = match k a with Ok b tr' => Ok b (tr ++ tr') | Fault f => Fault f end.
Proof. reflexivity. Qed.

Lemma bind_ret {A B} (a : A) (k : A -> outcome B) : mret a ≫= k = k a.
Proof.
  change (mret a) with (Ok a ([] : list event)). rewrite bind_Ok.
  destruct (k a); reflexivity.
Qed.

Lemma deallocs_app (tr1 tr2 : list event) :
  deallocs (tr1 ++ tr2) = deallocs tr1 ++ deallocs tr2.
Proof. unfold deallocs. apply omap_app. Qed.

(** ** Nibbles and arrays *)

Lemma to_uint8_is_byte z : is_byte (to_uint8 z).
Proof. unfold is_byte, to_uint8. apply Z.mod_pos_bound. lia. Qed.

Lemma to_uint8_small z : 0 <= z < 256 -> to_uint8 z = z.
Proof. intros H. unfold to_uint8. apply Z.mod_small. exact H. Qed.

Lemma high_nibble_range b : is_byte b -> 0 <= GNT_HIGH_NIBBLE b < 16.
Proof.
  unfold is_byte, GNT_HIGH_NIBBLE. intros H.
  rewrite Z.shiftr_div_pow2 by lia. change (2 ^ 4) with 16.
  split; [apply Z.div_pos; lia | apply Z.div_lt_upper_bound; lia].
Qed.

Lemma low_nibble_range b : 0 <= GNT_LOW_NIBBLE b < 16.
Proof.
  unfold GNT_LOW_NIBBLE. change 15 with (Z.ones 4).
  rewrite Z.land_ones by lia. apply Z.mod_pos_bound. reflexivity.
Qed.

Lemma nibbles_inj b1 b2 :
  GNT_HIGH_NIBBLE b1 = GNT_HIGH_NIBBLE b2 ->
  GNT_LOW_NIBBLE b1 = GNT_LOW_NIBBLE b2 -> b1 = b2.
Proof.
  unfold GNT_HIGH_NIBBLE, GNT_LOW_NIBBLE. change 15 with (Z.ones 4).
  rewrite !Z.land_ones, !Z.shiftr_div_pow2 by lia. change (2 ^ 4) with 16.
  intros Hh Hl.
  rewrite (Z.div_mod b1 16), (Z.div_mod b2 16) by lia. congruence.
Qed.

Section Arrays.
Context {A : Type}.
Implicit Types (a : list (option A)) (i j : Z) (v : option A).

Lemma length_set_slot a i v : length (set_slot a i v) = length a.
Proof. apply length_insert. Qed.

Lemma slot_set_slot_eq a i v :
  0 <= i < Z.of_nat (length a) -> slot (set_slot a i v) i = v.
Proof.
  intros H. unfold slot, set_slot.
  rewrite list_lookup_insert_eq by lia. reflexivity.
Qed.

Lemma slot_set_slot_ne a i j v :
  0 <= i -> 0 <= j -> i <> j -> slot (set_slot a i v) j = slot a j.
Proof.
  intros Hi Hj Hne. unfold slot, set_slot.
  rewrite list_lookup_insert_ne by lia. reflexivity.
Qed.

Lemma slot_null_array i : slot (@null_array A) i = None.
Proof.
  unfold slot, null_array.
  destruct (replicate 16 None !! Z.to_nat i) as [p|] eqn:E; [|reflexivity].
  apply lookup_replicate in E as [-> _]. reflexivity.
Qed.

Lemma count_nonnull_bounds a : 0 <= count_nonnull a <= Z.of_nat (length a).
Proof. induction a as [|[x|] a IH]; simpl length; simpl count_nonnull; lia. Qed.

Lemma count_nonnull_insert a (n : nat) v :
  (n < length a)%nat ->
  count_nonnull (<[n := v]> a) =
  count_nonnull a
  - (match mjoin (a !! n) with Some _ => 1 | None => 0 end)
  + (match v with Some _ => 1 | None => 0 end).
Proof.
  revert n. induction a as [|p a IH]; intros n Hn; simpl in Hn; [lia|].
  destruct n as [|n].
  - simpl. destruct p, v; simpl; lia.
  - simpl. specialize (IH n ltac:(lia)).
    destruct p; simpl; rewrite IH; lia.
Qed.

Lemma count_nonnull_set_slot a i v :
  0 <= i < Z.of_nat (length a) ->
  count_nonnull (set_slot a i v) =
  count_nonnull a
  - (match slot a i with Some _ => 1 | None => 0 end)
  + (match v with Some _ => 1 | None => 0 end).
Proof. intros H. unfold set_slot, slot. apply count_nonnull_insert. lia. Qed.

Lemma count_nonnull_zero a i : count_nonnull a = 0 -> slot a i = None.
Proof.
  unfold slot. generalize (Z.to_nat i) as n.
  induction a as [|p a IH]; intros n H; [reflexivity|].
  pose proof (count_nonnull_bounds a).
  destruct p; simpl in H; [lia|].
  destruct n; simpl; [reflexivity|]. apply IH. exact H.
Qed.

End Arrays.

(** ** The counting invariant, unfolded *)

Lemma slots_ok_iff {A} (ok : A -> bool) (c : Z) (a : list (option A)) :
  slots_ok ok c a = true <->
  length a = 16%nat /\ c = count_nonnull a /\
  (forall i x, slot a i = Some x -> ok x = true).
Proof.
  unfold slots_ok. rewrite !andb_true_iff, Nat.eqb_eq, Z.eqb_eq, forallb_forall.
  split.
  - intros [[Hl Hc] Hall]. repeat split; [exact Hl|exact Hc|].
    intros i x Hs. unfold slot in Hs.
    destruct (a !! Z.to_nat i) as [p|] eqn:E; [|discriminate]. simpl in Hs. subst p.
    apply (Hall (Some x)). apply list_elem_of_In, list_elem_of_lookup. eauto.
  - intros (Hl & Hc & Hall). repeat split; [exact Hl|exact Hc|].
    intros [x|] Hin; [|reflexivity].
    apply list_elem_of_In, list_elem_of_lookup in Hin as [n Hn].
    apply (Hall (Z.of_nat n)). unfold slot. rewrite Nat2Z.id, Hn. reflexivity.
Qed.

Lemma nibble_ok_unfold c nodes :
  nibble_ok (Nibble c nodes) = slots_ok node_ok c nodes.
Proof. reflexivity. Qed.

Lemma node_ok_unfold o c d nibbles :
  node_ok (Node o c d nibbles) = slots_ok nibble_ok c nibbles.
Proof. reflexivity. Qed.

Lemma gnt_ok_iff t :
  gnt_ok t = true <-> gnt_mutex t = false /\ node_ok (root_node t) = true.
Proof.
  unfold gnt_ok, root_node. rewrite node_ok_unfold, andb_true_iff, negb_true_iff.
  reflexivity.
Qed.

(** ** Reading a key *)

Lemma read_key_mono fuel accessor key index bs :
  read_key fuel accessor key index = Some bs ->
  read_key (S fuel) accessor key index = Some bs.
Proof.
  revert index bs. induction fuel as [|fuel IH]; intros index bs H; [discriminate|].
  simpl in H. change (read_key (S (S fuel)) accessor key index) with
    (match call_accessor accessor key index with
     | None => Some []
     | Some byte => cons byte <$> read_key (S fuel) accessor key (S index)
     end).
  destruct (call_accessor accessor key index) as [byte|]; [|exact H].
  destruct (read_key fuel accessor key (S index)) as [r|] eqn:E; [|discriminate].
  rewrite (IH _ _ E). exact H.
Qed.

Lemma read_key_bytes fuel accessor key index bs :
  read_key fuel accessor key index = Some bs -> Forall is_byte bs.
Proof.
  revert index bs. induction fuel as [|fuel IH]; intros index bs H; [discriminate|].
  simpl in H. unfold call_accessor in H.
  destruct (accessor key index) as [b|]; simpl in H.
  - destruct (read_key fuel accessor key (S index)) as [r|] eqn:E; [|discriminate].
    injection H as <-. constructor; [apply to_uint8_is_byte | eapply IH; exact E].
  - injection H as <-. constructor.
Qed.

Lemma read_key_cons fuel accessor key index b bs :
  read_key fuel accessor key index = Some (b :: bs) ->
  call_accessor accessor key index = Some b /\
  read_key fuel accessor key (S index) = Some bs.
Proof.
  destruct fuel as [|fuel]; [discriminate|]. intros H.
  change (match call_accessor accessor key index with
          | None => Some []
          | Some byte => cons byte <$> read_key fuel accessor key (S index)
          end = Some (b :: bs)) in H.
  destruct (call_accessor accessor key index) as [byte|]; [|discriminate].
  destruct (read_key fuel accessor key (S index)) as [r|] eqn:E; [|discriminate].
  injection H as -> ->. split; [reflexivity|]. apply read_key_mono. exact E.
Qed.

(** ** Insertion as a function on nodes *)

Lemma gnt_insert_body_eq nibbles children byte rest node' tr :
  rest (next_node nibbles byte) = Ok node' tr ->
  gnt_insert_body nibbles children byte rest =
  Ok (put_body nibbles children byte node') (body_events nibbles byte ++ tr).
Proof.
  unfold gnt_insert_body, put_body, body_events, next_node, child.
  destruct (slot nibbles (GNT_HIGH_NIBBLE byte)) as [nibble|]; simpl.
  - destruct (slot (nibble_nodes nibble) (GNT_LOW_NIBBLE byte)) as [node|];
      monad_simpl; intros ->; rewrite ?app_nil_r; reflexivity.
  - rewrite slot_null_array. monad_simpl. intros ->. rewrite ?app_nil_r. reflexivity.
Qed.

Lemma gnt_insert_loop_eq fuel accessor deallocator key data index bs node :
  read_key fuel accessor key index = Some bs ->
  gnt_insert_loop fuel accessor deallocator key data index node =
  Ok (put data bs node) (put_events deallocator bs node).
Proof.
  revert index bs node.
  induction fuel as [|fuel IH]; intros index bs node H; [discriminate|].
  simpl in H. simpl gnt_insert_loop.
  destruct (call_accessor accessor key index) as [byte|].
  - destruct (read_key fuel accessor key (S index)) as [r|] eqn:E; [|discriminate].
    injection H as <-.
    erewrite gnt_insert_body_eq by (apply IH; exact E).
    unfold put_body. monad_simpl. rewrite app_nil_r. reflexivity.
  - injection H as <-. unfold gnt_insert_store. monad_simpl.
    rewrite app_nil_r. reflexivity.
Qed.

Lemma gnt_insert_eq fuel t key data b bs :
  gnt_mutex t = false ->
  read_key fuel (gnt_accessor t) key 0 = Some (b :: bs) ->
  gnt_insert fuel (Some t) key data =
  Ok (0, Some (with_root t (put data (b :: bs) (root_node t))))
     (put_events (gnt_deallocator t) (b :: bs) (root_node t)).
Proof.
  intros Hm H. apply read_key_cons in H as [Hb Hbs].
  unfold gnt_insert, gnt_mtx_lock. rewrite Hm. rewrite bind_ret. simpl.
  rewrite Hb.
  erewrite gnt_insert_body_eq by (apply gnt_insert_loop_eq; exact Hbs).
  unfold put_body. monad_simpl. rewrite app_nil_r. reflexivity.
Qed.

(** ** Search as a function on nodes *)

Lemma gnt_search_body_eq nibbles byte rest :
  gnt_search_body nibbles byte rest =
  match child nibbles byte with
  | Some node => rest node
  | None => mret 0
  end.
Proof.
  unfold gnt_search_body, child.
  destruct (slot nibbles (GNT_HIGH_NIBBLE byte)) as [nibble|]; reflexivity.
Qed.

Lemma gnt_search_loop_eq fuel accessor key index bs node :
  read_key fuel accessor key index = Some bs ->
  gnt_search_loop fuel accessor key index node =
  Ok (from_option node_data 0 (descend bs node)) [].
Proof.
  revert index bs node.
  induction fuel as [|fuel IH]; intros index bs node H; [discriminate|].
  simpl in H. simpl gnt_search_loop.
  destruct (call_accessor accessor key index) as [byte|].
  - destruct (read_key fuel accessor key (S index)) as [r|] eqn:E; [|discriminate].
    injection H as <-. rewrite gnt_search_body_eq. simpl.
    destruct (child (node_nibbles node) byte) as [n|]; simpl; [|reflexivity].
    apply IH. exact E.
  - injection H as <-. reflexivity.
Qed.

Lemma gnt_search_eq fuel t key b bs :
  gnt_mutex t = false ->
  read_key fuel (gnt_accessor t) key 0 = Some (b :: bs) ->
  gnt_search fuel (Some t) key =
  Ok (from_option node_data 0 (terminal (gnt_nibbles t) (b :: bs)), Some t) [].
Proof.
  intros Hm H. apply read_key_cons in H as [Hb Hbs].
  unfold gnt_search, gnt_mtx_lock. rewrite Hm, bind_ret. simpl. rewrite Hb.
  rewrite gnt_search_body_eq. simpl.
  replace (gnt_mtx_unlock _) with t by (destruct t; simpl in *; subst; reflexivity).
  destruct (child (gnt_nibbles t) b) as [n|]; simpl; [|reflexivity].
  rewrite (gnt_search_loop_eq _ _ _ _ _ _ Hbs). reflexivity.
Qed.

(** ** Updates that keep the counters exact *)

Lemma slots_ok_Forall {A} (ok : A -> bool) (c : Z) (a : list (option A)) :
  slots_ok ok c a = true <->
  length a = 16%nat /\ c = count_nonnull a /\ Forall (slot_ok ok) a.
Proof.
  unfold slots_ok. rewrite !andb_true_iff, Nat.eqb_eq, Z.eqb_eq, forallb_forall.
  rewrite Forall_forall.
  split.
  - intros [[Hl Hc] Hall]. repeat split; [exact Hl|exact Hc|].
    intros [x|] Hin; simpl; [|exact I]. apply (Hall (Some x)), list_elem_of_In, Hin.
  - intros (Hl & Hc & Hall). repeat split; [exact Hl|exact Hc|].
    intros [x|] Hin; [|reflexivity]. apply (Hall (Some x)), list_elem_of_In, Hin.
Qed.

Lemma slots_ok_slot {A} (ok : A -> bool) c (a : list (option A)) i x :
  slots_ok ok c a = true -> slot a i = Some x -> ok x = true.
Proof. intros H. apply slots_ok_iff in H as (_ & _ & H). apply H. Qed.

Lemma slots_ok_length {A} (ok : A -> bool) c (a : list (option A)) :
  slots_ok ok c a = true -> length a = 16%nat.
Proof. intros H. apply slots_ok_iff in H as (H & _). exact H. Qed.

Lemma slots_ok_count {A} (ok : A -> bool) c (a : list (option A)) :
  slots_ok ok c a = true -> c = count_nonnull a.
Proof. intros H. apply slots_ok_iff in H as (_ & H & _). exact H. Qed.

(** [if (!p[i]) { p[i] = calloc(...); children++; }] followed by an update
    of the element. *)
Lemma slots_ok_set_some {A} (ok : A -> bool) c (a : list (option A)) i x :
  slots_ok ok c a = true -> 0 <= i < 16 -> ok x = true ->
  slots_ok ok (match slot a i with Some _ => c | None => to_uint8 (c + 1) end)
    (set_slot a i (Some x)) = true.
Proof.
  intros H Hi Hx. apply slots_ok_Forall in H as (Hl & Hc & Hall).
  apply slots_ok_Forall. rewrite length_set_slot.
  assert (Hcount := count_nonnull_set_slot a i (Some x) ltac:(lia)).
  pose proof (count_nonnull_bounds (set_slot a i (Some x))) as Hb.
  rewrite length_set_slot in Hb.
  repeat split; [exact Hl| |].
  - rewrite Hcount. destruct (slot a i); [lia|].
    rewrite to_uint8_small; lia.
  - apply Forall_insert; [exact Hall|exact Hx].
Qed.

(** [free(p[i]); p[i] = NULL; children--;] for a slot that is not NULL. *)
Lemma slots_ok_set_none {A} (ok : A -> bool) c (a : list (option A)) i :
  slots_ok ok c a = true -> 0 <= i < 16 -> is_Some (slot a i) ->
  slots_ok ok (to_uint8 (c - 1)) (set_slot a i None) = true.
Proof.
  intros H Hi [x Hx]. apply slots_ok_Forall in H as (Hl & Hc & Hall).
  apply slots_ok_Forall. rewrite length_set_slot.
  assert (Hcount := count_nonnull_set_slot a i None ltac:(lia)).
  pose proof (count_nonnull_bounds (set_slot a i None)) as Hb.
  pose proof (count_nonnull_bounds a) as Hb'.
  rewrite length_set_slot in Hb. rewrite Hx in Hcount.
  repeat split; [exact Hl| |].
  - rewrite Hcount. rewrite to_uint8_small; lia.
  - apply Forall_insert; [exact Hall|exact I].
Qed.

(** Replacing an element that is there leaves the counter alone. *)
Lemma slots_ok_replace {A} (ok : A -> bool) c (a : list (option A)) i x :
  slots_ok ok c a = true -> 0 <= i < 16 -> is_Some (slot a i) -> ok x = true ->
  slots_ok ok c (set_slot a i (Some x)) = true.
Proof.
  intros H Hi [y Hy] Hx. pose proof (slots_ok_set_some ok c a i x H Hi Hx) as H'.
  rewrite Hy in H'. exact H'.
Qed.

Lemma slot_some_count_pos {A} (a : list (option A)) i :
  is_Some (slot a i) -> 0 < count_nonnull a.
Proof.
  intros [x Hx]. pose proof (count_nonnull_bounds a).
  destruct (Z.eq_dec (count_nonnull a) 0) as [E|E]; [|lia].
  rewrite (count_nonnull_zero a i E) in Hx. discriminate.
Qed.

Lemma next_node_ok c nibbles byte :
  slots_ok nibble_ok c nibbles = true -> node_ok (next_node nibbles byte) = true.
Proof.
  intros H. unfold next_node, child.
  destruct (slot nibbles (GNT_HIGH_NIBBLE byte)) as [[nc nodes]|] eqn:E; simpl;
    [|reflexivity].
  apply (slots_ok_slot _ _ _ _ _ H) in E. rewrite nibble_ok_unfold in E.
  destruct (slot nodes (GNT_LOW_NIBBLE byte)) as [n|] eqn:E'; simpl; [|reflexivity].
  apply (slots_ok_slot _ _ _ _ _ E E').
Qed.

Lemma put_body_ok c nibbles byte node' :
  slots_ok nibble_ok c nibbles = true -> is_byte byte -> node_ok node' = true ->
  slots_ok nibble_ok (put_body nibbles c byte node').2 (put_body nibbles c byte node').1
  = true.
Proof.
  intros H Hb Hn. unfold put_body. simpl.
  apply slots_ok_set_some; [exact H|apply high_nibble_range, Hb|].
  rewrite nibble_ok_unfold.
  apply slots_ok_set_some; [|apply low_nibble_range|exact Hn].
  destruct (slot nibbles (GNT_HIGH_NIBBLE byte)) as [[nc nodes]|] eqn:E; simpl.
  - apply (slots_ok_slot _ _ _ _ _ H) in E. exact E.
  - reflexivity.
Qed.

Lemma put_cons data b bs node :
  put data (b :: bs) node =
  Node (node_occupied node)
    (put_body (node_nibbles node) (node_children node) b
       (put data bs (next_node (node_nibbles node) b))).2
    (node_data node)
    (put_body (node_nibbles node) (node_children node) b
       (put data bs (next_node (node_nibbles node) b))).1.
Proof. reflexivity. Qed.

Lemma put_ok data bs node :
  node_ok node = true -> Forall is_byte bs -> node_ok (put data bs node) = true.
Proof.
  intros Hn Hbs. revert node Hn.
  induction Hbs as [|b bs Hb Hbs IH]; intros [o c d nibbles] Hn.
  - exact Hn.
  - rewrite node_ok_unfold in Hn. rewrite put_cons, node_ok_unfold.
    apply put_body_ok; [exact Hn|exact Hb|].
    apply IH. eapply next_node_ok. exact Hn.
Qed.

(** ** What a search finds after an insertion *)

Lemma child_put_body_eq c nibbles byte node' :
  slots_ok nibble_ok c nibbles = true -> is_byte byte ->
  child (put_body nibbles c byte node').1 byte = Some node'.
Proof.
  intros H Hb. unfold put_body, child. simpl.
  pose proof (high_nibble_range byte Hb) as Hh.
  pose proof (low_nibble_range byte) as Hlo.
  rewrite slot_set_slot_eq by (rewrite (slots_ok_length _ _ _ H); lia).
  simpl. apply slot_set_slot_eq.
  destruct (slot nibbles (GNT_HIGH_NIBBLE byte)) as [[nc nodes]|] eqn:E; simpl.
  - apply (slots_ok_slot _ _ _ _ _ H) in E. rewrite nibble_ok_unfold in E.
    rewrite (slots_ok_length _ _ _ E). lia.
  - simpl. lia.
Qed.

Lemma child_put_body_ne c nibbles byte byte' node' :
  slots_ok nibble_ok c nibbles = true -> is_byte byte -> is_byte byte' ->
  byte <> byte' ->
  child (put_body nibbles c byte node').1 byte' = child nibbles byte'.
Proof.
  intros H Hb Hb' Hne. unfold put_body, child. simpl.
  pose proof (high_nibble_range byte Hb) as Hh.
  pose proof (high_nibble_range byte' Hb') as Hh'.
  pose proof (low_nibble_range byte) as Hlo.
  pose proof (low_nibble_range byte') as Hlo'.
  destruct (Z.eq_dec (GNT_HIGH_NIBBLE byte) (GNT_HIGH_NIBBLE byte')) as [Eh|Eh].
  - rewrite <- Eh.
    rewrite slot_set_slot_eq by (rewrite (slots_ok_length _ _ _ H); lia).
    simpl. rewrite slot_set_slot_ne; [|lia|lia|].
    + destruct (slot nibbles (GNT_HIGH_NIBBLE byte)) as [nb|]; simpl;
        [reflexivity|apply slot_null_array].
    + intros El. apply Hne, nibbles_inj; assumption.
  - rewrite slot_set_slot_ne by lia. reflexivity.
Qed.

Lemma descend_calloc_node bs :
  from_option node_data 0 (descend bs calloc_node) = 0.
Proof.
  destruct bs as [|b bs]; [reflexivity|].
  simpl. unfold child. rewrite slot_null_array. reflexivity.
Qed.

Lemma descend_put_eq data bs node :
  node_ok node = true -> Forall is_byte bs ->
  from_option node_data 0 (descend bs (put data bs node)) = data.
Proof.
  intros Hn Hbs. revert node Hn.
  induction Hbs as [|b bs Hb Hbs IH]; intros [o c d nibbles] Hn.
  - reflexivity.
  - rewrite node_ok_unfold in Hn. rewrite put_cons.
    cbn [descend node_nibbles node_children].
    rewrite (child_put_body_eq c nibbles b _ Hn Hb). simpl.
    apply IH. eapply next_node_ok. exact Hn.
Qed.

Lemma descend_put_ne data bs bs' node :
  node_ok node = true -> Forall is_byte bs -> Forall is_byte bs' -> bs <> bs' ->
  from_option node_data 0 (descend bs' (put data bs node)) =
  from_option node_data 0 (descend bs' node).
Proof.
  intros Hn Hbs. revert bs' node Hn.
  induction Hbs as [|b bs Hb Hbs IH]; intros bs' [o c d nibbles] Hn Hbs' Hne.
  - destruct bs' as [|b' bs']; [congruence|]. reflexivity.
  - rewrite node_ok_unfold in Hn. rewrite put_cons.
    destruct Hbs' as [|b' bs' Hb' Hbs']; [reflexivity|].
    cbn [descend node_nibbles node_children].
    destruct (Z.eq_dec b b') as [<-|Hbb].
    + rewrite (child_put_body_eq c nibbles b _ Hn Hb). simpl.
      rewrite IH; [| eapply next_node_ok; exact Hn | exact Hbs' | congruence].
      unfold next_node. destruct (child nibbles b) as [n|]; simpl; [reflexivity|].
      apply descend_calloc_node.
    + rewrite (child_put_body_ne c nibbles b b' _ Hn Hb Hb' Hbb). reflexivity.
Qed.

(** ** Deletion keeps the counters exact *)

Lemma bind_Ok_inv {A B} (m : outcome A) (k : A -> outcome B) b tr :
  m ≫= k = Ok b tr ->
  exists a tr1 tr2, m = Ok a tr1 /\ k a = Ok b tr2 /\ tr = tr1 ++ tr2.
Proof.
  destruct m as [a tr1|f]; [|discriminate]. rewrite bind_Ok.
  destruct (k a) as [b' tr2|f] eqn:E; [|discriminate].
  intros [= <- <-]. eauto 6.
Qed.

Lemma deref_Ok_inv {A} (p : option A) a tr :
  deref p = Ok a tr -> p = Some a /\ tr = [].
Proof. destruct p; simpl; [intros [= <- <-]; auto|discriminate]. Qed.

Lemma call_accessor_is_byte accessor key index b :
  call_accessor accessor key index = Some b -> is_byte b.
Proof.
  unfold call_accessor. destruct (accessor key index); simpl; [|discriminate].
  intros [= <-]. apply to_uint8_is_byte.
Qed.

Lemma _gnt_delete_recursive_ok fuel :
  forall nibbles key index accessor deallocator st w nibbles' tr c,
  slots_ok nibble_ok c nibbles = true ->
  _gnt_delete_recursive fuel nibbles key index accessor deallocator
  = Ok (st, w, nibbles') tr ->
  slots_ok nibble_ok c nibbles' = true /\
  (st = CONTINUE ->
   exists b, w = Some b /\ is_byte b /\ is_Some (slot nibbles' (GNT_HIGH_NIBBLE b))) /\
  (st = END -> w = None /\ nibbles' = nibbles).
Proof.
  induction fuel as [|fuel IH];
    intros nibbles key index accessor deallocator st w nibbles' tr c Hok H;
    [discriminate|].
  simpl in H.
  destruct (call_accessor accessor key index) as [byte|] eqn:Hacc.
  2:{ injection H as <- <- <- <-. repeat split; [exact Hok|discriminate]. }
  pose proof (call_accessor_is_byte _ _ _ _ Hacc) as Hbyte.
  pose proof (high_nibble_range byte Hbyte) as Hh.
  pose proof (low_nibble_range byte) as Hl.
  apply bind_Ok_inv in H as ([nc nodes] & tr1 & tr2 & Hnb & H & ->).
  apply deref_Ok_inv in Hnb as [Hnb ->].
  apply bind_Ok_inv in H as ([o ndc d sub] & tr1 & tr3 & Hnd & H & ->).
  apply deref_Ok_inv in Hnd as [Hnd ->]. simpl in Hnd.
  apply bind_Ok_inv in H as ([[st' w'] below] & tr1 & tr4 & Hrec & H & ->).
  pose proof (slots_ok_slot _ _ _ _ _ Hok Hnb) as Hnbok.
  rewrite nibble_ok_unfold in Hnbok.
  pose proof (slots_ok_slot _ _ _ _ _ Hnbok Hnd) as Hndok.
  rewrite node_ok_unfold in Hndok.
  simpl in Hrec.
  destruct (IH _ _ _ _ _ _ _ _ _ _ Hndok Hrec) as (Hbelow & Hcont & Hend).
  assert (Hput_node : forall nd, node_ok nd = true ->
            slots_ok nibble_ok c
              (set_slot nibbles (GNT_HIGH_NIBBLE byte)
                 (Some (Nibble nc (set_slot nodes (GNT_LOW_NIBBLE byte) (Some nd)))))
            = true).
  { intros nd Hndok'. apply slots_ok_replace; [exact Hok|exact Hh|eauto|].
    rewrite nibble_ok_unfold.
    apply slots_ok_replace; [exact Hnbok|exact Hl|eauto|exact Hndok']. }
  assert (Hput_none :
            slots_ok nibble_ok c
              (set_slot nibbles (GNT_HIGH_NIBBLE byte)
                 (Some (Nibble (to_uint8 (nc - 1))
                          (set_slot nodes (GNT_LOW_NIBBLE byte) None))))
            = true).
  { apply slots_ok_replace; [exact Hok|exact Hh|eauto|].
    rewrite nibble_ok_unfold.
    apply slots_ok_set_none; [exact Hnbok|exact Hl|eauto]. }
  assert (Hhigh : forall x,
            is_Some (slot (set_slot nibbles (GNT_HIGH_NIBBLE byte) (Some x))
                       (GNT_HIGH_NIBBLE byte))).
  { intros x. rewrite slot_set_slot_eq; [eauto|].
    rewrite (slots_ok_length _ _ _ Hok). lia. }
  simpl in H.
  destruct st'.
  - (* END: the node is the terminal node of the key *)
    destruct (Hend eq_refl) as [-> ->]. simpl in H.
    destruct (ndc =? 0) eqn:Endc; simpl in H.
    + apply Z.eqb_eq in Endc. subst ndc.
      destruct (negb (to_uint8 (nc - 1) =? 0)); monad_simpl;
        injection H as <- <- <- <-;
        (repeat split; [exact Hput_none|try discriminate..]).
      intros _. exists byte. repeat split; [apply Hbyte..|apply Hhigh].
    + monad_simpl. injection H as <- <- <- <-.
      repeat split; [|discriminate..].
      apply Hput_node. rewrite node_ok_unfold. exact Hndok.
  - (* CONTINUE: the nibble layer below is empty *)
    destruct (Hcont eq_refl) as (b' & -> & Hb' & Hsome).
    pose proof (high_nibble_range b' Hb') as Hh'.
    pose proof (slots_ok_count _ _ _ Hbelow) as Hcount.
    pose proof (slot_some_count_pos _ _ Hsome) as Hpos.
    simpl in H.
    destruct (ndc =? 0) eqn:Endc; [apply Z.eqb_eq in Endc; lia|].
    simpl in H.
    assert (Hnode : node_ok (Node o (to_uint8 (ndc - 1)) d
                               (set_slot below (GNT_HIGH_NIBBLE b') None)) = true).
    { rewrite node_ok_unfold. apply slots_ok_set_none; assumption. }
    destruct (negb (to_uint8 (ndc - 1) =? 0)); monad_simpl.
    + injection H as <- <- <- <-. repeat split; [|discriminate..].
      apply Hput_node, Hnode.
    + destruct (negb (to_uint8 (nc - 1) =? 0)); monad_simpl;
        injection H as <- <- <- <-;
        (repeat split; [exact Hput_none|try discriminate..]).
      intros _. exists byte. repeat split; [apply Hbyte..|apply Hhigh].
  - (* STOP *)
    monad_simpl. injection H as <- <- <- <-.
    repeat split; [|discriminate..].
    apply Hput_node. rewrite node_ok_unfold. exact Hbelow.
Qed.

Lemma gnt_delete_ok fuel t key v trie tr :
  gnt_ok t = true ->
  gnt_delete fuel (Some t) key = Ok (v, trie) tr ->
  exists t', trie = Some t' /\ gnt_ok t' = true.
Proof.
  intros Hok H. apply gnt_ok_iff in Hok as [Hm Hroot].
  unfold root_node in Hroot. rewrite node_ok_unfold in Hroot.
  unfold gnt_delete, gnt_mtx_lock in H. rewrite Hm, bind_ret in H.
  apply bind_Ok_inv in H as ([[st w] nibbles'] & tr1 & tr2 & Hrec & H & ->).
  simpl in Hrec.
  destruct (_gnt_delete_recursive_ok _ _ _ _ _ _ _ _ _ _ _ Hroot Hrec)
    as (Hok' & Hcont & _).
  simpl in H.
  assert (Hsame : gnt_ok (gnt_mtx_unlock
                            (GntTrie true (gnt_children t) nibbles'
                               (gnt_accessor t) (gnt_deallocator t))) = true).
  { apply gnt_ok_iff. split; [reflexivity|]. exact Hok'. }
  destruct st; monad_simpl.
  - injection H as <- <- <-. eauto.
  - destruct (Hcont eq_refl) as (b & -> & Hb & Hsome).
    pose proof (slots_ok_count _ _ _ Hok') as Hcount.
    pose proof (slot_some_count_pos _ _ Hsome) as Hpos.
    destruct (gnt_children t =? 0) eqn:E; [apply Z.eqb_eq in E; lia|].
    simpl in H. injection H as <- <- <-.
    eexists. split; [reflexivity|].
    apply gnt_ok_iff. split; [reflexivity|].
    unfold root_node. simpl. apply slots_ok_set_none;
      [exact Hok'|apply high_nibble_range, Hb|exact Hsome].
  - injection H as <- <- <-. eauto.
Qed.

Lemma gnt_insert_body_Ok_inv nibbles children byte rest r tr :
  gnt_insert_body nibbles children byte rest = Ok r tr ->
  exists node' tr', rest (next_node nibbles byte) = Ok node' tr'.
Proof.
  unfold gnt_insert_body, next_node, child.
  destruct (slot nibbles (GNT_HIGH_NIBBLE byte)) as [nibble|]; simpl.
  - destruct (slot (nibble_nodes nibble) (GNT_LOW_NIBBLE byte)) as [node|];
      monad_simpl; destruct (rest _); [eauto|discriminate|eauto|discriminate].
  - rewrite slot_null_array. monad_simpl.
    destruct (rest _); [eauto|discriminate].
Qed.

Lemma gnt_insert_loop_Ok_inv fuel accessor deallocator key data index node r tr :
  gnt_insert_loop fuel accessor deallocator key data index node = Ok r tr ->
  exists bs, read_key fuel accessor key index = Some bs.
Proof.
  revert index node r tr.
  induction fuel as [|fuel IH]; intros index node r tr H; [discriminate|].
  simpl in *. destruct (call_accessor accessor key index) as [byte|]; [|eauto].
  apply bind_Ok_inv in H as (r1 & tr1 & tr2 & H & _).
  apply gnt_insert_body_Ok_inv in H as (node' & tr' & H).
  apply IH in H as [bs ->]. simpl. eauto.
Qed.

Lemma gnt_insert_eq' fuel t key data b bs :
  gnt_mutex t = false ->
  call_accessor (gnt_accessor t) key 0 = Some b ->
  read_key fuel (gnt_accessor t) key 1 = Some bs ->
  gnt_insert fuel (Some t) key data =
  Ok (0, Some (with_root t (put data (b :: bs) (root_node t))))
     (put_events (gnt_deallocator t) (b :: bs) (root_node t)).
Proof.
  intros Hm Hb Hbs.
  unfold gnt_insert, gnt_mtx_lock. rewrite Hm. rewrite bind_ret. simpl.
  rewrite Hb.
  erewrite gnt_insert_body_eq by (apply gnt_insert_loop_eq; exact Hbs).
  unfold put_body. monad_simpl. rewrite app_nil_r. reflexivity.
Qed.

Lemma with_root_ok t n : node_ok n = true -> gnt_ok (with_root t n) = true.
Proof.
  intros H. apply gnt_ok_iff. split; [reflexivity|].
  destruct n. exact H.
Qed.

Lemma gnt_insert_ok fuel t key data v trie tr :
  gnt_ok t = true ->
  gnt_insert fuel (Some t) key data = Ok (v, trie) tr ->
  exists t', trie = Some t' /\ gnt_ok t' = true.
Proof.
  intros Hok H. apply gnt_ok_iff in Hok as [Hm Hroot].
  assert (exists b bs, call_accessor (gnt_accessor t) key 0 = Some b /\
                       read_key fuel (gnt_accessor t) key 1 = Some bs)
    as (b & bs & Hb & Hbs).
  { unfold gnt_insert, gnt_mtx_lock in H. rewrite Hm, bind_ret in H. simpl in H.
    destruct (call_accessor (gnt_accessor t) key 0) as [b|]; [|discriminate].
    apply bind_Ok_inv in H as (r1 & tr1 & tr2 & H & _).
    apply gnt_insert_body_Ok_inv in H as (node' & tr' & H).
    apply gnt_insert_loop_Ok_inv in H as [bs Hbs]. eauto. }
  rewrite (gnt_insert_eq' _ _ _ _ _ _ Hm Hb Hbs) in H.
  exists (with_root t (put data (b :: bs) (root_node t))).
  split; [congruence|]. apply with_root_ok, put_ok; [exact Hroot|].
  constructor; [eapply call_accessor_is_byte; exact Hb|].
  eapply read_key_bytes. exact Hbs.
Qed.

Lemma gnt_search_state fuel t key v trie tr :
  gnt_mutex t = false ->
  gnt_search fuel (Some t) key = Ok (v, trie) tr -> trie = Some t /\ tr = [].
Proof.
  intros Hm H. unfold gnt_search, gnt_mtx_lock in H. rewrite Hm, bind_ret in H.
  simpl in H. destruct (call_accessor (gnt_accessor t) key 0) as [b|]; [|discriminate].
  apply bind_Ok_inv in H as (data & tr1 & tr2 & H & H' & ->).
  monad_simpl. injection H' as <- <- <-.
  assert (tr1 = []) as ->.
  { rewrite gnt_search_body_eq in H.
    destruct (child (gnt_nibbles t) b) as [n|]; [|injection H as _ <-; reflexivity].
    clear -H. revert H. generalize 1%nat as index. revert n.
    induction fuel as [|fuel IH]; intros n index H; [discriminate|].
    simpl in H. destruct (call_accessor (gnt_accessor t) key index) as [b'|];
      [|injection H as _ <-; reflexivity].
    rewrite gnt_search_body_eq in H.
    destruct (child (node_nibbles n) b') as [n'|]; [|injection H as _ <-; reflexivity].
    eapply IH. exact H. }
  split; [|reflexivity]. f_equal. destruct t; simpl in *; subst; reflexivity.
Qed.

Lemma gnt_step_ok fuel trie op v trie' tr :
  handle_ok trie -> gnt_step fuel trie op = Ok (v, trie') tr -> handle_ok trie'.
Proof.
  intros (t & -> & Hok) H. destruct op; simpl in H.
  - eapply gnt_insert_ok; eassumption.
  - apply gnt_search_state in H as [-> _]; [exists t; auto|].
    apply gnt_ok_iff in Hok as [Hm _]. exact Hm.
  - eapply gnt_delete_ok; eassumption.
Qed.

Lemma gnt_run_ok fuel ops : forall trie vs trie' tr,
  handle_ok trie -> gnt_run fuel trie ops = Ok (vs, trie') tr -> handle_ok trie'.
Proof.
  induction ops as [|op ops IH]; intros trie vs trie' tr Hok H.
  - injection H as <- <- <-. exact Hok.
  - simpl in H.
    apply bind_Ok_inv in H as ([v trie1] & tr1 & tr2 & Hstep & H & ->).
    apply bind_Ok_inv in H as ([vs' trie2] & tr3 & tr4 & Hrun & H & ->).
    injection H as <- <- <-.
    eapply IH; [|exact Hrun]. eapply gnt_step_ok; eassumption.
Qed.

Lemma gnt_create_ok cfg : gnt_ok (gnt_create cfg) = true.
Proof. destruct cfg as [[[a|] d]|]; reflexivity. Qed.

(** ** The counters in every state reached *)

(** C8: in every state that a sequence of insertions, searches and deletions
    reaches from [gnt_create], the [children] counter of the root, of every
    nibble layer and of every node is the number of non-NULL slots of its
    array. *)
Theorem gnt_children_counters_exact fuel cfg ops vs trie tr :
  gnt_run fuel (Some (gnt_create cfg)) ops = Ok (vs, trie) tr ->
  exists t, trie = Some t /\ gnt_ok t = true.
Proof.
  intros H. eapply gnt_run_ok; [|exact H].
  exists (gnt_create cfg). split; [reflexivity|apply gnt_create_ok].
Qed.

Lemma gnt_children_counters_exact_witness :
  exists t,
    (exists vs tr,
       gnt_run 8 (Some (gnt_create (Some example_cfg)))
         [Insert 1 11; Insert 2 22; Insert 3 33; Delete 2; Delete 3]
       = Ok (vs, Some t) tr)
    /\ gnt_ok t = true.
Proof.
  edestruct (gnt_children_counters_exact 8 (Some example_cfg)
               [Insert 1 11; Insert 2 22; Insert 3 33; Delete 2; Delete 3])
    as (t & Ht & Hok).
  - vm_compute. reflexivity.
  - exists t. split; [|exact Hok].
    eexists _, _. rewrite <- Ht. vm_compute. reflexivity.
Defined.

(** ** Insertions and what a search returns after them *)

Lemma payload_at_with_root t n b bs :
  payload_at (with_root t n) (b :: bs) = from_option node_data 0 (descend (b :: bs) n).
Proof. destruct n. reflexivity. Qed.

Lemma payload_at_insert t data bytes bytes' :
  gnt_ok t = true -> Forall is_byte bytes -> Forall is_byte bytes' ->
  bytes <> [] -> bytes' <> [] ->
  payload_at (with_root t (put data bytes (root_node t))) bytes' =
  if decide (bytes = bytes') then data else payload_at t bytes'.
Proof.
  intros Hok Hb Hb' Hne Hne'. apply gnt_ok_iff in Hok as [Hm Hroot].
  destruct bytes' as [|b' bs']; [congruence|].
  rewrite payload_at_with_root.
  destruct (decide (bytes = b' :: bs')) as [->|Hdiff].
  - apply descend_put_eq; assumption.
  - rewrite descend_put_ne by assumption. reflexivity.
Qed.

Lemma gnt_search_payload fuel t key b bs :
  gnt_mutex t = false ->
  read_key fuel (gnt_accessor t) key 0 = Some (b :: bs) ->
  gnt_search fuel (Some t) key = Ok (payload_at t (b :: bs), Some t) [].
Proof. apply gnt_search_eq. Qed.

Lemma gnt_ok_mutex t : gnt_ok t = true -> gnt_mutex t = false.
Proof. intros H. apply gnt_ok_iff in H as [H _]. exact H. Qed.

(** A run of insertions from a well-formed trie: it returns, and what the
    payload of a key is afterwards. *)
Lemma gnt_run_inserts fuel ops : forall t,
  gnt_ok t = true ->
  Forall (fun op => exists b bs,
            read_key fuel (gnt_accessor t) op.1 0 = Some (b :: bs)) ops ->
  exists vs t' tr,
    gnt_run fuel (Some t) (inserts ops) = Ok (vs, Some t') tr /\
    gnt_ok t' = true /\
    gnt_accessor t' = gnt_accessor t /\
    forall key b bs,
      read_key fuel (gnt_accessor t) key 0 = Some (b :: bs) ->
      payload_at t' (b :: bs) =
      match last_payload fuel (gnt_accessor t) ops key with
      | Some d => d
      | None => payload_at t (b :: bs)
      end.
Proof.
  induction ops as [|[k data] ops IH]; intros t Hok Hall.
  - exists [], t, []. split; [reflexivity|]. split; [exact Hok|].
    split; [reflexivity|]. intros key b bs _. reflexivity.
  - apply Forall_cons in Hall as [(kb & kbs & Hk) Hall]. simpl in Hk.
    pose proof (gnt_ok_mutex _ Hok) as Hm.
    pose proof (read_key_bytes _ _ _ _ _ Hk) as Hkbytes.
    set (t1 := with_root t (put data (kb :: kbs) (root_node t))).
    assert (Hok1 : gnt_ok t1 = true).
    { apply with_root_ok, put_ok; [|exact Hkbytes].
      apply gnt_ok_iff in Hok as [_ Hroot]. exact Hroot. }
    destruct (IH t1 Hok1 Hall) as (vs & t' & tr & Hrun & Hok' & Hacc & Hpay).
    exists (0 :: vs), t'. eexists.
    split; [|split; [exact Hok'|split; [exact Hacc|]]].
    + change (gnt_run fuel (Some t) (inserts ((k, data) :: ops))) with
        ('(v, trie) ← gnt_insert fuel (Some t) k data;
         '(vs, trie) ← gnt_run fuel trie (inserts ops);
         mret (v :: vs, trie)).
      rewrite (gnt_insert_eq _ _ _ _ _ _ Hm Hk).
      fold t1. rewrite bind_Ok. rewrite Hrun. reflexivity.
    + intros key b bs Hkey. rewrite (Hpay key b bs Hkey).
      change (gnt_accessor t1) with (gnt_accessor t). simpl last_payload.
      destruct (last_payload fuel (gnt_accessor t) ops key) as [d|]; [reflexivity|].
      unfold t1. rewrite payload_at_insert;
        [|exact Hok|exact Hkbytes|eapply read_key_bytes; exact Hkey
         |discriminate|discriminate].
      unfold same_key. rewrite Hk, Hkey.
      destruct (decide (kb :: kbs = b :: bs)) as [E|E].
      * rewrite bool_decide_eq_true_2 by congruence. reflexivity.
      * rewrite bool_decide_eq_false_2 by congruence. reflexivity.
Qed.

Lemma last_payload_read fuel accessor ops key data :
  Forall (fun op => exists b bs, read_key fuel accessor op.1 0 = Some (b :: bs)) ops ->
  last_payload fuel accessor ops key = Some data ->
  exists b bs, read_key fuel accessor key 0 = Some (b :: bs).
Proof.
  intros Hall. induction Hall as [|[k d] ops Hk Hall IH]; [discriminate|].
  destruct Hk as (b & bs & Hk). cbn [last_payload].
  destruct (last_payload fuel accessor ops key) as [d'|]; [exact IH|].
  unfold same_key. simpl in Hk. case_bool_decide as E; [|discriminate].
  intros _. exists b, bs. congruence.
Qed.

(** C4: after any sequence of insertions of keys with non-empty byte
    sequences into a new trie, a search for an inserted key returns the
    payload of the most recent insertion for that key; and a further
    insertion leaves the result of the search for every other key as it was,
    whatever prefixes the byte sequences share. A key is identified by the
    byte sequence the accessor produces for it. *)
Theorem gnt_search_after_inserts fuel cfg (ops : list (Z * Z)) :
  let accessor := gnt_accessor (gnt_create cfg) in
  Forall (fun op => exists b bs, read_key fuel accessor op.1 0 = Some (b :: bs)) ops ->
  exists vs t tr,
    gnt_run fuel (Some (gnt_create cfg)) (inserts ops) = Ok (vs, Some t) tr /\
    (forall key data,
       last_payload fuel accessor ops key = Some data ->
       gnt_search fuel (Some t) key = Ok (data, Some t) []) /\
    (forall key' data' key b bs b' bs',
       read_key fuel accessor key 0 = Some (b :: bs) ->
       read_key fuel accessor key' 0 = Some (b' :: bs') ->
       b :: bs <> b' :: bs' ->
       exists v t' tr',
         gnt_search fuel (Some t) key = Ok (v, Some t) [] /\
         gnt_insert fuel (Some t) key' data' = Ok (0, Some t') tr' /\
         gnt_search fuel (Some t') key = Ok (v, Some t') []).
Proof.
  intros accessor Hall.
  destruct (gnt_run_inserts fuel ops (gnt_create cfg) (gnt_create_ok cfg) Hall)
    as (vs & t & tr & Hrun & Hok & Hacc & Hpay).
  fold accessor in Hacc, Hpay.
  pose proof (gnt_ok_mutex _ Hok) as Hm.
  exists vs, t, tr. split; [exact Hrun|]. split.
  - intros key data Hlast.
    destruct (last_payload_read _ _ _ _ _ Hall Hlast) as (b & bs & Hkey).
    rewrite (gnt_search_payload fuel t key b bs Hm) by (rewrite Hacc; exact Hkey).
    rewrite (Hpay key b bs Hkey), Hlast. reflexivity.
  - intros key' data' key b bs b' bs' Hkey Hkey' Hdiff.
    rewrite <- Hacc in Hkey, Hkey'.
    exists (payload_at t (b :: bs)),
      (with_root t (put data' (b' :: bs') (root_node t))). eexists.
    split; [apply gnt_search_payload; assumption|].
    split; [apply gnt_insert_eq; assumption|].
    rewrite (gnt_search_payload fuel _ key b bs) by (reflexivity || exact Hkey).
    rewrite payload_at_insert;
      [|exact Hok|eapply read_key_bytes; exact Hkey'|eapply read_key_bytes; exact Hkey
       |discriminate|discriminate].
    rewrite decide_False by congruence. reflexivity.
Qed.

Lemma gnt_search_after_inserts_witness :
  exists vs t tr,
    gnt_run 8 (Some (gnt_create (Some example_cfg)))
      (inserts [(1, 11); (2, 22); (1, 12); (3, 33)]) = Ok (vs, Some t) tr /\
    gnt_search 8 (Some t) 1 = Ok (12, Some t) [] /\
    gnt_search 8 (Some t) 2 = Ok (22, Some t) [] /\
    gnt_search 8 (Some t) 3 = Ok (33, Some t) [].
Proof.
  destruct (gnt_search_after_inserts 8 (Some example_cfg)
              [(1, 11); (2, 22); (1, 12); (3, 33)])
    as (vs & t & tr & Hrun & Hlast & _).
  - repeat constructor; eexists _, _; vm_compute; reflexivity.
  - exists vs, t, tr. split; [exact Hrun|].
    repeat split; apply Hlast; vm_compute; reflexivity.
Defined.

(** ** The deallocator calls of an insertion *)

Lemma deallocs_body_events nibbles byte : deallocs (body_events nibbles byte) = [].
Proof.
  unfold body_events.
  destruct (slot nibbles (GNT_HIGH_NIBBLE byte)), (child nibbles byte); reflexivity.
Qed.

Lemma deallocs_put_events_calloc deallocator bs :
  deallocs (put_events deallocator bs calloc_node) = [].
Proof.
  induction bs as [|b bs IH]; [reflexivity|].
  cbn [put_events]. rewrite deallocs_app, deallocs_body_events.
  unfold next_node, child. simpl node_nibbles. rewrite slot_null_array. exact IH.
Qed.

Lemma deallocs_put_events deallocator bs node :
  deallocs (put_events deallocator bs node) =
  match descend bs node with
  | Some n => if node_occupied n && deallocator then [node_data n] else []
  | None => []
  end.
Proof.
  revert node. induction bs as [|b bs IH]; intros node.
  - simpl. destruct (node_occupied node && deallocator); reflexivity.
  - cbn [put_events descend]. rewrite deallocs_app, deallocs_body_events.
    unfold next_node. destruct (child (node_nibbles node) b) as [n|]; simpl.
    + apply IH.
    + apply deallocs_put_events_calloc.
Qed.

Lemma descend_calloc_node_default bs :
  default calloc_node (descend bs calloc_node) = calloc_node.
Proof.
  destruct bs as [|b bs]; [reflexivity|].
  cbn [descend]. unfold child. simpl node_nibbles. rewrite slot_null_array. reflexivity.
Qed.

(** The terminal node after an insertion: the node that was there, or a new
    one, with the payload stored and the occupancy flag set. *)
Lemma descend_put data bs : forall node,
  node_ok node = true -> Forall is_byte bs ->
  descend bs (put data bs node)
  = Some (Node true (node_children (default calloc_node (descend bs node))) data
            (node_nibbles (default calloc_node (descend bs node)))).
Proof.
  induction bs as [|b bs IH]; intros [o c d nibbles] Hn Hbs; [reflexivity|].
  apply Forall_cons in Hbs as [Hb Hbs]. rewrite node_ok_unfold in Hn.
  rewrite put_cons. cbn [descend node_nibbles node_children].
  rewrite (child_put_body_eq c nibbles b _ Hn Hb). cbn [mbind option_bind].
  rewrite IH by (try exact Hbs; eapply next_node_ok; exact Hn).
  unfold next_node. destruct (child nibbles b) as [n|]; cbn [default mbind option_bind];
    [reflexivity|].
  rewrite descend_calloc_node_default. reflexivity.
Qed.



(** ** The first key byte *)

Lemma gnt_count_digits_range fuel digits temp :
  0 <= digits -> digits + Z.of_nat fuel + 1 < 256 ->
  digits + 1 <= gnt_count_digits fuel digits temp <= digits + Z.of_nat fuel + 1.
Proof.
  revert digits temp. induction fuel as [|fuel IH]; intros digits temp H0 H1.
  - simpl. rewrite to_uint8_small; lia.
  - cbn [gnt_count_digits]. rewrite to_uint8_small by lia.
    destruct (0 <? Z.shiftr temp 8); [|lia].
    specialize (IH (digits + 1) (Z.shiftr temp 8)). lia.
Qed.

Lemma gnt_accessor_default_first key : exists b, _gnt_accessor_default key 0%nat = Some b.
Proof.
  unfold _gnt_accessor_default.
  pose proof (gnt_count_digits_range digit_fuel 0 key) as H.
  unfold digit_fuel in *.
  destruct (gnt_count_digits 64 0 key <=? Z.of_nat 0) eqn:E; [|eauto].
  apply Z.leb_le in E. lia.
Qed.

(** C10: [gnt_insert] reaches its final store with [node] set exactly when
    the accessor gives a byte at index 0. When it gives none (the string
    accessor on the empty string does) the call reads the uninitialised
    [node]; when the key has at least one byte the call returns 0 and the
    payload is stored in the terminal node. The default accessor gives a
    byte at index 0 for every key, and exactly one byte, 0, for the key 0. *)
Theorem gnt_insert_terminal_pointer :
  (forall fuel t key data,
     gnt_mutex t = false ->
     call_accessor (gnt_accessor t) key 0 = None ->
     gnt_insert fuel (Some t) key data = Fault UninitRead) /\
  (forall fuel t key data b bs,
     gnt_ok t = true ->
     read_key fuel (gnt_accessor t) key 0 = Some (b :: bs) ->
     exists t' tr,
       gnt_insert fuel (Some t) key data = Ok (0, Some t') tr /\
       payload_at t' (b :: bs) = data) /\
  (forall mem key, mem key = EmptyString -> gnt_accessor_string mem key 0%nat = None) /\
  (forall key, exists b, _gnt_accessor_default key 0%nat = Some b) /\
  read_key 2 _gnt_accessor_default 0 0 = Some [0].
Proof.
  split; [|split; [|split; [|split]]].
  - intros fuel t key data Hm Hacc.
    unfold gnt_insert, gnt_mtx_lock. rewrite Hm, bind_ret. simpl.
    rewrite Hacc. reflexivity.
  - intros fuel t key data b bs Hok Hkey.
    pose proof (gnt_ok_mutex _ Hok) as Hm.
    eexists _, _. split; [apply gnt_insert_eq; eassumption|].
    rewrite payload_at_insert;
      [|exact Hok|eapply read_key_bytes; exact Hkey..|discriminate|discriminate].
    rewrite decide_True by reflexivity. reflexivity.
  - intros mem key Hmem. unfold gnt_accessor_string. rewrite Hmem. reflexivity.
  - apply gnt_accessor_default_first.
  - reflexivity.
Qed.

Lemma gnt_insert_terminal_pointer_witness :
  gnt_insert 8 (Some (gnt_create (Some example_cfg))) 0 5 = Fault UninitRead /\
  exists t' tr,
    gnt_insert 8 (Some (gnt_create (Some example_cfg))) 2 22 = Ok (0, Some t') tr /\
    payload_at t' [97; 98] = 22.
Proof.
  destruct gnt_insert_terminal_pointer as (Hnone & Hsome & _).
  split.
  - apply Hnone; vm_compute; reflexivity.
  - apply Hsome; vm_compute; reflexivity.
Defined.

(** ** The result of a search *)

Lemma terminal_null_array bytes : terminal null_array bytes = None.
Proof.
  destruct bytes as [|b bs]; [reflexivity|].
  simpl. unfold child. rewrite slot_null_array. reflexivity.
Qed.

(** C3, as the code has it: on a NULL handle [gnt_search] returns
    [(gnt_data_t) -1], all bits set. On a trie and a key of at least one
    byte it returns 0 when a nibble-layer or node slot on the path of the key
    is NULL (so on every empty trie) and otherwise the payload field of the
    terminal node, whatever its [occupied] flag; it leaves the trie as it
    was and allocates, frees and deallocates nothing. *)
Theorem gnt_search_result :
  (forall fuel key,
     gnt_search fuel None key = Ok (2 ^ 64 - 1, None) []) /\
  (forall fuel t key b bs,
     gnt_mutex t = false ->
     read_key fuel (gnt_accessor t) key 0 = Some (b :: bs) ->
     gnt_search fuel (Some t) key =
     Ok (match terminal (gnt_nibbles t) (b :: bs) with
         | Some node => node_data node
         | None => 0
         end, Some t) []) /\
  (forall fuel t key b bs,
     gnt_mutex t = false ->
     gnt_nibbles t = null_array ->
     read_key fuel (gnt_accessor t) key 0 = Some (b :: bs) ->
     gnt_search fuel (Some t) key = Ok (0, Some t) []).
Proof.
  split; [|split].
  - reflexivity.
  - intros fuel t key b bs Hm Hkey.
    rewrite (gnt_search_eq _ _ _ _ _ Hm Hkey).
    destruct (terminal (gnt_nibbles t) (b :: bs)); reflexivity.
  - intros fuel t key b bs Hm Hempty Hkey.
    rewrite (gnt_search_eq _ _ _ _ _ Hm Hkey), Hempty, terminal_null_array.
    reflexivity.
Qed.

Lemma gnt_search_result_witness :
  gnt_search 8 (Some example_trie) 2 = Ok (22, Some example_trie) [] /\
  gnt_search 8 (Some example_trie) 3 = Ok (0, Some example_trie) [] /\
  gnt_search 8 (Some (gnt_create (Some example_cfg))) 1
  = Ok (0, Some (gnt_create (Some example_cfg))) [].
Proof.
  destruct gnt_search_result as (_ & Hpath & Hempty).
  split; [|split].
  - rewrite (Hpath 8%nat example_trie 2 97 [98]); vm_compute; reflexivity.
  - rewrite (Hpath 8%nat example_trie 3 97 [98; 99]); vm_compute; reflexivity.
  - apply (Hempty 8%nat (gnt_create (Some example_cfg)) 1 97 []);
      vm_compute; reflexivity.
Defined.

(** The claim C3 as the specification words it fails on a NULL handle: the
    value returned is not zero. *)
Lemma gnt_search_null_handle_not_zero :
  ~ (exists trie tr, gnt_search 8 None 1 = Ok (0, trie) tr).
Proof. intros (trie & tr & H). vm_compute in H. discriminate H. Qed.

(** ** Where the code departs from its specification *)

(** C1 on the code: with "a" -> 11 and "ab" -> 22 stored, deleting "ab"
    empties the nibble layer below the node of "a"; the unwinding then frees
    that node although it is occupied (lines 342-354 test [children] only),
    and the layers above it. The deallocator is called for 22 alone, and a
    search for "a" returns 0 afterwards. With "abc" -> 33 stored as well, the
    node of "ab" keeps a child, nothing is freed, and the searches for "a"
    and "abc" still return 11 and 33. *)
Theorem gnt_delete_frees_occupied_prefix_node :
  gnt_search 8 (Some example_trie) 1 = Ok (11, Some example_trie) [] /\
  gnt_delete 8 (Some example_trie) 2
  = Ok (0, Some (gnt_create (Some example_cfg)))
       [Dealloc 22; Free; Free; Free; Free] /\
  gnt_search 8 (Some (gnt_create (Some example_cfg))) 1
  = Ok (0, Some (gnt_create (Some example_cfg))) [] /\
  gnt_run 8 (Some (gnt_create (Some example_cfg)))
    [Insert 1 11; Insert 2 22; Insert 3 33; Delete 2; Search 1; Search 2; Search 3]
  = Ok ([0; 0; 0; 0; 11; 0; 33],
        Some (trie_after 8 (Some example_cfg)
                [Insert 1 11; Insert 2 22; Insert 3 33; Delete 2]))
       [Calloc; Calloc; Calloc; Calloc; Calloc; Calloc; Dealloc 22].
Proof. repeat split; vm_compute; reflexivity. Qed.

(** C2 on the code: [_gnt_delete_recursive] dereferences the slots on the
    path of the key without testing them (lines 312-316), so deleting a key
    whose path is not there dereferences NULL; and where the path is there
    but the terminal node is not occupied, the deallocator is called on the
    payload field of that node. *)
Theorem gnt_delete_absent_key :
  gnt_delete 8 (Some (gnt_create None)) 5 = Fault NullDeref /\
  gnt_delete 8 (Some (trie_after 8 (Some example_cfg) [Insert 2 22])) 1
  = Ok (0, Some (trie_after 8 (Some example_cfg) [Insert 2 22])) [Dealloc 0].
Proof. repeat split; vm_compute; reflexivity. Qed.

(** C5 on the code: "a" and "ab" are inserted and then deleted, "ab" first.
    The first deletion frees the node of "a" with the rest of the tree, and
    the second dereferences NULL. Deleted in the other order, "a" first, the
    two keys leave the empty trie, every block freed and both payloads
    passed to the deallocator. *)
Theorem gnt_delete_all_longest_first :
  gnt_run 8 (Some (gnt_create (Some example_cfg))) [Insert 1 11; Insert 2 22; Delete 2]
  = Ok ([0; 0; 0], Some (gnt_create (Some example_cfg)))
       [Calloc; Calloc; Calloc; Calloc; Dealloc 22; Free; Free; Free; Free] /\
  gnt_run 8 (Some (gnt_create (Some example_cfg)))
    [Insert 1 11; Insert 2 22; Delete 2; Delete 1]
  = Fault NullDeref /\
  gnt_run 8 (Some (gnt_create (Some example_cfg)))
    [Insert 1 11; Insert 2 22; Delete 1; Delete 2]
  = Ok ([0; 0; 0; 0], Some (gnt_create (Some example_cfg)))
       [Calloc; Calloc; Calloc; Calloc; Dealloc 11; Dealloc 22;
        Free; Free; Free; Free].
Proof. repeat split; vm_compute; reflexivity. Qed.

(** C6 on the code: [_gnt_destroy_recursive_nodes] calls the deallocator for
    every node (lines 290-293 do not test [occupied]). A trie that stores
    "ab" -> 22 alone has one occupied node and the routing node of "a";
    destroying it calls the deallocator twice, once on 22 and once on the
    payload field, 0, of the routing node. *)
Theorem gnt_destroy_deallocates_routing_node :
  exists tr,
    gnt_destroy (Some (trie_after 8 (Some example_cfg) [Insert 2 22])) = Ok 0 tr /\
    deallocs tr = [22; 0] /\
    count_free tr = 5%nat.
Proof.
  exists [Dealloc 22; Free; Free; Dealloc 0; Free; Free; Free].
  repeat split; vm_compute; reflexivity.
Qed.

(** ** The guarded and the unguarded engine *)

Lemma gbt_insert_loop_eq fuel accessor deallocator key data index node :
  gbt_insert_loop fuel accessor deallocator key data index node =
  gnt_insert_loop fuel accessor deallocator key data index node.
Proof. reflexivity. Qed.

Lemma gbt_search_loop_eq fuel accessor key index node :
  gbt_search_loop fuel accessor key index node =
  gnt_search_loop fuel accessor key index node.
Proof. reflexivity. Qed.

Lemma _gbt_delete_recursive_eq fuel nibbles key index accessor deallocator :
  _gbt_delete_recursive fuel nibbles key index accessor deallocator =
  _gnt_delete_recursive fuel nibbles key index accessor deallocator.
Proof. reflexivity. Qed.

Lemma _gbt_destroy_recursive_nibbles_eq nibbles children deallocator :
  _gbt_destroy_recursive_nibbles nibbles children deallocator =
  _gnt_destroy_recursive_nibbles nibbles children deallocator.
Proof. reflexivity. Qed.

Lemma gnt_insert_unguard fuel trie key data :
  free_handle trie ->
  unguard_outcome (gnt_insert fuel trie key data)
  = gbt_insert fuel (unguard <$> trie) key data.
Proof.
  destruct trie as [t|]; [|reflexivity]. simpl. intros Hm.
  unfold gnt_insert, gbt_insert, gnt_mtx_lock. rewrite Hm, bind_ret. simpl.
  destruct (call_accessor (gnt_accessor t) key 0) as [byte|]; [|reflexivity].
  change (gbt_insert_body (gnt_nibbles t) (gnt_children t) byte
            (gbt_insert_loop fuel (gnt_accessor t) (gnt_deallocator t) key data 1))
    with (gnt_insert_body (gnt_nibbles t) (gnt_children t) byte
            (gnt_insert_loop fuel (gnt_accessor t) (gnt_deallocator t) key data 1)).
  destruct (gnt_insert_body _ _ _ _) as [[nibbles children] tr|f]; reflexivity.
Qed.

Lemma gnt_search_unguard fuel trie key :
  free_handle trie ->
  unguard_outcome (gnt_search fuel trie key) = gbt_search fuel (unguard <$> trie) key.
Proof.
  destruct trie as [t|]; [|reflexivity]. simpl. intros Hm.
  unfold gnt_search, gbt_search, gnt_mtx_lock. rewrite Hm, bind_ret. simpl.
  destruct (call_accessor (gnt_accessor t) key 0) as [byte|]; [|reflexivity].
  change (gbt_search_body (gnt_nibbles t) byte
            (gbt_search_loop fuel (gnt_accessor t) key 1))
    with (gnt_search_body (gnt_nibbles t) byte
            (gnt_search_loop fuel (gnt_accessor t) key 1)).
  destruct (gnt_search_body _ _ _) as [data tr|f]; reflexivity.
Qed.

Lemma gnt_delete_unguard fuel trie key :
  free_handle trie ->
  unguard_outcome (gnt_delete fuel trie key) = gbt_delete fuel (unguard <$> trie) key.
Proof.
  destruct trie as [t|]; [|reflexivity]. simpl. intros Hm.
  unfold gnt_delete, gbt_delete, gnt_mtx_lock. rewrite Hm, bind_ret.
  cbn [unguard gbt_nibbles gbt_accessor gbt_deallocator gbt_children
       gnt_nibbles gnt_accessor gnt_deallocator gnt_children gnt_mutex].
  change (_gbt_delete_recursive fuel (gnt_nibbles t) key 0 (gnt_accessor t)
            (gnt_deallocator t))
    with (_gnt_delete_recursive fuel (gnt_nibbles t) key 0 (gnt_accessor t)
            (gnt_deallocator t)).
  destruct (_gnt_delete_recursive _ _ _ _ _ _) as [[[st w] nibbles] tr|f];
    [|reflexivity].
  rewrite !bind_Ok. simpl.
  destruct st; try reflexivity.
  destruct (gnt_children t =? 0); [reflexivity|].
  destruct w as [b|]; reflexivity.
Qed.

Lemma gnt_step_unguard fuel trie op :
  free_handle trie ->
  unguard_outcome (gnt_step fuel trie op) = gbt_step fuel (unguard <$> trie) op.
Proof.
  destruct op; simpl.
  - apply gnt_insert_unguard.
  - apply gnt_search_unguard.
  - apply gnt_delete_unguard.
Qed.

(** Every operation that returns has released the mutex. *)
Lemma gnt_step_free fuel trie op v trie' tr :
  free_handle trie -> gnt_step fuel trie op = Ok (v, trie') tr -> free_handle trie'.
Proof.
  destruct trie as [t|].
  2:{ intros _ H. destruct op; injection H as <- <- <-; exact I. }
  simpl. intros Hm H. destruct op; simpl in H.
  - unfold gnt_insert, gnt_mtx_lock in H. rewrite Hm, bind_ret in H. simpl in H.
    destruct (call_accessor (gnt_accessor t) key 0); [|discriminate].
    apply bind_Ok_inv in H as ([nibbles children] & tr1 & tr2 & _ & H & _).
    injection H as <- <- <-. reflexivity.
  - apply gnt_search_state in H as [-> _]; assumption.
  - unfold gnt_delete, gnt_mtx_lock in H. rewrite Hm, bind_ret in H.
    apply bind_Ok_inv in H as ([[st w] nibbles] & tr1 & tr2 & _ & H & _).
    apply bind_Ok_inv in H as (t1 & tr3 & tr4 & _ & H & _).
    injection H as <- <- <-. reflexivity.
Qed.

Lemma gnt_run_unguard fuel ops : forall trie,
  free_handle trie ->
  unguard_outcome (gnt_run fuel trie ops) = gbt_run fuel (unguard <$> trie) ops /\
  (forall vs trie' tr, gnt_run fuel trie ops = Ok (vs, trie') tr -> free_handle trie').
Proof.
  induction ops as [|op ops IH]; intros trie Hfree.
  - split; [reflexivity|]. intros vs trie' tr [= <- <- <-]. exact Hfree.
  - cbn [gnt_run gbt_run].
    rewrite <- (gnt_step_unguard fuel trie op Hfree).
    destruct (gnt_step fuel trie op) as [[v trie1] tr1|f] eqn:Hstep.
    2:{ split; [reflexivity|]. intros vs trie' tr H. discriminate H. }
    pose proof (gnt_step_free _ _ _ _ _ _ Hfree Hstep) as Hfree1.
    destruct (IH trie1 Hfree1) as [Heq Hfree'].
    simpl unguard_outcome. rewrite !bind_Ok. rewrite <- Heq.
    destruct (gnt_run fuel trie1 ops) as [[vs trie2] tr2|f] eqn:Hrun.
    2:{ split; [reflexivity|]. intros vs trie' tr H. discriminate H. }
    simpl. split; [reflexivity|].
    intros vs' trie' tr [= <- <- <-]. eapply Hfree'. reflexivity.
Qed.

Lemma gnt_destroy_unguard trie : gnt_destroy trie = gbt_destroy (unguard <$> trie).
Proof. destruct trie as [t|]; reflexivity. Qed.

(** ** The default accessors *)

Lemma gnt_count_digits_base fuel digits temp :
  gnt_count_digits fuel digits temp = count_digits_base 256 fuel digits temp.
Proof.
  revert digits temp. induction fuel as [|fuel IH]; intros digits temp;
    cbn [gnt_count_digits count_digits_base]; [reflexivity|].
  rewrite Z.shiftr_div_pow2 by lia. change (2 ^ 8) with 256.
  rewrite IH. reflexivity.
Qed.

Lemma gnt_shift_key_base n k : gnt_shift_key n k = shift_base 256 n k.
Proof.
  revert k. induction n as [|n IH]; intros k; [reflexivity|].
  cbn [gnt_shift_key shift_base]. rewrite Z.shiftr_div_pow2 by lia. apply IH.
Qed.

Lemma gnt_accessor_default_base key index :
  _gnt_accessor_default key index = accessor_base 256 key index.
Proof.
  unfold _gnt_accessor_default, accessor_base.
  rewrite gnt_count_digits_base, gnt_shift_key_base.
  change 255 with (Z.ones 8). rewrite Z.land_ones by lia. reflexivity.
Qed.

Lemma gbt_count_digits_base fuel digits temp :
  gbt_count_digits fuel digits temp = count_digits_base 10 fuel digits temp.
Proof.
  revert digits temp. induction fuel as [|fuel IH]; intros digits temp;
    cbn [gbt_count_digits count_digits_base]; [reflexivity|].
  rewrite IH. reflexivity.
Qed.

Lemma gbt_shift_key_base n k : gbt_shift_key n k = shift_base 10 n k.
Proof.
  revert k. induction n as [|n IH]; intros k; [reflexivity|].
  cbn [gbt_shift_key shift_base]. apply IH.
Qed.

Lemma gbt_accessor_default_base key index :
  _gbt_accessor_default key index = accessor_base 10 key index.
Proof.
  unfold _gbt_accessor_default, accessor_base.
  rewrite gbt_count_digits_base, gbt_shift_key_base. reflexivity.
Qed.

Section Digits.
Variable base : Z.
Hypothesis base_ge_2 : 2 <= base.
Hypothesis base_le_256 : base <= 256.

Lemma pow_base_pos n : 0 <= n -> 0 < base ^ n.
Proof. intros H. apply Z.pow_pos_nonneg; lia. Qed.

Lemma count_digits_base_spec fuel : forall digits temp,
  0 <= digits -> digits + Z.of_nat fuel + 1 < 256 ->
  0 <= temp < base ^ (Z.of_nat fuel + 1) ->
  exists m,
    count_digits_base base fuel digits temp = digits + 1 + m /\
    0 <= m <= Z.of_nat fuel /\
    temp < base ^ (m + 1) /\
    (temp <> 0 -> base ^ m <= temp) /\
    (temp = 0 -> m = 0).
Proof.
  induction fuel as [|fuel IH]; intros digits temp Hd Hw Ht.
  - exists 0. cbn [count_digits_base]. rewrite to_uint8_small by lia.
    change (Z.of_nat 0 + 1) with 1 in Ht. change (0 + 1) with 1.
    rewrite Z.pow_1_r in *. rewrite Z.pow_0_r. repeat split; lia.
  - cbn [count_digits_base]. rewrite to_uint8_small by lia.
    assert (Hdiv : 0 <= temp / base) by (apply Z.div_pos; lia).
    pose proof (Z.mul_div_le temp base ltac:(lia)) as Hlo.
    pose proof (Z.mul_succ_div_gt temp base ltac:(lia)) as Hhi.
    destruct (0 <? temp / base) eqn:E.
    + apply Z.ltb_lt in E.
      destruct (IH (digits + 1) (temp / base)) as (m & Hc & Hm & Hlt & Hge & _);
        [lia|lia| |].
      { split; [lia|]. apply Z.div_lt_upper_bound; [lia|].
        rewrite <- Z.pow_succ_r by lia.
        replace (Z.succ (Z.of_nat fuel + 1)) with (Z.of_nat (S fuel) + 1) by lia.
        lia. }
      exists (m + 1). rewrite Hc.
      pose proof (pow_base_pos m ltac:(lia)) as Hpm.
      replace (m + 1 + 1) with (Z.succ (m + 1)) by lia.
      replace (m + 1) with (Z.succ m) in * by lia.
      rewrite !Z.pow_succ_r in * by lia.
      specialize (Hge ltac:(lia)).
      assert (temp <> 0) by (intros ->; rewrite Z.div_0_l in E; lia).
      repeat split; try lia; nia.
    + apply Z.ltb_ge in E. assert (temp / base = 0) as E0 by lia.
      exists 0. change (0 + 1) with 1. rewrite Z.pow_1_r, Z.pow_0_r.
      repeat split; lia.
Qed.

Lemma shift_base_div n k : shift_base base n k = k / base ^ Z.of_nat n.
Proof.
  revert k. induction n as [|n IH]; intros k.
  - simpl. rewrite Z.div_1_r. reflexivity.
  - cbn [shift_base]. rewrite IH, Z.div_div by (try apply pow_base_pos; lia).
    rewrite <- Z.pow_succ_r by lia. f_equal. f_equal. lia.
Qed.

Lemma call_accessor_base key n i :
  count_digits_base base digit_fuel 0 key = Z.of_nat n ->
  call_accessor (accessor_base base) key i =
  if (n <=? i)%nat then None
  else Some ((key / base ^ Z.of_nat (n - i - 1)) mod base).
Proof.
  intros Hn. unfold call_accessor, accessor_base. rewrite Hn.
  destruct (n <=? i)%nat eqn:E.
  - apply Nat.leb_le in E. rewrite (proj2 (Z.leb_le _ _)) by lia. reflexivity.
  - apply Nat.leb_gt in E. rewrite (proj2 (Z.leb_gt _ _)) by lia.
    cbn [fmap option_fmap option_map]. rewrite shift_base_div.
    replace (Z.to_nat (Z.of_nat n - Z.of_nat i - 1)) with (n - i - 1)%nat by lia.
    rewrite to_uint8_small; [reflexivity|].
    pose proof (Z.mod_pos_bound (key / base ^ Z.of_nat (n - i - 1)) base
                  ltac:(lia)). lia.
Qed.

Lemma read_key_accessor_base key n :
  count_digits_base base digit_fuel 0 key = Z.of_nat n ->
  forall m fuel, (m <= n)%nat -> (m < fuel)%nat ->
  read_key fuel (accessor_base base) key (n - m) = Some (digits_below base key m).
Proof.
  intros Hn. induction m as [|m IH]; intros fuel Hm Hf.
  - destruct fuel as [|fuel]; [lia|]. cbn [read_key digits_below].
    rewrite (call_accessor_base key n _ Hn).
    rewrite (proj2 (Nat.leb_le _ _)) by lia. reflexivity.
  - destruct fuel as [|fuel]; [lia|]. cbn [read_key digits_below].
    rewrite (call_accessor_base key n _ Hn).
    rewrite (proj2 (Nat.leb_gt _ _)) by lia.
    replace (S (n - S m)) with (n - m)%nat by lia.
    rewrite (IH fuel) by lia. cbn [fmap option_fmap option_map].
    replace (n - (n - S m) - 1)%nat with m by lia. reflexivity.
Qed.

Lemma fold_digits_below key m acc :
  fold_left (fun acc d => acc * base + d) (digits_below base key m) acc
  = acc * base ^ Z.of_nat m + key mod base ^ Z.of_nat m.
Proof.
  revert acc. induction m as [|m IH]; intros acc.
  - simpl. rewrite Z.mod_1_r. lia.
  - cbn [digits_below fold_left]. rewrite IH.
    replace (Z.of_nat (S m)) with (Z.succ (Z.of_nat m)) by lia.
    rewrite Z.pow_succ_r by lia.
    pose proof (pow_base_pos (Z.of_nat m) ltac:(lia)) as Hp.
    rewrite (Z.mul_comm base (base ^ Z.of_nat m)).
    rewrite (Z.rem_mul_r key (base ^ Z.of_nat m) base) by lia.
    lia.
Qed.

Lemma digits_below_range key m :
  Forall (fun d => 0 <= d < base) (digits_below base key m).
Proof.
  induction m as [|m IH]; constructor; [|exact IH].
  apply Z.mod_pos_bound. lia.
Qed.

Lemma length_digits_below key m : length (digits_below base key m) = m.
Proof. induction m as [|m IH]; simpl; congruence. Qed.

(** For a key below [base ^ k] the accessor produces its digits in base
    [base], most significant first, and at most [k] of them. *)
Lemma accessor_base_msb_digits key k fuel :
  1 <= k <= Z.of_nat digit_fuel + 1 -> 0 <= key < base ^ k -> k < Z.of_nat fuel ->
  exists ds,
    read_key fuel (accessor_base base) key 0 = Some ds /\
    msb_digits base key ds /\
    Z.of_nat (length ds) <= k.
Proof.
  intros Hk Hkey Hfuel.
  assert (Hcover : 0 <= key < base ^ (Z.of_nat digit_fuel + 1)).
  { split; [lia|]. eapply Z.lt_le_trans; [apply Hkey|].
    apply Z.pow_le_mono_r; lia. }
  destruct (count_digits_base_spec digit_fuel 0 key ltac:(lia)
              ltac:(unfold digit_fuel; lia) Hcover)
    as (m & Hc & Hm & Hlt & Hge & Hzero).
  assert (Hmk : m + 1 <= k).
  { destruct (Z.eq_dec key 0) as [E|E]; [rewrite (Hzero E); lia|].
    specialize (Hge E).
    assert (H : base ^ m < base ^ k) by lia.
    apply Z.pow_lt_mono_r_iff in H; lia. }
  set (n := Z.to_nat (m + 1)).
  assert (Hn : count_digits_base base digit_fuel 0 key = Z.of_nat n) by lia.
  pose proof (read_key_accessor_base key n Hn n fuel ltac:(lia) ltac:(lia)) as Hread.
  rewrite Nat.sub_diag in Hread.
  exists (digits_below base key n). split; [exact Hread|].
  assert (Hnz : n = S (Z.to_nat m)) by lia.
  split; [|rewrite length_digits_below; lia].
  unfold msb_digits. split; [rewrite Hnz; discriminate|].
  split; [apply digits_below_range|].
  split; [|split].
  - unfold digits_value. rewrite fold_digits_below.
    replace (Z.of_nat n) with (m + 1) by lia.
    rewrite Z.mod_small by lia. lia.
  - intros Hnz0. rewrite Hnz. cbn [digits_below hd].
    rewrite Z2Nat.id by lia.
    pose proof (pow_base_pos m ltac:(lia)) as Hp.
    specialize (Hge Hnz0).
    replace (m + 1) with (Z.succ m) in Hlt by lia.
    rewrite Z.pow_succ_r in Hlt by lia.
    assert (1 <= key / base ^ m) by (apply Z.div_le_lower_bound; lia).
    assert (key / base ^ m < base) by (apply Z.div_lt_upper_bound; lia).
    rewrite Z.mod_small; lia.
  - intros ->. rewrite Hnz, (Hzero eq_refl). cbn [digits_below Z.to_nat].
    rewrite Z.div_0_l, Z.mod_0_l by lia. reflexivity.
Qed.
End Digits.

Lemma read_key_ext fuel (a1 a2 : accessor_t) key :
  (forall index, a1 key index = a2 key index) ->
  forall index, read_key fuel a1 key index = read_key fuel a2 key index.
Proof.
  intros Hext. induction fuel as [|fuel IH]; intros index; [reflexivity|].
  cbn [read_key]. unfold call_accessor. rewrite Hext, IH. reflexivity.
Qed.

Lemma gnt_accessor_default_msb_digits key fuel :
  0 <= key < 2 ^ 64 -> (8 < fuel)%nat ->
  exists ds,
    read_key fuel _gnt_accessor_default key 0 = Some ds /\
    msb_digits 256 key ds /\ (length ds <= 8)%nat.
Proof.
  intros Hkey Hfuel.
  destruct (accessor_base_msb_digits 256 ltac:(lia) ltac:(lia) key 8 fuel)
    as (ds & Hread & Hmsb & Hlen); [unfold digit_fuel; lia|exact Hkey|lia|].
  exists ds. split; [|split; [exact Hmsb|lia]].
  rewrite <- Hread. apply read_key_ext, gnt_accessor_default_base.
Qed.

Lemma gbt_accessor_default_msb_digits key fuel :
  0 <= key < 2 ^ 64 -> (20 < fuel)%nat ->
  exists ds,
    read_key fuel _gbt_accessor_default key 0 = Some ds /\
    msb_digits 10 key ds /\ (length ds <= 20)%nat.
Proof.
  intros Hkey Hfuel.
  destruct (accessor_base_msb_digits 10 ltac:(lia) ltac:(lia) key 20 fuel)
    as (ds & Hread & Hmsb & Hlen); [unfold digit_fuel; lia|lia|lia|].
  exists ds. split; [|split; [exact Hmsb|lia]].
  rewrite <- Hread. apply read_key_ext, gbt_accessor_default_base.
Qed.

(** A guarded operation on a trie whose mutex is held never returns. *)
Lemma gnt_step_blocked fuel t op :
  gnt_mutex t = true -> gnt_step fuel (Some t) op = Fault Blocked.
Proof.
  intros Hm. destruct op; simpl;
    unfold gnt_insert, gnt_search, gnt_delete, gnt_mtx_lock; rewrite Hm; reflexivity.
Qed.

(** C9: with an accessor and a deallocator given in the configuration, the
    guarded and the unguarded engine start from the same state and, on every
    sequence of insertions, searches and deletions, return the same values,
    call [calloc], [free] and the deallocator in the same order, and leave
    the same tree; destroying the trie afterwards gives the same trace. The
    guard is the only difference: a guarded operation waits for ever on a
    held mutex and releases it before it returns. Without an accessor in the
    configuration the two differ: the default of gnt.c produces the base-256
    digits of the key, most significant first (at most 8), the default of
    gbt.c its decimal digits, most significant first (at most 20). *)
Theorem gbt_gnt_equivalent :
  (forall fuel accessor deallocator ops,
     let gnt_cfg := Some (GntCfg (Some accessor) deallocator) in
     let gbt_cfg := Some (GbtCfg (Some accessor) deallocator) in
     unguard (gnt_create gnt_cfg) = gbt_create gbt_cfg /\
     unguard_outcome (gnt_run fuel (Some (gnt_create gnt_cfg)) ops)
     = gbt_run fuel (Some (gbt_create gbt_cfg)) ops /\
     gnt_session fuel gnt_cfg ops = gbt_session fuel gbt_cfg ops) /\
  (forall fuel t op, gnt_mutex t = true -> gnt_step fuel (Some t) op = Fault Blocked) /\
  (forall fuel t op v trie tr,
     gnt_mutex t = false -> gnt_step fuel (Some t) op = Ok (v, trie) tr ->
     exists t', trie = Some t' /\ gnt_mutex t' = false) /\
  (forall deallocator,
     gnt_accessor (gnt_create (Some (GntCfg None deallocator))) = _gnt_accessor_default /\
     gbt_accessor (gbt_create (Some (GbtCfg None deallocator))) = _gbt_accessor_default /\
     gnt_accessor (gnt_create None) = _gnt_accessor_default /\
     gbt_accessor (gbt_create None) = _gbt_accessor_default) /\
  (forall key fuel,
     0 <= key < 2 ^ 64 -> (8 < fuel)%nat ->
     exists ds,
       read_key fuel _gnt_accessor_default key 0 = Some ds /\
       msb_digits 256 key ds /\ (length ds <= 8)%nat) /\
  (forall key fuel,
     0 <= key < 2 ^ 64 -> (20 < fuel)%nat ->
     exists ds,
       read_key fuel _gbt_accessor_default key 0 = Some ds /\
       msb_digits 10 key ds /\ (length ds <= 20)%nat).
Proof.
  split; [|split; [|split; [|split; [|split]]]].
  - intros fuel accessor deallocator ops gnt_cfg gbt_cfg.
    destruct (gnt_run_unguard fuel ops (Some (gnt_create gnt_cfg)) eq_refl)
      as [Hrun _].
    split; [reflexivity|]. split; [exact Hrun|].
    unfold gnt_session, gbt_session.
    change (Some (gbt_create gbt_cfg)) with (unguard <$> Some (gnt_create gnt_cfg)).
    rewrite <- Hrun.
    destruct (gnt_run fuel (Some (gnt_create gnt_cfg)) ops) as [[vs trie] tr|f];
      [|reflexivity].
    simpl unguard_outcome. rewrite !bind_Ok, gnt_destroy_unguard. reflexivity.
  - apply gnt_step_blocked.
  - intros fuel t op v trie tr Hm Hstep.
    pose proof (gnt_step_free fuel (Some t) op v trie tr Hm Hstep) as Hfree.
    destruct trie as [t'|]; [eauto|].
    exfalso. destruct op; simpl in Hstep.
    + unfold gnt_insert, gnt_mtx_lock in Hstep. rewrite Hm, bind_ret in Hstep.
      simpl in Hstep. destruct (call_accessor _ _ _); [|discriminate].
      apply bind_Ok_inv in Hstep as ([n c] & ? & ? & _ & H & _). discriminate H.
    + apply gnt_search_state in Hstep as [H _]; [discriminate H|exact Hm].
    + unfold gnt_delete, gnt_mtx_lock in Hstep. rewrite Hm, bind_ret in Hstep.
      apply bind_Ok_inv in Hstep as ([[st w] n] & ? & ? & _ & H & _).
      apply bind_Ok_inv in H as (t1 & ? & ? & _ & H & _). discriminate H.
  - intros deallocator. repeat split.
  - apply gnt_accessor_default_msb_digits.
  - apply gbt_accessor_default_msb_digits.
Qed.

Lemma gbt_gnt_equivalent_witness :
  gnt_step 8 (Some (GntTrie true 0 null_array _gnt_accessor_default false)) (Search 1)
  = Fault Blocked /\
  (exists t', Some (gnt_create None) = Some t' /\ gnt_mutex t' = false) /\
  (exists ds, read_key 9 _gnt_accessor_default 258 0 = Some ds /\
              msb_digits 256 258 ds /\ (length ds <= 8)%nat) /\
  (exists ds, read_key 21 _gbt_accessor_default 258 0 = Some ds /\
              msb_digits 10 258 ds /\ (length ds <= 20)%nat).
Proof.
  destruct gbt_gnt_equivalent as (_ & Hblocked & Hfree & _ & Hgnt & Hgbt).
  split; [|split; [|split]].
  - apply Hblocked. reflexivity.
  - apply (Hfree 8%nat (gnt_create None) (Search 1) 0 _ []); reflexivity.
  - apply Hgnt; [vm_compute; split; [discriminate|reflexivity]|lia].
  - apply Hgbt; [vm_compute; split; [discriminate|reflexivity]|lia].
Defined.

(** ** Deletion as a function of the byte sequence *)

Lemma _gnt_delete_recursive_prune fuel : forall nibbles key index accessor deallocator bs,
  read_key fuel accessor key index = Some bs ->
  _gnt_delete_recursive fuel nibbles key index accessor deallocator =
  match prune deallocator bs nibbles with
  | Some (status, nibbles', tr) => Ok (status, head bs, nibbles') tr
  | None => Fault NullDeref
  end.
Proof.
  induction fuel as [|fuel IH]; intros nibbles key index accessor deallocator bs Hread;
    [discriminate|].
  cbn [read_key] in Hread. cbn [_gnt_delete_recursive].
  destruct (call_accessor accessor key index) as [byte|] eqn:Hacc.
  2:{ injection Hread as <-. reflexivity. }
  destruct (read_key fuel accessor key (S index)) as [rest|] eqn:Hrest; [|discriminate].
  injection Hread as <-. cbn [prune head].
  destruct (slot nibbles (GNT_HIGH_NIBBLE byte)) as [[nc nodes]|]; [|reflexivity].
  monad_simpl.
  destruct (slot nodes (GNT_LOW_NIBBLE byte)) as [[o ndc dt sub]|]; [|reflexivity].
  simpl. rewrite (IH _ _ _ _ deallocator _ Hrest).
  destruct (prune deallocator rest sub) as [[[st below] tr]|]; [|reflexivity].
  unfold unwind_node, unwind_nibble. simpl.
  destruct st; simpl; rewrite ?app_nil_r; try reflexivity;
    destruct (ndc =? 0) eqn:E; simpl; rewrite ?E, ?app_nil_r; simpl;
    try reflexivity;
    repeat match goal with
           | |- context [negb (?x =? 0)] => destruct (negb (x =? 0)); simpl
           end;
    rewrite ?app_nil_r, <- ?app_assoc; reflexivity.
Qed.

(** ** Sums over arrays *)

Lemma nibble_blocks_unfold c nodes :
  nibble_blocks (Nibble c nodes) = S (slots_sum node_blocks nodes).
Proof. reflexivity. Qed.

Lemma node_blocks_unfold o c d nibbles :
  node_blocks (Node o c d nibbles) = S (slots_sum nibble_blocks nibbles).
Proof. reflexivity. Qed.

Lemma slots_sum_insert {A} (f : A -> nat) (a : list (option A)) (n : nat) v :
  (n < length a)%nat ->
  (slots_sum f (<[n := v]> a) + from_option f 0 (mjoin (a !! n))
   = slots_sum f a + from_option f 0 v)%nat.
Proof.
  unfold slots_sum. revert n. induction a as [|p a IH]; intros n Hn; simpl in Hn; [lia|].
  destruct n as [|n].
  - simpl. destruct p, v; simpl; lia.
  - simpl. specialize (IH n ltac:(lia)). destruct p; simpl; lia.
Qed.

Lemma slots_sum_set_slot {A} (f : A -> nat) (a : list (option A)) i v :
  0 <= i < Z.of_nat (length a) ->
  (slots_sum f (set_slot a i v) + from_option f 0 (slot a i)
   = slots_sum f a + from_option f 0 v)%nat.
Proof. intros H. unfold set_slot, slot. apply slots_sum_insert. lia. Qed.

Lemma slots_sum_all_null {A} (f : A -> nat) (a : list (option A)) :
  count_nonnull a = 0 -> slots_sum f a = 0%nat.
Proof.
  unfold slots_sum. induction a as [|p a IH]; [reflexivity|].
  pose proof (count_nonnull_bounds a) as Hb. destruct p; simpl; intros H; [lia|].
  apply IH. exact H.
Qed.

Lemma count_calloc_app tr1 tr2 :
  count_calloc (tr1 ++ tr2) = (count_calloc tr1 + count_calloc tr2)%nat.
Proof. unfold count_calloc. rewrite filter_app, length_app. reflexivity. Qed.

Lemma count_free_app tr1 tr2 :
  count_free (tr1 ++ tr2) = (count_free tr1 + count_free tr2)%nat.
Proof. unfold count_free. rewrite filter_app, length_app. reflexivity. Qed.

(** ** What the unwinding of a deletion leaves *)

Lemma child_all_null nibbles b : count_nonnull nibbles = 0 -> child nibbles b = None.
Proof. intros H. unfold child. rewrite (count_nonnull_zero _ _ H). reflexivity. Qed.

Lemma child_set_slot_eq c nibbles b nc nodes x :
  slots_ok nibble_ok c nibbles = true -> is_byte b ->
  length nodes = 16%nat ->
  child (set_slot nibbles (GNT_HIGH_NIBBLE b)
           (Some (Nibble nc (set_slot nodes (GNT_LOW_NIBBLE b) x)))) b = x.
Proof.
  intros Hok Hb Hlen. unfold child.
  pose proof (high_nibble_range b Hb). pose proof (low_nibble_range b).
  rewrite slot_set_slot_eq by (rewrite (slots_ok_length _ _ _ Hok); lia).
  simpl. apply slot_set_slot_eq. lia.
Qed.

Lemma child_set_slot_ne c nibbles b b' nc nc' nodes x :
  slots_ok nibble_ok c nibbles = true -> is_byte b -> is_byte b' -> b <> b' ->
  slot nibbles (GNT_HIGH_NIBBLE b) = Some (Nibble nc nodes) ->
  child (set_slot nibbles (GNT_HIGH_NIBBLE b)
           (Some (Nibble nc' (set_slot nodes (GNT_LOW_NIBBLE b) x)))) b'
  = child nibbles b'.
Proof.
  intros Hok Hb Hb' Hne Hslot. unfold child.
  pose proof (high_nibble_range b Hb). pose proof (high_nibble_range b' Hb').
  pose proof (low_nibble_range b). pose proof (low_nibble_range b').
  destruct (Z.eq_dec (GNT_HIGH_NIBBLE b) (GNT_HIGH_NIBBLE b')) as [Eh|Eh].
  - rewrite <- Eh.
    rewrite slot_set_slot_eq by (rewrite (slots_ok_length _ _ _ Hok); lia).
    rewrite Hslot. simpl. apply slot_set_slot_ne; [lia|lia|].
    intros El. apply Hne, nibbles_inj; assumption.
  - rewrite slot_set_slot_ne by lia. reflexivity.
Qed.

(** Freeing a nibble layer that has no node changes no lookup. *)
Lemma child_remove_empty c nibbles h nodes b :
  slots_ok nibble_ok c nibbles = true -> 0 <= h < 16 -> is_byte b ->
  slot nibbles h = Some (Nibble 0 nodes) ->
  child (set_slot nibbles h None) b = child nibbles b.
Proof.
  intros Hok Hh Hb Hslot. unfold child.
  pose proof (high_nibble_range b Hb).
  destruct (Z.eq_dec h (GNT_HIGH_NIBBLE b)) as [<-|Eh].
  - rewrite slot_set_slot_eq by (rewrite (slots_ok_length _ _ _ Hok); lia).
    rewrite Hslot. simpl.
    pose proof (slots_ok_slot _ _ _ _ _ Hok Hslot) as Hnb.
    rewrite nibble_ok_unfold in Hnb. apply slots_ok_count in Hnb.
    symmetry. apply count_nonnull_zero. congruence.
  - rewrite slot_set_slot_ne by lia. reflexivity.
Qed.

Lemma empty_nibble_blocks nodes :
  nibble_ok (Nibble 0 nodes) = true -> nibble_blocks (Nibble 0 nodes) = 1%nat.
Proof.
  rewrite nibble_ok_unfold, nibble_blocks_unfold. intros H.
  apply slots_ok_count in H. rewrite slots_sum_all_null by congruence. reflexivity.
Qed.

Lemma descend_terminal bs o c d nibbles :
  bs <> [] -> descend bs (Node o c d nibbles) = terminal nibbles bs.
Proof. destruct bs; [congruence|reflexivity]. Qed.

Lemma terminal_child_ext nibbles nibbles' bs :
  Forall is_byte bs ->
  (forall b, is_byte b -> child nibbles b = child nibbles' b) ->
  terminal nibbles bs = terminal nibbles' bs.
Proof.
  intros Hbs H. destruct Hbs as [|b bs Hb _]; [reflexivity|].
  simpl. rewrite (H b Hb). reflexivity.
Qed.

Lemma terminal_no_child nibbles bs :
  Forall is_byte bs -> (forall b, is_byte b -> child nibbles b = None) ->
  terminal nibbles bs = None.
Proof.
  intros Hbs H. destruct Hbs as [|b bs Hb _]; [reflexivity|].
  simpl. rewrite (H b Hb). reflexivity.
Qed.

Lemma count_free_dealloc (deallocator : bool) x :
  count_free (if deallocator then [Dealloc x] else []) = 0%nat.
Proof. destruct deallocator; reflexivity. Qed.

Lemma count_free_Free tr : count_free (Free :: tr) = S (count_free tr).
Proof. reflexivity. Qed.

Lemma count_free_nil : count_free [] = 0%nat.
Proof. reflexivity. Qed.

Lemma unwind_node_spec deallocator st w o ndc dt below r ev :
  slots_ok nibble_ok ndc below = true ->
  (st = END -> w = None) ->
  (st = CONTINUE ->
   exists b nodes, w = Some b /\ is_byte b /\
                   slot below (GNT_HIGH_NIBBLE b) = Some (Nibble 0 nodes)) ->
  unwind_node deallocator st w (Node o ndc dt below) = (r, ev) ->
  deallocs ev = match st with
                | END => if deallocator then [dt] else []
                | _ => []
                end /\
  count_calloc ev = 0%nat /\
  node_blocks (Node o ndc dt below)
  = (from_option node_blocks 0 r + count_free ev)%nat /\
  match r with
  | Some n =>
      node_ok n = true /\
      (forall b, is_byte b -> child (node_nibbles n) b = child below b) /\
      node_data n = match st with END => 0 | _ => dt end /\
      node_occupied n = match st with END => false | _ => o end
  | None => forall b, is_byte b -> child below b = None
  end.
Proof.
  intros Hok Hend Hcont. unfold unwind_node.
  cbn [node_occupied node_children node_data node_nibbles].
  pose proof (slots_ok_count _ _ _ Hok) as Hcount.
  destruct st.
  - (* END *)
    rewrite (Hend eq_refl). cbn [default].
    destruct (ndc =? 0) eqn:E; cbn [negb].
    + cbn [node_children node_occupied node_data node_nibbles]. rewrite E.
      cbn [node_children]. rewrite E. cbn [negb].
      apply Z.eqb_eq in E.
      assert (Hnull : count_nonnull below = 0) by congruence.
      rewrite (count_nonnull_zero below _ Hnull). cbn [free].
      intros [= <- <-].
      split; [|split; [|split]].
      * destruct deallocator; reflexivity.
      * destruct deallocator; reflexivity.
      * rewrite node_blocks_unfold, slots_sum_all_null by exact Hnull.
        destruct deallocator; reflexivity.
      * intros b _. apply child_all_null, Hnull.
    + intros [= <- <-].
      split; [|split; [|split; [|split; [|split; [|split]]]]];
        try (destruct deallocator; reflexivity).
      * cbn [from_option]. rewrite !node_blocks_unfold, count_free_dealloc. lia.
      * rewrite node_ok_unfold. exact Hok.
  - (* CONTINUE *)
    destruct (Hcont eq_refl) as (b' & nodes' & -> & Hb' & Hslot).
    cbn [default]. pose proof (high_nibble_range b' Hb') as Hh.
    assert (Hsome : is_Some (slot below (GNT_HIGH_NIBBLE b'))) by eauto.
    pose proof (slot_some_count_pos _ _ Hsome) as Hpos.
    pose proof (slots_ok_slot _ _ _ _ _ Hok Hslot) as Hempty.
    destruct (ndc =? 0) eqn:E; [apply Z.eqb_eq in E; lia|].
    cbn [node_children node_occupied node_data node_nibbles]. rewrite ?E.
    cbn [node_children node_occupied node_data node_nibbles].
    pose proof (slots_ok_set_none _ _ _ _ Hok Hh Hsome) as Hok'.
    pose proof (slots_sum_set_slot nibble_blocks below (GNT_HIGH_NIBBLE b') None
                  ltac:(rewrite (slots_ok_length _ _ _ Hok); lia)) as Hsum.
    rewrite Hslot in Hsum. cbn [from_option] in Hsum.
    rewrite (empty_nibble_blocks _ Hempty) in Hsum.
    unfold id. rewrite Hslot. cbn [free app].
    destruct (to_uint8 (ndc - 1) =? 0) eqn:E'; cbn [negb]; intros [= <- <-].
    + apply Z.eqb_eq in E'. rewrite E' in Hok'.
      pose proof (slots_ok_count _ _ _ Hok') as Hnull. symmetry in Hnull.
      split; [reflexivity|]. split; [reflexivity|]. split.
      * rewrite node_blocks_unfold. rewrite slots_sum_all_null in Hsum by exact Hnull.
        cbn [from_option]. rewrite !count_free_Free, count_free_nil. lia.
      * intros b Hb.
        rewrite <- (child_remove_empty _ _ _ _ _ Hok Hh Hb Hslot).
        apply child_all_null, Hnull.
    + split; [reflexivity|]. split; [reflexivity|]. split; [|split; [|split; [|split]]].
      * cbn [from_option]. rewrite !node_blocks_unfold.
        rewrite !count_free_Free, count_free_nil. lia.
      * rewrite node_ok_unfold. exact Hok'.
      * intros b Hb. apply (child_remove_empty _ _ _ _ _ Hok Hh Hb Hslot).
      * reflexivity.
      * reflexivity.
  - (* STOP *)
    intros [= <- <-].
    split; [reflexivity|]. split; [reflexivity|]. split; [|split; [|split; [|split]]].
    + cbn [from_option]. rewrite count_free_nil. lia.
    + rewrite node_ok_unfold. exact Hok.
    + intros b _. reflexivity.
    + reflexivity.
    + reflexivity.
Qed.

(** ** What a deletion does to an array *)

Lemma prune_nil deallocator nibbles :
  prune deallocator [] nibbles = Some (END, nibbles, []).
Proof. reflexivity. Qed.

Lemma prune_cons_inv deallocator byte rest nibbles st a tr :
  prune deallocator (byte :: rest) nibbles = Some (st, a, tr) ->
  exists nc nodes o ndc dt sub st' below tr' r ev,
    slot nibbles (GNT_HIGH_NIBBLE byte) = Some (Nibble nc nodes) /\
    slot nodes (GNT_LOW_NIBBLE byte) = Some (Node o ndc dt sub) /\
    prune deallocator rest sub = Some (st', below, tr') /\
    unwind_node deallocator st' (head rest) (Node o ndc dt below) = (r, ev) /\
    a = set_slot nibbles (GNT_HIGH_NIBBLE byte)
          (Some (unwind_nibble (Nibble nc nodes) (GNT_LOW_NIBBLE byte) r).1) /\
    st = (unwind_nibble (Nibble nc nodes) (GNT_LOW_NIBBLE byte) r).2 /\
    tr = tr' ++ ev.
Proof.
  cbn [prune]. intros H.
  destruct (slot nibbles (GNT_HIGH_NIBBLE byte)) as [[nc nodes]|] eqn:E1; [|discriminate].
  cbn [mbind option_bind nibble_nodes] in H.
  destruct (slot nodes (GNT_LOW_NIBBLE byte)) as [[o ndc dt sub]|] eqn:E2; [|discriminate].
  cbn [mbind option_bind node_nibbles node_occupied node_children node_data] in H.
  destruct (prune deallocator rest sub) as [[[st' below] tr']|] eqn:E3; [|discriminate].
  cbn [mbind option_bind] in H.
  destruct (unwind_node deallocator st' (head rest) (Node o ndc dt below)) as [r ev] eqn:Hu.
  destruct (unwind_nibble (Nibble nc nodes) (GNT_LOW_NIBBLE byte) r) as [nb st0] eqn:Hn.
  injection H as <- <- <-.
  exists nc, nodes, o, ndc, dt, sub, st', below, tr', r, ev.
  rewrite Hn. repeat split; try reflexivity; assumption.
Qed.

Lemma prune_spec deallocator bs :
  Forall is_byte bs ->
  forall nibbles c st a tr,
  slots_ok nibble_ok c nibbles = true ->
  prune deallocator bs nibbles = Some (st, a, tr) ->
  slots_ok nibble_ok c a = true /\
  (st = END <-> bs = []) /\
  (bs = [] -> a = nibbles /\ tr = []) /\
  (st = CONTINUE ->
   exists b nodes, head bs = Some b /\
                   slot a (GNT_HIGH_NIBBLE b) = Some (Nibble 0 nodes)) /\
  (bs <> [] ->
   deallocs tr =
   if deallocator then [from_option node_data 0 (terminal nibbles bs)] else []) /\
  count_calloc tr = 0%nat /\
  slots_sum nibble_blocks nibbles
  = (slots_sum nibble_blocks a + count_free tr)%nat /\
  from_option node_data 0 (terminal a bs) = 0 /\
  (forall bs0, Forall is_byte bs0 -> bs0 <> [] -> ~ bs0 `prefix_of` bs ->
               terminal a bs0 = terminal nibbles bs0).
Proof.
  induction 1 as [|byte rest Hbyte Hrest IH]; intros nibbles c st a tr Hok Hp.
  - rewrite prune_nil in Hp. injection Hp as <- <- <-.
    split; [exact Hok|]. split; [tauto|]. split; [auto|].
    split; [discriminate|]. split; [congruence|]. split; [reflexivity|].
    split; [rewrite count_free_nil; lia|]. split; [reflexivity|]. reflexivity.
  - apply prune_cons_inv in Hp
      as (nc & nodes & o & ndc & dt & sub & st' & below & tr' & r & ev &
          Hnb & Hnd & Hsub & Hu & -> & -> & ->).
    pose proof (high_nibble_range byte Hbyte) as Hh.
    pose proof (low_nibble_range byte) as Hl.
    pose proof (slots_ok_slot _ _ _ _ _ Hok Hnb) as Hnbok.
    rewrite nibble_ok_unfold in Hnbok.
    pose proof (slots_ok_slot _ _ _ _ _ Hnbok Hnd) as Hndok.
    rewrite node_ok_unfold in Hndok.
    destruct (IH _ _ _ _ _ Hndok Hsub)
      as (Hbelow & Hend & Hnil & Hcont & Hdealloc & Hcalloc & Hblocks & Hsame & Hother).
    assert (Hw_end : st' = END -> head rest = None).
    { intros E. apply Hend in E. subst rest. reflexivity. }
    assert (Hw_cont : st' = CONTINUE ->
              exists b nodes', head rest = Some b /\ is_byte b /\
                               slot below (GNT_HIGH_NIBBLE b) = Some (Nibble 0 nodes')).
    { intros E. destruct (Hcont E) as (b & nodes' & Hb & Hs).
      exists b, nodes'. split; [exact Hb|]. split; [|exact Hs].
      destruct rest as [|b0 rest0]; [discriminate|]. injection Hb as ->.
      apply Forall_cons in Hrest as [Hb0 _]. exact Hb0. }
    destruct (unwind_node_spec _ _ _ _ _ _ _ _ _ Hbelow Hw_end Hw_cont Hu)
      as (Hud & Huc & Hub & Hur).
    pose proof (slots_ok_length _ _ _ Hnbok) as Hlen_nodes.
    (* the nibble layer after the unwinding *)
    assert (Hchild_old : child nibbles byte = Some (Node o ndc dt sub)).
    { unfold child. rewrite Hnb. exact Hnd. }
    assert (Hnibble_ok :
              nibble_ok (unwind_nibble (Nibble nc nodes) (GNT_LOW_NIBBLE byte) r).1 = true).
    { destruct r as [n|]; cbn [unwind_nibble fst nibble_children nibble_nodes];
        rewrite nibble_ok_unfold.
      - apply slots_ok_replace; [exact Hnbok|exact Hl|eauto|apply Hur].
      - apply slots_ok_set_none; [exact Hnbok|exact Hl|eauto]. }
    assert (Hchild_new :
              child (set_slot nibbles (GNT_HIGH_NIBBLE byte)
                       (Some (unwind_nibble (Nibble nc nodes) (GNT_LOW_NIBBLE byte) r).1))
                byte = r).
    { destruct r as [n|]; cbn [unwind_nibble fst nibble_children nibble_nodes];
        apply (child_set_slot_eq c); assumption. }
    assert (Hchild_ne : forall b', is_byte b' -> byte <> b' ->
              child (set_slot nibbles (GNT_HIGH_NIBBLE byte)
                       (Some (unwind_nibble (Nibble nc nodes) (GNT_LOW_NIBBLE byte) r).1))
                b' = child nibbles b').
    { intros b' Hb' Hne.
      destruct r as [n|]; cbn [unwind_nibble fst nibble_children nibble_nodes];
        apply (child_set_slot_ne c _ _ _ nc); assumption. }
    split; [apply slots_ok_replace; [exact Hok|exact Hh|eauto|exact Hnibble_ok]|].
    split.
    { split; [|discriminate]. intros E.
      destruct r as [n|]; cbn [unwind_nibble snd] in E; [discriminate E|].
      destruct (negb _); discriminate E. }
    split; [discriminate|].
    split.
    { intros Hst. exists byte.
      destruct r as [n|]; cbn [unwind_nibble snd nibble_children] in Hst;
        [discriminate Hst|].
      cbn [unwind_nibble fst nibble_children nibble_nodes].
      destruct (to_uint8 (nc - 1) =? 0) eqn:E; [|simpl in Hst; discriminate Hst].
      apply Z.eqb_eq in E. rewrite E. eexists. split; [reflexivity|].
      apply slot_set_slot_eq. rewrite (slots_ok_length _ _ _ Hok). lia. }
    split.
    { intros _. rewrite deallocs_app, Hud.
      cbn [terminal]. rewrite Hchild_old. cbn [mbind option_bind].
      destruct rest as [|b0 rest0].
      - rewrite prune_nil in Hsub. injection Hsub as <- <- <-.
        destruct deallocator; reflexivity.
      - rewrite Hdealloc by discriminate.
        assert (st' <> END) by (intros E; apply Hend in E; discriminate).
        rewrite descend_terminal by discriminate.
        destruct st'; [congruence| |]; rewrite app_nil_r; reflexivity. }
    split; [rewrite count_calloc_app, Hcalloc, Huc; reflexivity|].
    split.
    { rewrite count_free_app.
      pose proof (slots_sum_set_slot nibble_blocks nibbles (GNT_HIGH_NIBBLE byte)
                    (Some (unwind_nibble (Nibble nc nodes) (GNT_LOW_NIBBLE byte) r).1)
                    ltac:(rewrite (slots_ok_length _ _ _ Hok); lia)) as Hs1.
      rewrite Hnb in Hs1. cbn [from_option] in Hs1.
      pose proof (slots_sum_set_slot node_blocks nodes (GNT_LOW_NIBBLE byte) r
                    ltac:(lia)) as Hs2.
      rewrite Hnd in Hs2. cbn [from_option] in Hs2.
      rewrite !node_blocks_unfold in *. rewrite nibble_blocks_unfold in Hs1.
      assert (nibble_blocks (unwind_nibble (Nibble nc nodes) (GNT_LOW_NIBBLE byte) r).1
              = S (slots_sum node_blocks (set_slot nodes (GNT_LOW_NIBBLE byte) r)))
        as Hnb'.
      { destruct r; reflexivity. }
      rewrite Hnb' in Hs1. lia. }
    split.
    { cbn [terminal]. rewrite Hchild_new.
      destruct r as [n|]; [|reflexivity]. cbn [mbind option_bind].
      destruct Hur as (_ & Hchild & Hdata & _).
      destruct rest as [|b0 rest0].
      - rewrite prune_nil in Hsub. injection Hsub as <- <- <-.
        cbn [descend from_option]. exact Hdata.
      - destruct n as [o' c' d' nibs]. rewrite descend_terminal by discriminate.
        rewrite (terminal_child_ext nibs below) by assumption. exact Hsame. }
    intros bs0 Hbs0 Hne0 Hpre.
    destruct Hbs0 as [|b0 r0 Hb0 Hr0]; [congruence|].
    cbn [terminal].
    destruct (Z.eq_dec byte b0) as [<-|Hdiff]; [|rewrite Hchild_ne by assumption; reflexivity].
    rewrite Hchild_new, Hchild_old.
    assert (Hpre' : ~ r0 `prefix_of` rest).
    { intros Hp. apply Hpre. apply prefix_cons. exact Hp. }
    assert (Hr0ne : r0 <> []).
    { intros ->. apply Hpre'. apply prefix_nil. }
    cbn [mbind option_bind]. rewrite (descend_terminal r0) by exact Hr0ne.
    rewrite <- (Hother r0 Hr0 Hr0ne Hpre').
    destruct r as [[o' c' d' nibs]|]; cbn [mbind option_bind].
    + rewrite descend_terminal by exact Hr0ne.
      apply terminal_child_ext; [exact Hr0|]. apply Hur.
    + symmetry. apply terminal_no_child; [exact Hr0|exact Hur].
Qed.

(** ** [gnt_delete] as a function of the byte sequence *)

Lemma gnt_delete_eq fuel t key b bs :
  gnt_mutex t = false ->
  read_key fuel (gnt_accessor t) key 0 = Some (b :: bs) ->
  gnt_delete fuel (Some t) key =
  match prune (gnt_deallocator t) (b :: bs) (gnt_nibbles t) with
  | Some (status, nibbles, tr) =>
      Ok (0, Some (prune_root t b status nibbles).1)
         (tr ++ (prune_root t b status nibbles).2)
  | None => Fault NullDeref
  end.
Proof.
  intros Hm Hread. unfold gnt_delete, gnt_mtx_lock. rewrite Hm, bind_ret.
  cbn [gnt_nibbles gnt_accessor gnt_deallocator gnt_children gnt_mutex].
  rewrite (_gnt_delete_recursive_prune _ _ _ _ _ _ _ Hread).
  destruct (prune (gnt_deallocator t) (b :: bs) (gnt_nibbles t))
    as [[[st nibbles] tr]|]; [|reflexivity].
  rewrite bind_Ok. cbn [head]. unfold prune_root, gnt_mtx_unlock.
  destruct st; monad_simpl; rewrite ?app_nil_r; try reflexivity.
  destruct (gnt_children t =? 0); monad_simpl; rewrite ?app_nil_r; reflexivity.
Qed.

Lemma prune_None deallocator bs : forall nibbles,
  prune deallocator bs nibbles = None <-> bs <> [] /\ terminal nibbles bs = None.
Proof.
  induction bs as [|b rest IH]; intros nibbles.
  - rewrite prune_nil. split; [discriminate|]. intros [H _]. congruence.
  - cbn [prune terminal]. unfold child.
    destruct (slot nibbles (GNT_HIGH_NIBBLE b)) as [[nc nodes]|];
      cbn [mbind option_bind nibble_nodes]; [|split; [split; [discriminate|reflexivity]|reflexivity]].
    destruct (slot nodes (GNT_LOW_NIBBLE b)) as [[o ndc dt sub]|];
      cbn [mbind option_bind node_nibbles];
      [|split; [split; [discriminate|reflexivity]|reflexivity]].
    destruct (prune deallocator rest sub) as [[[st below] tr]|] eqn:E;
      cbn [mbind option_bind].
    + destruct (unwind_node _ _ _ _) as [r ev].
      destruct (unwind_nibble _ _ _) as [nb st0].
      split; [discriminate|]. intros [_ H].
      destruct rest as [|b0 rest0]; [discriminate H|].
      rewrite descend_terminal in H by discriminate.
      assert (prune deallocator (b0 :: rest0) sub = None) as E'
        by (apply IH; split; [discriminate|exact H]).
      congruence.
    + apply IH in E as [Hne E]. split; [|reflexivity]. intros _.
      split; [discriminate|]. rewrite descend_terminal by exact Hne. exact E.
Qed.

Lemma prune_root_spec t b st a :
  gnt_ok t = true -> is_byte b ->
  slots_ok nibble_ok (gnt_children t) a = true ->
  (st = CONTINUE -> exists nodes, slot a (GNT_HIGH_NIBBLE b) = Some (Nibble 0 nodes)) ->
  gnt_ok (prune_root t b st a).1 = true /\
  gnt_accessor (prune_root t b st a).1 = gnt_accessor t /\
  gnt_deallocator (prune_root t b st a).1 = gnt_deallocator t /\
  (forall bs0, Forall is_byte bs0 ->
               terminal (gnt_nibbles (prune_root t b st a).1) bs0 = terminal a bs0) /\
  deallocs (prune_root t b st a).2 = [] /\
  count_calloc (prune_root t b st a).2 = 0%nat /\
  slots_sum nibble_blocks a
  = (gnt_blocks (prune_root t b st a).1 + count_free (prune_root t b st a).2)%nat.
Proof.
  intros Hok Hb Ha Hcont.
  assert (Hplain : gnt_ok (GntTrie false (gnt_children t) a (gnt_accessor t)
                             (gnt_deallocator t)) = true).
  { apply gnt_ok_iff. split; [reflexivity|]. exact Ha. }
  unfold prune_root. destruct st;
    try (cbn [fst snd]; repeat split; try reflexivity; try exact Hplain;
         unfold gnt_blocks; cbn [gnt_nibbles]; rewrite count_free_nil; lia).
  destruct (Hcont eq_refl) as [nodes Hslot].
  pose proof (high_nibble_range b Hb) as Hh.
  assert (Hsome : is_Some (slot a (GNT_HIGH_NIBBLE b))) by eauto.
  pose proof (slot_some_count_pos _ _ Hsome) as Hpos.
  pose proof (slots_ok_count _ _ _ Ha) as Hcount.
  destruct (gnt_children t =? 0) eqn:E; [apply Z.eqb_eq in E; lia|].
  cbn [fst snd gnt_accessor gnt_deallocator gnt_nibbles]. rewrite Hslot. cbn [free].
  split.
  { apply gnt_ok_iff. split; [reflexivity|]. unfold root_node.
    rewrite node_ok_unfold. cbn [gnt_children gnt_nibbles].
    apply slots_ok_set_none; assumption. }
  split; [reflexivity|]. split; [reflexivity|]. split.
  { intros bs0 Hbs0. apply terminal_child_ext; [exact Hbs0|].
    intros b0 Hb0. apply (child_remove_empty _ _ _ _ _ Ha Hh Hb0 Hslot). }
  split; [reflexivity|]. split; [reflexivity|].
  pose proof (slots_sum_set_slot nibble_blocks a (GNT_HIGH_NIBBLE b) None
                ltac:(rewrite (slots_ok_length _ _ _ Ha); lia)) as Hsum.
  rewrite Hslot in Hsum. cbn [from_option] in Hsum.
  rewrite (empty_nibble_blocks nodes) in Hsum
    by (apply (slots_ok_slot _ _ _ _ _ Ha Hslot)).
  unfold gnt_blocks. cbn [gnt_nibbles]. rewrite count_free_Free, count_free_nil. lia.
Qed.

(** What a returning [gnt_delete] does, for a well-formed trie and a key of
    at least one byte whose path is there. *)
Lemma gnt_delete_spec fuel t key b bs :
  gnt_ok t = true ->
  read_key fuel (gnt_accessor t) key 0 = Some (b :: bs) ->
  is_Some (terminal (gnt_nibbles t) (b :: bs)) ->
  exists t' tr,
    gnt_delete fuel (Some t) key = Ok (0, Some t') tr /\
    gnt_ok t' = true /\
    gnt_accessor t' = gnt_accessor t /\
    gnt_deallocator t' = gnt_deallocator t /\
    payload_at t' (b :: bs) = 0 /\
    (forall bs0, Forall is_byte bs0 -> bs0 <> [] -> ~ bs0 `prefix_of` (b :: bs) ->
                 terminal (gnt_nibbles t') bs0 = terminal (gnt_nibbles t) bs0) /\
    deallocs tr = (if gnt_deallocator t then [payload_at t (b :: bs)] else []) /\
    count_calloc tr = 0%nat /\
    gnt_blocks t = (gnt_blocks t' + count_free tr)%nat.
Proof.
  intros Hok Hread [n Hterm].
  pose proof (gnt_ok_mutex _ Hok) as Hm.
  pose proof (read_key_bytes _ _ _ _ _ Hread) as Hbytes.
  assert (Hb : is_byte b) by (apply Forall_cons in Hbytes as [H _]; exact H).
  rewrite (gnt_delete_eq _ _ _ _ _ Hm Hread).
  destruct (prune (gnt_deallocator t) (b :: bs) (gnt_nibbles t))
    as [[[st a] tr]|] eqn:Hp.
  2:{ apply prune_None in Hp as [_ Hp]. congruence. }
  assert (Hroot : slots_ok nibble_ok (gnt_children t) (gnt_nibbles t) = true).
  { apply gnt_ok_iff in Hok as [_ H]. exact H. }
  destruct (prune_spec _ _ Hbytes _ _ _ _ _ Hroot Hp)
    as (Ha & _ & _ & Hcont & Hdealloc & Hcalloc & Hblocks & Hsame & Hother).
  assert (Hcont' : st = CONTINUE ->
            exists nodes, slot a (GNT_HIGH_NIBBLE b) = Some (Nibble 0 nodes)).
  { intros E. destruct (Hcont E) as (b0 & nodes & [= <-] & Hs). eauto. }
  destruct (prune_root_spec t b st a Hok Hb Ha Hcont')
    as (Hok' & Hacc & Hde & Hterm' & Hd' & Hc' & Hb').
  eexists _, _. split; [reflexivity|].
  split; [exact Hok'|]. split; [exact Hacc|]. split; [exact Hde|].
  split; [unfold payload_at; rewrite (Hterm' _ Hbytes); exact Hsame|].
  split; [intros bs0 H0 H1 H2; rewrite (Hterm' _ H0); apply Hother; assumption|].
  split; [rewrite deallocs_app, Hd', app_nil_r; apply Hdealloc; discriminate|].
  split; [rewrite count_calloc_app, Hcalloc, Hc'; reflexivity|].
  rewrite count_free_app. unfold gnt_blocks at 1. lia.
Qed.

(** X1: [_gnt_delete_recursive] follows the path of the key without testing
    the pointers on it. For a key of at least one byte, [gnt_delete] returns
    0 when every slot on the path of the key is there, and dereferences NULL
    when one is missing. *)
Theorem gnt_delete_returns_iff_path fuel t key b bs :
  gnt_mutex t = false ->
  read_key fuel (gnt_accessor t) key 0 = Some (b :: bs) ->
  (terminal (gnt_nibbles t) (b :: bs) = None ->
   gnt_delete fuel (Some t) key = Fault NullDeref) /\
  (is_Some (terminal (gnt_nibbles t) (b :: bs)) ->
   exists t' tr, gnt_delete fuel (Some t) key = Ok (0, Some t') tr).
Proof.
  intros Hm Hread. rewrite (gnt_delete_eq _ _ _ _ _ Hm Hread). split.
  - intros Hnone.
    assert (prune (gnt_deallocator t) (b :: bs) (gnt_nibbles t) = None) as ->
      by (apply prune_None; split; [discriminate|exact Hnone]).
    reflexivity.
  - intros [n Hn].
    destruct (prune (gnt_deallocator t) (b :: bs) (gnt_nibbles t))
      as [[[st a] tr]|] eqn:Hp; [eauto|].
    apply prune_None in Hp as [_ Hp]. congruence.
Qed.

Lemma gnt_delete_returns_iff_path_witness :
  gnt_delete 8 (Some example_trie) 3 = Fault NullDeref /\
  exists t' tr, gnt_delete 8 (Some example_trie) 2 = Ok (0, Some t') tr.
Proof.
  split.
  - apply (gnt_delete_returns_iff_path 8 example_trie 3 97 [98; 99]);
      vm_compute; reflexivity.
  - apply (gnt_delete_returns_iff_path 8 example_trie 2 97 [98]);
      [vm_compute; reflexivity..|].
    vm_compute. eauto.
Defined.

(** X2: after a deletion that returns, a search for the deleted key returns
    0, whether the terminal node was freed or only cleared. *)
Theorem gnt_search_after_delete fuel t key b bs :
  gnt_ok t = true ->
  read_key fuel (gnt_accessor t) key 0 = Some (b :: bs) ->
  is_Some (terminal (gnt_nibbles t) (b :: bs)) ->
  exists t' tr,
    gnt_delete fuel (Some t) key = Ok (0, Some t') tr /\
    gnt_search fuel (Some t') key = Ok (0, Some t') [].
Proof.
  intros Hok Hread Hterm.
  destruct (gnt_delete_spec _ _ _ _ _ Hok Hread Hterm)
    as (t' & tr & Hdel & Hok' & Hacc & _ & Hpay & _).
  exists t', tr. split; [exact Hdel|].
  rewrite (gnt_search_payload fuel t' key b bs (gnt_ok_mutex _ Hok'))
    by (rewrite Hacc; exact Hread).
  rewrite Hpay. reflexivity.
Qed.

Lemma gnt_search_after_delete_witness :
  exists t' tr,
    gnt_delete 8 (Some example_trie) 2 = Ok (0, Some t') tr /\
    gnt_search 8 (Some t') 2 = Ok (0, Some t') [].
Proof.
  apply (gnt_search_after_delete 8 example_trie 2 97 [98]).
  - vm_compute. reflexivity.
  - vm_compute. reflexivity.
  - vm_compute. eauto.
Defined.

(** X3: a deletion that returns leaves the result of a search as it was for
    every key whose byte sequence is not a prefix of the byte sequence of
    the deleted key (the deleted key itself is such a prefix). *)
Theorem gnt_delete_keeps_other_keys fuel t key key' b bs b' bs' :
  gnt_ok t = true ->
  read_key fuel (gnt_accessor t) key 0 = Some (b :: bs) ->
  read_key fuel (gnt_accessor t) key' 0 = Some (b' :: bs') ->
  is_Some (terminal (gnt_nibbles t) (b :: bs)) ->
  ~ (b' :: bs') `prefix_of` (b :: bs) ->
  exists t' tr v,
    gnt_delete fuel (Some t) key = Ok (0, Some t') tr /\
    gnt_search fuel (Some t) key' = Ok (v, Some t) [] /\
    gnt_search fuel (Some t') key' = Ok (v, Some t') [].
Proof.
  intros Hok Hread Hread' Hterm Hpre.
  destruct (gnt_delete_spec _ _ _ _ _ Hok Hread Hterm)
    as (t' & tr & Hdel & Hok' & Hacc & _ & _ & Hother & _).
  exists t', tr, (payload_at t (b' :: bs')). split; [exact Hdel|].
  split; [apply gnt_search_payload; [apply gnt_ok_mutex, Hok|exact Hread']|].
  rewrite (gnt_search_payload fuel t' key' b' bs' (gnt_ok_mutex _ Hok'))
    by (rewrite Hacc; exact Hread').
  unfold payload_at. rewrite Hother;
    [reflexivity|eapply read_key_bytes; exact Hread'|discriminate|exact Hpre].
Qed.

Lemma gnt_delete_keeps_other_keys_witness :
  exists t' tr,
    gnt_delete 8 (Some (trie_after 8 (Some example_cfg)
                          [Insert 1 11; Insert 2 22; Insert 3 33])) 2
    = Ok (0, Some t') tr /\
    gnt_search 8 (Some t') 3 = Ok (33, Some t') [].
Proof.
  destruct (gnt_delete_keeps_other_keys 8
              (trie_after 8 (Some example_cfg) [Insert 1 11; Insert 2 22; Insert 3 33])
              2 3 97 [98] 97 [98; 99])
    as (t' & tr & v & Hdel & Hbefore & Hafter).
  - vm_compute. reflexivity.
  - vm_compute. reflexivity.
  - vm_compute. reflexivity.
  - vm_compute. eauto.
  - intros [k Hk]. discriminate Hk.
  - exists t', tr. split; [exact Hdel|].
    assert (v = 33) as <-; [|exact Hafter].
    vm_compute in Hbefore. congruence.
Defined.

(** X4: a deletion that returns calls the deallocator, when one is
    configured, exactly once, on the payload field of the terminal node of
    the key, whether that node is occupied or not; it allocates nothing. *)
Theorem gnt_delete_deallocates_terminal_payload fuel t key b bs :
  gnt_ok t = true ->
  read_key fuel (gnt_accessor t) key 0 = Some (b :: bs) ->
  is_Some (terminal (gnt_nibbles t) (b :: bs)) ->
  exists t' tr,
    gnt_delete fuel (Some t) key = Ok (0, Some t') tr /\
    deallocs tr = (if gnt_deallocator t then [payload_at t (b :: bs)] else []) /\
    count_calloc tr = 0%nat.
Proof.
  intros Hok Hread Hterm.
  destruct (gnt_delete_spec _ _ _ _ _ Hok Hread Hterm)
    as (t' & tr & Hdel & _ & _ & _ & _ & _ & Hd & Hc & _).
  exists t', tr. auto.
Qed.

Lemma gnt_delete_deallocates_terminal_payload_witness :
  exists t' tr,
    gnt_delete 8 (Some example_trie) 1 = Ok (0, Some t') tr /\
    deallocs tr = [11] /\ count_calloc tr = 0%nat.
Proof.
  destruct (gnt_delete_deallocates_terminal_payload 8 example_trie 1 97 [])
    as (t' & tr & Hdel & Hd & Hc).
  - vm_compute. reflexivity.
  - vm_compute. reflexivity.
  - vm_compute. eauto.
  - exists t', tr. split; [exact Hdel|]. split; [|exact Hc].
    rewrite Hd. vm_compute. reflexivity.
Defined.

(** ** Blocks allocated and freed *)

Lemma count_calloc_body_events nibbles byte :
  count_calloc (body_events nibbles byte)
  = ((match slot nibbles (GNT_HIGH_NIBBLE byte) with Some _ => 0 | None => 1 end)
     + (match child nibbles byte with Some _ => 0 | None => 1 end))%nat.
Proof.
  unfold body_events.
  destruct (slot nibbles (GNT_HIGH_NIBBLE byte)), (child nibbles byte); reflexivity.
Qed.

Lemma count_free_body_events nibbles byte : count_free (body_events nibbles byte) = 0%nat.
Proof.
  unfold body_events.
  destruct (slot nibbles (GNT_HIGH_NIBBLE byte)), (child nibbles byte); reflexivity.
Qed.

Lemma put_body_blocks c nibbles byte node' :
  slots_ok nibble_ok c nibbles = true -> is_byte byte ->
  (slots_sum nibble_blocks (put_body nibbles c byte node').1
   + node_blocks (next_node nibbles byte)
   = slots_sum nibble_blocks nibbles + node_blocks node'
     + count_calloc (body_events nibbles byte))%nat.
Proof.
  intros Hok Hb. rewrite count_calloc_body_events.
  unfold put_body, next_node, child. cbn [fst].
  pose proof (high_nibble_range byte Hb) as Hh.
  pose proof (low_nibble_range byte) as Hl.
  pose proof (slots_sum_set_slot nibble_blocks nibbles (GNT_HIGH_NIBBLE byte)) as Hs1.
  destruct (slot nibbles (GNT_HIGH_NIBBLE byte)) as [[nc nodes]|] eqn:E1;
    cbn [default mbind option_bind from_option]; unfold id;
    cbn [nibble_nodes nibble_children calloc_nibble].
  - pose proof (slots_ok_slot _ _ _ _ _ Hok E1) as Hnb. rewrite nibble_ok_unfold in Hnb.
    pose proof (slots_sum_set_slot node_blocks nodes (GNT_LOW_NIBBLE byte)
                  (Some node') ltac:(rewrite (slots_ok_length _ _ _ Hnb); lia)) as Hs2.
    match goal with
    | |- context [set_slot nibbles _ (Some ?nb)] =>
        specialize (Hs1 (Some nb) ltac:(rewrite (slots_ok_length _ _ _ Hok); lia))
    end.
    cbn [from_option] in Hs1, Hs2. rewrite !nibble_blocks_unfold in Hs1.
    destruct (slot nodes (GNT_LOW_NIBBLE byte)) as [n|];
      cbn [from_option default] in *; unfold id; [lia|].
    change (node_blocks calloc_node) with 1%nat. lia.
  - rewrite slot_null_array. cbn [default from_option].
    pose proof (slots_sum_set_slot node_blocks (@null_array gnt_node_t)
                  (GNT_LOW_NIBBLE byte) (Some node') ltac:(simpl; lia)) as Hs2.
    rewrite slot_null_array in Hs2.
    match goal with
    | |- context [set_slot nibbles _ (Some ?nb)] =>
        specialize (Hs1 (Some nb) ltac:(rewrite (slots_ok_length _ _ _ Hok); lia))
    end.
    cbn [from_option] in Hs1, Hs2. rewrite nibble_blocks_unfold in Hs1.
    change (slots_sum node_blocks null_array) with 0%nat in Hs2.
    change (node_blocks calloc_node) with 1%nat. lia.
Qed.

Lemma put_blocks deallocator data bs node :
  node_ok node = true -> Forall is_byte bs ->
  node_blocks (put data bs node)
  = (node_blocks node + count_calloc (put_events deallocator bs node))%nat /\
  count_free (put_events deallocator bs node) = 0%nat.
Proof.
  intros Hn Hbs. revert node Hn.
  induction Hbs as [|b bs Hb Hbs IH]; intros [o c d nibbles] Hn.
  - cbn [put put_events node_occupied node_data node_children node_nibbles].
    rewrite !node_blocks_unfold.
    split; destruct (o && deallocator);
      first [reflexivity | change (count_calloc _) with 0%nat; lia].
  - rewrite node_ok_unfold in Hn. rewrite put_cons.
    cbn [put_events node_occupied node_data node_children node_nibbles].
    destruct (IH (next_node nibbles b) (next_node_ok _ _ _ Hn)) as [IHb IHf].
    pose proof (put_body_blocks c nibbles b (put data bs (next_node nibbles b)) Hn Hb)
      as Hbody.
    rewrite !node_blocks_unfold, count_calloc_app, count_free_app,
      count_free_body_events, IHf.
    split; lia.
Qed.

(** What an insertion does to the number of blocks. *)
Lemma gnt_insert_blocks fuel t key data b bs :
  gnt_ok t = true ->
  call_accessor (gnt_accessor t) key 0 = Some b ->
  read_key fuel (gnt_accessor t) key 1 = Some bs ->
  exists t' tr,
    gnt_insert fuel (Some t) key data = Ok (0, Some t') tr /\
    gnt_blocks t' = (gnt_blocks t + count_calloc tr)%nat /\
    count_free tr = 0%nat.
Proof.
  intros Hok Hb Hbs. pose proof (gnt_ok_mutex _ Hok) as Hm.
  apply gnt_ok_iff in Hok as [_ Hroot].
  eexists _, _. split; [apply gnt_insert_eq'; eassumption|].
  assert (Hbytes : Forall is_byte (b :: bs)).
  { constructor; [eapply call_accessor_is_byte; exact Hb|].
    eapply read_key_bytes. exact Hbs. }
  destruct (put_blocks (gnt_deallocator t) data (b :: bs) (root_node t) Hroot Hbytes)
    as [Hblocks Hfree].
  split; [|exact Hfree].
  unfold gnt_blocks, with_root. cbn [gnt_nibbles].
  destruct (put data (b :: bs) (root_node t)) as [o c d nibbles] eqn:E.
  unfold root_node in Hblocks. rewrite !node_blocks_unfold in Hblocks.
  cbn [node_nibbles]. unfold root_node in *. lia.
Qed.

Lemma _gnt_delete_recursive_Ok_inv fuel : forall nibbles key index accessor deallocator r tr,
  _gnt_delete_recursive fuel nibbles key index accessor deallocator = Ok r tr ->
  exists bs, read_key fuel accessor key index = Some bs.
Proof.
  induction fuel as [|fuel IH]; intros nibbles key index accessor deallocator r tr H;
    [discriminate|].
  cbn [_gnt_delete_recursive read_key] in *.
  destruct (call_accessor accessor key index) as [byte|]; [|eauto].
  apply bind_Ok_inv in H as (nb & tr1 & tr2 & _ & H & _).
  apply bind_Ok_inv in H as (nd & tr3 & tr4 & _ & H & _).
  apply bind_Ok_inv in H as (r' & tr5 & tr6 & H & _ & _).
  apply IH in H as [bs ->]. simpl. eauto.
Qed.

Lemma gnt_delete_empty_key fuel t key :
  gnt_mutex t = false ->
  read_key fuel (gnt_accessor t) key 0 = Some [] ->
  gnt_delete fuel (Some t) key = Ok (0, Some t) [].
Proof.
  intros Hm Hread. unfold gnt_delete, gnt_mtx_lock. rewrite Hm, bind_ret.
  cbn [gnt_nibbles gnt_accessor gnt_deallocator gnt_children gnt_mutex].
  rewrite (_gnt_delete_recursive_prune _ _ _ _ _ _ _ Hread).
  rewrite prune_nil, bind_Ok. monad_simpl.
  unfold gnt_mtx_unlock. destruct t; simpl in *; subst; reflexivity.
Qed.

(** One operation that returns, on a well-formed trie: the blocks of the
    trie change by the blocks allocated and freed. *)
Lemma gnt_step_blocks fuel t op v trie tr :
  gnt_ok t = true ->
  gnt_step fuel (Some t) op = Ok (v, trie) tr ->
  exists t', trie = Some t' /\ gnt_ok t' = true /\
             (gnt_blocks t + count_calloc tr = gnt_blocks t' + count_free tr)%nat.
Proof.
  intros Hok H. pose proof (gnt_ok_mutex _ Hok) as Hm.
  destruct op as [key data|key|key]; cbn [gnt_step] in H.
  - assert (exists b bs, call_accessor (gnt_accessor t) key 0 = Some b /\
                         read_key fuel (gnt_accessor t) key 1 = Some bs)
      as (b & bs & Hb & Hbs).
    { unfold gnt_insert, gnt_mtx_lock in H. rewrite Hm, bind_ret in H. simpl in H.
      destruct (call_accessor (gnt_accessor t) key 0) as [b|]; [|discriminate].
      apply bind_Ok_inv in H as (r1 & tr1 & tr2 & H & _).
      apply gnt_insert_body_Ok_inv in H as (node' & tr' & H).
      apply gnt_insert_loop_Ok_inv in H as [bs Hbs]. eauto. }
    destruct (gnt_insert_ok _ _ _ _ _ _ _ Hok H) as (t' & -> & Hok').
    destruct (gnt_insert_blocks fuel t key data b bs Hok Hb Hbs)
      as (t'' & tr'' & Hins & Hblocks & Hfree).
    rewrite Hins in H. injection H as _ <- <-.
    exists t''. split; [reflexivity|]. split; [exact Hok'|]. lia.
  - apply gnt_search_state in H as [-> ->]; [|exact Hm].
    exists t. split; [reflexivity|]. split; [exact Hok|]. reflexivity.
  - assert (exists bs, read_key fuel (gnt_accessor t) key 0 = Some bs) as [bs Hread].
    { unfold gnt_delete, gnt_mtx_lock in H. rewrite Hm, bind_ret in H.
      apply bind_Ok_inv in H as (r & tr1 & tr2 & H & _).
      apply _gnt_delete_recursive_Ok_inv in H. exact H. }
    destruct bs as [|b bs].
    + rewrite (gnt_delete_empty_key _ _ _ Hm Hread) in H. injection H as _ <- <-.
      exists t. split; [reflexivity|]. split; [exact Hok|]. reflexivity.
    + destruct (terminal (gnt_nibbles t) (b :: bs)) as [n|] eqn:Hterm.
      * destruct (gnt_delete_spec _ _ _ _ _ Hok Hread ltac:(eauto))
          as (t' & tr' & Hdel & Hok' & _ & _ & _ & _ & _ & Hc & Hblocks).
        rewrite Hdel in H. injection H as _ <- <-.
        exists t'. split; [reflexivity|]. split; [exact Hok'|]. lia.
      * rewrite (gnt_delete_eq _ _ _ _ _ Hm Hread) in H.
        destruct (prune_None (gnt_deallocator t) (b :: bs) (gnt_nibbles t)) as [_ Hnone].
        rewrite Hnone in H; [discriminate H|]. split; [discriminate|exact Hterm].
Qed.

Lemma gnt_run_blocks fuel ops : forall t vs trie tr,
  gnt_ok t = true ->
  gnt_run fuel (Some t) ops = Ok (vs, trie) tr ->
  exists t', trie = Some t' /\ gnt_ok t' = true /\
             (gnt_blocks t + count_calloc tr = gnt_blocks t' + count_free tr)%nat.
Proof.
  induction ops as [|op ops IH]; intros t vs trie tr Hok H; cbn [gnt_run] in H.
  - injection H as <- <- <-. exists t. split; [reflexivity|]. split; [exact Hok|].
    reflexivity.
  - apply bind_Ok_inv in H as ([v trie1] & tr1 & tr2 & Hstep & H & ->).
    destruct (gnt_step_blocks _ _ _ _ _ _ Hok Hstep) as (t1 & -> & Hok1 & Hb1).
    apply bind_Ok_inv in H as ([vs' trie2] & tr3 & tr4 & Hrun & H & ->).
    destruct (IH _ _ _ _ Hok1 Hrun) as (t2 & -> & Hok2 & Hb2).
    monad_simpl. injection H as <- <- <-.
    exists t2. split; [reflexivity|]. split; [exact Hok2|].
    rewrite !count_calloc_app, !count_free_app.
    change (count_calloc []) with 0%nat. change (count_free []) with 0%nat. lia.
Qed.

(** ** Destruction *)

Section Measure.
Context (mu : list event -> nat).
Hypothesis mu_nil : mu [] = 0%nat.
Hypothesis mu_app : forall tr1 tr2, mu (tr1 ++ tr2) = (mu tr1 + mu tr2)%nat.

Lemma mu_concat {A} (f : A -> list event) (m : A -> nat) (slots : list (option A)) :
  (forall x, In (Some x) slots -> mu (f x) = m x) ->
  mu (concat (map (from_option f []) slots)) = slots_sum m slots.
Proof.
  unfold slots_sum. induction slots as [|[x|] slots IH]; intros H; simpl.
  - exact mu_nil.
  - rewrite mu_app, IH, (H x); [reflexivity|left; reflexivity|].
    intros y Hy. apply H. right. exact Hy.
  - rewrite IH; [reflexivity|]. intros y Hy. apply H. right. exact Hy.
Qed.
End Measure.

Lemma count_nonnull_zero_concat {A} (f : A -> list event) (slots : list (option A)) :
  count_nonnull slots = 0 -> concat (map (from_option f []) slots) = [].
Proof.
  induction slots as [|[x|] slots IH]; simpl; intros H.
  - reflexivity.
  - pose proof (count_nonnull_bounds slots). lia.
  - apply IH. exact H.
Qed.

(** With an exact counter the loops of lines 270-280 and 284-299 visit
    every non-NULL slot. *)
Lemma destroy_slots_all {A} (f : A -> list event) (slots : list (option A)) :
  (length slots <= 255)%nat ->
  destroy_slots f slots (count_nonnull slots) = concat (map (from_option f []) slots).
Proof.
  induction slots as [|p slots IH]; intros Hlen; [reflexivity|].
  cbn [destroy_slots]. simpl in Hlen.
  destruct (count_nonnull (p :: slots) =? 0) eqn:E.
  - apply Z.eqb_eq in E. symmetry. apply count_nonnull_zero_concat. exact E.
  - destruct p as [x|]; simpl.
    + replace (to_uint8 (1 + count_nonnull slots - 1)) with (count_nonnull slots).
      * rewrite IH by lia. reflexivity.
      * pose proof (count_nonnull_bounds slots). rewrite to_uint8_small; lia.
    + rewrite IH by lia. reflexivity.
Qed.

Lemma slots_sum_zero {A} (slots : list (option A)) :
  slots_sum (fun _ => 0%nat) slots = 0%nat.
Proof. unfold slots_sum. induction slots as [|[x|] slots IH]; simpl; auto. Qed.

Lemma count_calloc_dealloc (deallocator : bool) x :
  count_calloc (if deallocator then [Dealloc x] else []) = 0%nat.
Proof. destruct deallocator; reflexivity. Qed.

Lemma slots_sum_In {A} (m : A -> nat) (slots : list (option A)) x :
  In (Some x) slots -> (m x <= slots_sum m slots)%nat.
Proof.
  unfold slots_sum. induction slots as [|p slots IH]; simpl; [tauto|].
  intros [-> | H]; [lia|]. specialize (IH H). lia.
Qed.

Lemma slots_ok_In {A} (ok : A -> bool) c (slots : list (option A)) x :
  slots_ok ok c slots = true -> In (Some x) slots -> ok x = true.
Proof.
  intros H Hin. apply slots_ok_Forall in H as (_ & _ & H).
  rewrite Forall_forall in H. apply (H (Some x)). apply list_elem_of_In. exact Hin.
Qed.

Lemma node_node_count_unfold o c d nibbles :
  node_node_count (Node o c d nibbles) = S (slots_sum nibble_node_count nibbles).
Proof. reflexivity. Qed.

Lemma nibble_node_count_unfold c nodes :
  nibble_node_count (Nibble c nodes) = slots_sum node_node_count nodes.
Proof. reflexivity. Qed.

Lemma length_deallocs_app tr1 tr2 :
  length (deallocs (tr1 ++ tr2)) = (length (deallocs tr1) + length (deallocs tr2))%nat.
Proof. rewrite deallocs_app, length_app. reflexivity. Qed.

(** What the destruction of a well-formed subtree does, by induction on
    the number of its blocks. *)
Lemma gnt_destroy_subtree deallocator n :
  (forall nibble, (nibble_blocks nibble <= n)%nat -> nibble_ok nibble = true ->
     count_free (gnt_destroy_nibble deallocator nibble) = nibble_blocks nibble /\
     count_calloc (gnt_destroy_nibble deallocator nibble) = 0%nat /\
     length (deallocs (gnt_destroy_nibble deallocator nibble))
     = if deallocator then nibble_node_count nibble else 0%nat) /\
  (forall node, (node_blocks node <= n)%nat -> node_ok node = true ->
     count_free (gnt_destroy_node deallocator node) = node_blocks node /\
     count_calloc (gnt_destroy_node deallocator node) = 0%nat /\
     length (deallocs (gnt_destroy_node deallocator node))
     = if deallocator then node_node_count node else 0%nat).
Proof.
  induction n as [|n [IHnb IHnd]].
  - split; [intros [c nodes]|intros [o c d nibbles]]; intros Hn;
      [rewrite nibble_blocks_unfold in Hn|rewrite node_blocks_unfold in Hn]; lia.
  - split.
    + intros [c nodes] Hn Hok. rewrite nibble_blocks_unfold in Hn.
      rewrite nibble_ok_unfold in Hok.
      cbn [gnt_destroy_nibble].
      pose proof (slots_ok_count _ _ _ Hok) as Hc. subst c.
      rewrite destroy_slots_all by (rewrite (slots_ok_length _ _ _ Hok); lia).
      assert (Hsub : forall x, In (Some x) nodes ->
                count_free (gnt_destroy_node deallocator x) = node_blocks x /\
                count_calloc (gnt_destroy_node deallocator x) = 0%nat /\
                length (deallocs (gnt_destroy_node deallocator x))
                = if deallocator then node_node_count x else 0%nat).
      { intros x Hin. apply IHnd; [|exact (slots_ok_In _ _ _ _ Hok Hin)].
        pose proof (slots_sum_In node_blocks nodes x Hin). lia. }
      rewrite count_free_app, count_calloc_app, length_deallocs_app.
      pose proof (mu_concat count_free eq_refl count_free_app _ node_blocks nodes
                    (fun x Hx => proj1 (Hsub x Hx))) as H1.
      pose proof (mu_concat count_calloc eq_refl count_calloc_app _ (fun _ => 0%nat) nodes
                    (fun x Hx => proj1 (proj2 (Hsub x Hx)))) as H2.
      pose proof (mu_concat (fun tr => length (deallocs tr)) eq_refl length_deallocs_app _
                    (fun x => if deallocator then node_node_count x else 0%nat) nodes
                    (fun x Hx => proj2 (proj2 (Hsub x Hx)))) as H3.
      cbv beta in H3. rewrite H1, H2, H3. clear H1 H2 H3 Hsub.
      rewrite nibble_blocks_unfold, nibble_node_count_unfold.
      change (count_free [Free]) with 1%nat. change (count_calloc [Free]) with 0%nat.
      change (length (deallocs [Free])) with 0%nat.
      rewrite slots_sum_zero.
      split; [lia|]. split; [reflexivity|].
      rewrite Nat.add_0_r. destruct deallocator; [reflexivity|apply slots_sum_zero].
    + intros [o c d nibbles] Hn Hok. rewrite node_blocks_unfold in Hn.
      rewrite node_ok_unfold in Hok.
      cbn [gnt_destroy_node].
      pose proof (slots_ok_count _ _ _ Hok) as Hc. subst c.
      rewrite destroy_slots_all by (rewrite (slots_ok_length _ _ _ Hok); lia).
      assert (Hsub : forall x, In (Some x) nibbles ->
                count_free (gnt_destroy_nibble deallocator x) = nibble_blocks x /\
                count_calloc (gnt_destroy_nibble deallocator x) = 0%nat /\
                length (deallocs (gnt_destroy_nibble deallocator x))
                = if deallocator then nibble_node_count x else 0%nat).
      { intros x Hin. apply IHnb; [|exact (slots_ok_In _ _ _ _ Hok Hin)].
        pose proof (slots_sum_In nibble_blocks nibbles x Hin). lia. }
      rewrite !count_free_app, !count_calloc_app, !length_deallocs_app.
      pose proof (mu_concat count_free eq_refl count_free_app _ nibble_blocks nibbles
                    (fun x Hx => proj1 (Hsub x Hx))) as H1.
      pose proof (mu_concat count_calloc eq_refl count_calloc_app _ (fun _ => 0%nat) nibbles
                    (fun x Hx => proj1 (proj2 (Hsub x Hx)))) as H2.
      pose proof (mu_concat (fun tr => length (deallocs tr)) eq_refl length_deallocs_app _
                    (fun x => if deallocator then nibble_node_count x else 0%nat) nibbles
                    (fun x Hx => proj2 (proj2 (Hsub x Hx)))) as H3.
      cbv beta in H3. rewrite H1, H2, H3. clear H1 H2 H3 Hsub.
      rewrite node_blocks_unfold, node_node_count_unfold.
      change (count_free [Free]) with 1%nat. change (count_calloc [Free]) with 0%nat.
      change (length (deallocs [Free])) with 0%nat.
      rewrite count_free_dealloc, count_calloc_dealloc, slots_sum_zero.
      split; [lia|]. split; [reflexivity|].
      destruct deallocator.
      * change (length (deallocs [Dealloc d])) with 1%nat.
        rewrite Nat.add_comm. reflexivity.
      * change (length (deallocs [])) with 0%nat. rewrite !Nat.add_0_r.
        apply slots_sum_zero.
Qed.

Lemma gnt_destroy_spec t :
  gnt_ok t = true ->
  exists tr, gnt_destroy (Some t) = Ok 0 tr /\
             count_free tr = S (gnt_blocks t) /\
             count_calloc tr = 0%nat /\
             length (deallocs tr) = if gnt_deallocator t then gnt_node_count t else 0%nat.
Proof.
  intros Hok. apply gnt_ok_iff in Hok as [_ Hroot].
  destruct (gnt_destroy_subtree (gnt_deallocator t) (node_blocks (root_node t)))
    as [_ Hnode].
  specialize (Hnode (root_node t) (le_n _) Hroot) as (Hf & Hc & Hd).
  unfold root_node in Hf, Hc, Hd. cbn [gnt_destroy_node] in Hf, Hc, Hd.
  rewrite node_blocks_unfold in Hf. rewrite node_node_count_unfold in Hd.
  rewrite !count_free_app in Hf. rewrite !count_calloc_app in Hc.
  rewrite !length_deallocs_app in Hd. rewrite count_free_dealloc in Hf.
  change (count_free [Free]) with 1%nat in Hf.
  change (length (deallocs [Free])) with 0%nat in Hd.
  eexists. split; [unfold gnt_destroy; monad_simpl; reflexivity|].
  unfold _gnt_destroy_recursive_nibbles, gnt_blocks, gnt_node_count.
  rewrite ?app_nil_r, count_free_app, count_calloc_app, length_deallocs_app.
  change (count_free [Free]) with 1%nat. change (count_calloc [Free]) with 0%nat.
  change (length (deallocs [Free])) with 0%nat.
  split; [lia|]. split; [lia|].
  destruct (gnt_deallocator t).
  - change (length (deallocs [Dealloc 0])) with 1%nat in Hd. lia.
  - change (length (deallocs [])) with 0%nat in Hd. lia.
Qed.

(** X5: the blocks of the trie are the blocks allocated and not yet freed.
    After any sequence of insertions, searches and deletions that returns
    from [gnt_create], the number of [calloc] calls made is the number of
    [free] calls made plus the number of nibble layers and nodes the trie
    holds. *)
Theorem gnt_run_allocation_balance fuel cfg ops vs trie tr :
  gnt_run fuel (Some (gnt_create cfg)) ops = Ok (vs, trie) tr ->
  exists t, trie = Some t /\
            count_calloc tr = (gnt_blocks t + count_free tr)%nat.
Proof.
  intros Hrun.
  destruct (gnt_run_blocks _ _ _ _ _ _ (gnt_create_ok cfg) Hrun) as (t & -> & _ & H).
  exists t. split; [reflexivity|].
  assert (gnt_blocks (gnt_create cfg) = 0%nat) as Hempty
    by (destruct cfg as [[[a|] d]|]; reflexivity).
  lia.
Qed.

Lemma gnt_run_allocation_balance_witness :
  exists t,
    Some (trie_after 8 (Some example_cfg) [Insert 1 11; Insert 3 33; Delete 1; Search 3])
    = Some t /\
    count_calloc [Calloc; Calloc; Calloc; Calloc; Calloc; Calloc; Dealloc 11]
    = (gnt_blocks t
       + count_free [Calloc; Calloc; Calloc; Calloc; Calloc; Calloc; Dealloc 11])%nat.
Proof.
  apply (gnt_run_allocation_balance 8 (Some example_cfg)
           [Insert 1 11; Insert 3 33; Delete 1; Search 3] [0; 0; 0; 33]).
  vm_compute. reflexivity.
Defined.

(** X6: [gnt_destroy] on a trie whose counters are exact returns 0, frees
    every nibble layer and every node of the trie and then the handle,
    allocates nothing and, when a deallocator is configured, calls it once
    for each node. *)
Theorem gnt_destroy_frees_every_block t :
  gnt_ok t = true ->
  exists tr,
    gnt_destroy (Some t) = Ok 0 tr /\
    count_free tr = S (gnt_blocks t) /\
    count_calloc tr = 0%nat /\
    length (deallocs tr) = if gnt_deallocator t then gnt_node_count t else 0%nat.
Proof. apply gnt_destroy_spec. Qed.

Lemma gnt_destroy_frees_every_block_witness :
  exists tr,
    gnt_destroy (Some example_trie) = Ok 0 tr /\
    count_free tr = S (gnt_blocks example_trie) /\
    count_calloc tr = 0%nat /\
    length (deallocs tr)
    = if gnt_deallocator example_trie then gnt_node_count example_trie else 0%nat.
Proof. apply (gnt_destroy_frees_every_block example_trie). vm_compute. reflexivity. Defined.

(** X7: a session leaks nothing. When the operations between [gnt_create]
    and [gnt_destroy] all return, [gnt_destroy] returns 0 and the session
    has called [free] once for every [calloc] of the operations and once
    more for the handle. *)
Theorem gnt_session_frees_all fuel cfg ops vs status tr :
  gnt_session fuel cfg ops = Ok (vs, status) tr ->
  status = 0 /\ count_free tr = S (count_calloc tr).
Proof.
  unfold gnt_session. intros H.
  apply bind_Ok_inv in H as ([vs' trie] & tr1 & tr2 & Hrun & H & ->).
  destruct (gnt_run_blocks _ _ _ _ _ _ (gnt_create_ok cfg) Hrun) as (t & -> & Hok & Hb).
  assert (gnt_blocks (gnt_create cfg) = 0%nat) as Hempty
    by (destruct cfg as [[[a|] d]|]; reflexivity).
  destruct (gnt_destroy_spec t Hok) as (tr3 & Hd & Hf & Hc & _).
  rewrite Hd, bind_Ok in H. monad_simpl. injection H as <- <- <-.
  split; [reflexivity|].
  rewrite !count_free_app, !count_calloc_app, Hf, Hc.
  change (count_free []) with 0%nat. change (count_calloc []) with 0%nat. lia.
Qed.

Lemma gnt_session_frees_all_witness :
  0 = 0 /\
  count_free [Calloc; Calloc; Calloc; Calloc; Calloc; Calloc; Dealloc 11;
              Dealloc 33; Free; Free; Dealloc 0; Free; Free; Dealloc 0; Free; Free;
              Free]
  = S (count_calloc [Calloc; Calloc; Calloc; Calloc; Calloc; Calloc; Dealloc 11;
                     Dealloc 33; Free; Free; Dealloc 0; Free; Free; Dealloc 0; Free;
                     Free; Free]).
Proof.
  apply (gnt_session_frees_all 8 (Some example_cfg)
           [Insert 1 11; Insert 3 33; Delete 1; Search 3] [0; 0; 0; 33]).
  vm_compute. reflexivity.
Defined.

(** ** The string accessor *)

Lemma gnt_accessor_string_tail mem mem' key key' c rest fuel : forall index,
  mem key = String c rest -> Ascii.eqb c Ascii.zero = false -> mem' key' = rest ->
  read_key fuel (gnt_accessor_string mem) key (S index)
  = read_key fuel (gnt_accessor_string mem') key' index.
Proof.
  intros index Hmem Hc Hrest. revert index.
  induction fuel as [|fuel IH]; intros index; [reflexivity|].
  cbn [read_key]. rewrite IH.
  unfold call_accessor, gnt_accessor_string. rewrite Hmem, Hrest.
  cbn [strlen char_at]. rewrite Hc.
  change (S (strlen rest) <=? S index)%nat with (strlen rest <=? index)%nat.
  reflexivity.
Qed.

Lemma ascii_nonzero c : Ascii.eqb c Ascii.zero = false -> 0 < Z.of_N (N_of_ascii c) < 256.
Proof.
  intros Hc. pose proof (N_ascii_bounded c) as Hb.
  assert (N_of_ascii c <> 0%N) as Hnz.
  { intros H0. apply Ascii.eqb_neq in Hc. apply Hc.
    rewrite <- (ascii_N_embedding c), H0. reflexivity. }
  lia.
Qed.

Lemma read_key_string str : forall mem key fuel,
  mem key = str -> (strlen str < fuel)%nat ->
  read_key fuel (gnt_accessor_string mem) key 0 = Some (string_bytes str).
Proof.
  induction str as [|c rest IH]; intros mem key fuel Hmem Hfuel.
  - destruct fuel as [|fuel]; [simpl in Hfuel; lia|].
    cbn [read_key]. unfold call_accessor, gnt_accessor_string. rewrite Hmem.
    reflexivity.
  - destruct fuel as [|fuel]; [lia|].
    cbn [read_key string_bytes]. unfold call_accessor at 1, gnt_accessor_string at 1.
    rewrite Hmem. cbn [strlen char_at] in *.
    destruct (Ascii.eqb c Ascii.zero) eqn:Hc; [reflexivity|].
    cbn [Nat.leb fmap option_fmap option_map].
    rewrite (gnt_accessor_string_tail mem (fun _ => rest) key 0 c rest fuel 0%nat
               Hmem Hc eq_refl).
    rewrite (IH (fun _ => rest) 0 fuel eq_refl) by lia.
    rewrite to_uint8_small by (pose proof (ascii_nonzero c Hc); lia).
    reflexivity.
Qed.

Lemma string_bytes_spec str :
  length (string_bytes str) = strlen str /\
  Forall (fun b => 0 < b < 256) (string_bytes str).
Proof.
  induction str as [|c rest [IHl IHf]]; [split; [reflexivity|constructor]|].
  cbn [string_bytes strlen].
  destruct (Ascii.eqb c Ascii.zero) eqn:Hc; [split; [reflexivity|constructor]|].
  split; [simpl; rewrite IHl; reflexivity|].
  constructor; [apply ascii_nonzero; exact Hc|exact IHf].
Qed.

(** X8: the byte sequence of a string key is its contents. With enough fuel
    for the length of the buffer, the bytes [gnt_accessor_string] (and
    [gbt_accessor_string]) produces for a key are the characters of the
    buffer before its first NUL: there are [strlen] of them and none is 0.
    Two addresses whose buffers hold the same characters are the same key. *)
Theorem gnt_accessor_string_bytes mem key fuel :
  (strlen (mem key) < fuel)%nat ->
  read_key fuel (gnt_accessor_string mem) key 0 = Some (string_bytes (mem key)) /\
  read_key fuel (gbt_accessor_string mem) key 0 = Some (string_bytes (mem key)) /\
  length (string_bytes (mem key)) = strlen (mem key) /\
  Forall (fun b => 0 < b < 256) (string_bytes (mem key)) /\
  (forall key', string_bytes (mem key') = string_bytes (mem key) ->
     read_key fuel (gnt_accessor_string mem) key' 0
     = read_key fuel (gnt_accessor_string mem) key 0).
Proof.
  intros Hfuel. destruct (string_bytes_spec (mem key)) as [Hlen Hall].
  split; [apply read_key_string; [reflexivity|exact Hfuel]|].
  split; [apply (read_key_string (mem key) mem key fuel eq_refl Hfuel)|].
  split; [exact Hlen|]. split; [exact Hall|].
  intros key' Hsame.
  rewrite (read_key_string (mem key) mem key fuel eq_refl Hfuel).
  rewrite <- Hsame. apply read_key_string; [reflexivity|].
  destruct (string_bytes_spec (mem key')) as [Hlen' _].
  rewrite <- Hlen', Hsame, Hlen. exact Hfuel.
Qed.

Lemma gnt_accessor_string_bytes_witness :
  read_key 8 (gnt_accessor_string example_mem) 3 0 = Some (string_bytes (example_mem 3)) /\
  read_key 8 (gbt_accessor_string example_mem) 3 0 = Some (string_bytes (example_mem 3)) /\
  length (string_bytes (example_mem 3)) = strlen (example_mem 3) /\
  Forall (fun b => 0 < b < 256) (string_bytes (example_mem 3)) /\
  (forall key', string_bytes (example_mem key') = string_bytes (example_mem 3) ->
     read_key 8 (gnt_accessor_string example_mem) key' 0
     = read_key 8 (gnt_accessor_string example_mem) 3 0).
Proof. apply (gnt_accessor_string_bytes example_mem 3 8). vm_compute. lia. Defined.

(** ** Keys of the default accessors *)

Lemma msb_digits_inj base k1 k2 ds : msb_digits base k1 ds -> msb_digits base k2 ds -> k1 = k2.
Proof. intros (_ & _ & H1 & _) (_ & _ & H2 & _). congruence. Qed.

Lemma gnt_accessor_default_inj fuel k1 k2 :
  0 <= k1 < 2 ^ 64 -> 0 <= k2 < 2 ^ 64 -> (8 < fuel)%nat ->
  read_key fuel _gnt_accessor_default k1 0 = read_key fuel _gnt_accessor_default k2 0 ->
  k1 = k2.
Proof.
  intros H1 H2 Hfuel Heq.
  destruct (gnt_accessor_default_msb_digits k1 fuel H1 Hfuel) as (ds1 & Hr1 & Hd1 & _).
  destruct (gnt_accessor_default_msb_digits k2 fuel H2 Hfuel) as (ds2 & Hr2 & Hd2 & _).
  rewrite Hr1, Hr2 in Heq. injection Heq as ->.
  exact (msb_digits_inj 256 k1 k2 ds2 Hd1 Hd2).
Qed.

(** X9: [_gnt_accessor_default] separates the keys. For two different keys
    below 2^64 it produces different byte sequences, so that no two integer
    keys share a terminal node. *)
Theorem gnt_accessor_default_injective fuel k1 k2 :
  0 <= k1 < 2 ^ 64 -> 0 <= k2 < 2 ^ 64 -> (8 < fuel)%nat ->
  k1 <> k2 ->
  read_key fuel _gnt_accessor_default k1 0 <> read_key fuel _gnt_accessor_default k2 0.
Proof.
  intros H1 H2 Hfuel Hne Heq. apply Hne.
  exact (gnt_accessor_default_inj fuel k1 k2 H1 H2 Hfuel Heq).
Qed.

Lemma gnt_accessor_default_injective_witness :
  read_key 9 _gnt_accessor_default 1 0 <> read_key 9 _gnt_accessor_default 256 0.
Proof.
  apply (gnt_accessor_default_injective 9 1 256);
    [vm_compute; split; [discriminate|reflexivity]..|lia|discriminate].
Defined.

(** X10: [_gbt_accessor_default] separates the keys: for two different keys
    below 2^64 it produces different sequences of decimal digits. *)
Theorem gbt_accessor_default_injective fuel k1 k2 :
  0 <= k1 < 2 ^ 64 -> 0 <= k2 < 2 ^ 64 -> (20 < fuel)%nat ->
  k1 <> k2 ->
  read_key fuel _gbt_accessor_default k1 0 <> read_key fuel _gbt_accessor_default k2 0.
Proof.
  intros H1 H2 Hfuel Hne Heq. apply Hne.
  destruct (gbt_accessor_default_msb_digits k1 fuel H1 Hfuel) as (ds1 & Hr1 & Hd1 & _).
  destruct (gbt_accessor_default_msb_digits k2 fuel H2 Hfuel) as (ds2 & Hr2 & Hd2 & _).
  rewrite Hr1, Hr2 in Heq. injection Heq as ->.
  exact (msb_digits_inj 10 k1 k2 ds2 Hd1 Hd2).
Qed.

Lemma gbt_accessor_default_injective_witness :
  read_key 21 _gbt_accessor_default 1 0 <> read_key 21 _gbt_accessor_default 256 0.
Proof.
  apply (gbt_accessor_default_injective 21 1 256);
    [vm_compute; split; [discriminate|reflexivity]..|lia|discriminate].
Defined.

(** ** What an insertion allocates *)

Lemma count_calloc_put_events deallocator bs : forall node,
  (count_calloc (put_events deallocator bs node) <= 2 * length bs)%nat /\
  (count_calloc (put_events deallocator bs node) = 0%nat <-> is_Some (descend bs node)).
Proof.
  induction bs as [|b bs IH]; intros node.
  - cbn [put_events descend length].
    rewrite count_calloc_dealloc. split; [lia|]. split; eauto.
  - cbn [put_events descend length]. rewrite count_calloc_app, count_calloc_body_events.
    destruct (IH (next_node (node_nibbles node) b)) as [IHle IHiff].
    unfold next_node, child in *.
    destruct (slot (node_nibbles node) (GNT_HIGH_NIBBLE b)) as [nibble|];
      cbn [mbind option_bind] in *.
    + destruct (slot (nibble_nodes nibble) (GNT_LOW_NIBBLE b)) as [n|];
        cbn [default mbind option_bind] in *.
      * split; [lia|]. rewrite <- IHiff. simpl. reflexivity.
      * split; [lia|]. split; [simpl; lia|]. intros [x Hx]. discriminate Hx.
    + split; [lia|]. split; [simpl; lia|]. intros [x Hx]. discriminate Hx.
Qed.

(** X11: [gnt_insert] allocates the missing part of the path and nothing
    else. On a trie with exact counters and a key of at least one byte it
    returns 0, never calls [free], calls [calloc] at most twice per key
    byte, calls it not at all exactly when the terminal node of the key is
    already there, and the trie grows by the blocks allocated. *)
Theorem gnt_insert_allocates_missing_path fuel t key data b bs :
  gnt_ok t = true ->
  read_key fuel (gnt_accessor t) key 0 = Some (b :: bs) ->
  exists t' tr,
    gnt_insert fuel (Some t) key data = Ok (0, Some t') tr /\
    count_free tr = 0%nat /\
    (count_calloc tr <= 2 * length (b :: bs))%nat /\
    (count_calloc tr = 0%nat <-> is_Some (terminal (gnt_nibbles t) (b :: bs))) /\
    gnt_blocks t' = (gnt_blocks t + count_calloc tr)%nat.
Proof.
  intros Hok Hread. pose proof Hread as Hread'.
  apply read_key_cons in Hread' as [Hb Hbs].
  destruct (gnt_insert_blocks fuel t key data b bs Hok Hb Hbs)
    as (t' & tr & Hins & Hblocks & Hfree).
  exists t', tr. split; [exact Hins|].
  rewrite (gnt_insert_eq _ _ _ _ _ _ (gnt_ok_mutex _ Hok) Hread) in Hins.
  injection Hins as _ <-.
  destruct (count_calloc_put_events (gnt_deallocator t) (b :: bs) (root_node t))
    as [Hle Hiff].
  split; [exact Hfree|]. split; [exact Hle|]. split; [exact Hiff|exact Hblocks].
Qed.

Lemma gnt_insert_allocates_missing_path_witness :
  exists t' tr,
    gnt_insert 8 (Some example_trie) 3 33 = Ok (0, Some t') tr /\
    count_free tr = 0%nat /\
    (count_calloc tr <= 2 * length [97; 98; 99])%nat /\
    (count_calloc tr = 0%nat <-> is_Some (terminal (gnt_nibbles example_trie) [97; 98; 99])) /\
    gnt_blocks t' = (gnt_blocks example_trie + count_calloc tr)%nat.
Proof.
  apply (gnt_insert_allocates_missing_path 8 example_trie 3 33 97 [98; 99]);
    vm_compute; reflexivity.
Defined.

(** ** Searches *)

(** X12: [gnt_search] is an observer. A search that returns leaves the trie
    as it was, with the mutex released on each of its three return paths,
    and calls neither [calloc], [free] nor the deallocator. *)
Theorem gnt_search_leaves_trie fuel t key v trie tr :
  gnt_mutex t = false ->
  gnt_search fuel (Some t) key = Ok (v, trie) tr ->
  trie = Some t /\ tr = [].
Proof. apply gnt_search_state. Qed.

Lemma gnt_search_leaves_trie_witness :
  Some example_trie = Some example_trie /\ @nil event = [].
Proof.
  apply (gnt_search_leaves_trie 8 example_trie 3 0 (Some example_trie) []);
    vm_compute; reflexivity.
Defined.


(** ** Insertion followed by deletion *)

Lemma set_slot_set_slot {A} (a : list (option A)) i v w :
  set_slot (set_slot a i v) i w = set_slot a i w.
Proof. unfold set_slot. apply list_insert_insert_eq. Qed.

Lemma set_slot_none_id {A} (a : list (option A)) i :
  0 <= i < Z.of_nat (length a) -> slot a i = None -> set_slot a i None = a.
Proof.
  unfold slot, set_slot. intros Hi H. apply list_insert_id.
  destruct (a !! Z.to_nat i) as [p|] eqn:E.
  - simpl in H. rewrite H. reflexivity.
  - apply lookup_ge_None in E. lia.
Qed.

(** The path that an insertion builds under a new node is freed as a whole
    by the deletion of the same bytes. *)
Lemma prune_put_calloc_node deallocator data bs :
  Forall is_byte bs ->
  exists st below tr ev,
    prune deallocator bs (node_nibbles (put data bs calloc_node)) = Some (st, below, tr) /\
    unwind_node deallocator st (head bs)
      (Node (node_occupied (put data bs calloc_node))
         (node_children (put data bs calloc_node))
         (node_data (put data bs calloc_node)) below) = (None, ev) /\
    count_free (tr ++ ev) = S (2 * length bs) /\
    deallocs (tr ++ ev) = if deallocator then [data] else [].
Proof.
  induction 1 as [|b bs Hb Hbs IH].
  - exists END, null_array, [], ((if deallocator then [Dealloc data] else []) ++ [Free]).
    split; [reflexivity|]. split; [reflexivity|].
    split; destruct deallocator; reflexivity.
  - destruct IH as (st & below & tr & ev & Hp & Hu & Hf & Hd).
    pose proof (high_nibble_range b Hb) as Hh.
    pose proof (low_nibble_range b) as Hl.
    rewrite put_cons. cbn [node_nibbles node_children node_occupied node_data calloc_node].
    unfold next_node, child, put_body. rewrite !slot_null_array.
    cbn [mbind option_bind default calloc_nibble nibble_nodes nibble_children].
    rewrite slot_null_array. cbn [fst snd].
    change (to_uint8 (0 + 1)) with 1.
    cbn [prune head].
    rewrite slot_set_slot_eq by (simpl; lia).
    cbn [mbind option_bind nibble_nodes].
    rewrite slot_set_slot_eq by (simpl; lia).
    cbn [mbind option_bind]. rewrite Hp. cbn [mbind option_bind]. rewrite Hu.
    cbn [unwind_nibble nibble_children nibble_nodes].
    change (to_uint8 (1 - 1)) with 0. cbn [Z.eqb negb].
    eexists _, _, _, _. split; [reflexivity|].
    cbn [unwind_node node_children node_nibbles node_occupied node_data default].
    rewrite slot_set_slot_eq by (rewrite length_set_slot; simpl; lia).
    change (1 =? 0) with false. cbn [free]. change (to_uint8 (1 - 1)) with 0.
    cbn [Z.eqb negb node_children]. split; [reflexivity|].
    rewrite count_free_app, deallocs_app, Hf, Hd. cbn [length].
    split; [change (count_free ([] ++ [Free] ++ [Free])) with 2%nat; lia|].
    destruct deallocator; reflexivity.
Qed.

Lemma lookup_none_count_lt {A} (a : list (option A)) : forall n,
  a !! n = Some None -> count_nonnull a < Z.of_nat (length a).
Proof.
  induction a as [|p a IH]; intros n H; [discriminate H|].
  pose proof (count_nonnull_bounds a) as Hb.
  destruct n as [|n]; simpl in H.
  - injection H as ->. simpl count_nonnull. simpl length. lia.
  - specialize (IH n H). destruct p; simpl count_nonnull; simpl length; lia.
Qed.

Lemma slot_none_count_lt {A} (a : list (option A)) i :
  0 <= i < Z.of_nat (length a) -> slot a i = None ->
  count_nonnull a < Z.of_nat (length a).
Proof.
  unfold slot. intros Hi H. apply (lookup_none_count_lt a (Z.to_nat i)).
  destruct (a !! Z.to_nat i) as [p|] eqn:E.
  - simpl in H. rewrite H. reflexivity.
  - apply lookup_ge_None in E. lia.
Qed.

(** X14: insertion and deletion are inverse on a new branch. On a trie with
    exact counters and no nibble layer for the first byte of the key,
    inserting the key and deleting it again returns 0 twice and leaves the
    trie as it was before: the deletion frees the two blocks per key byte
    that the insertion allocated, and the deallocator, when configured, is
    called once, on the payload just inserted. *)
Theorem gnt_insert_delete_round_trip fuel t key data b bs :
  gnt_ok t = true ->
  read_key fuel (gnt_accessor t) key 0 = Some (b :: bs) ->
  slot (gnt_nibbles t) (GNT_HIGH_NIBBLE b) = None ->
  exists tr,
    gnt_run fuel (Some t) [Insert key data; Delete key] = Ok ([0; 0], Some t) tr /\
    count_calloc tr = (2 * length (b :: bs))%nat /\
    count_free tr = (2 * length (b :: bs))%nat /\
    deallocs tr = if gnt_deallocator t then [data] else [].
Proof.
  intros Hok Hread Hslot. pose proof (gnt_ok_mutex _ Hok) as Hm.
  pose proof (read_key_bytes _ _ _ _ _ Hread) as Hbytes.
  apply Forall_cons in Hbytes as [Hb Hbs].
  pose proof (high_nibble_range b Hb) as Hh.
  pose proof (low_nibble_range b) as Hl.
  pose proof Hok as Hroot. apply gnt_ok_iff in Hroot as [_ Hroot].
  unfold root_node in Hroot. rewrite node_ok_unfold in Hroot.
  pose proof (slots_ok_length _ _ _ Hroot) as Hlen.
  pose proof (slots_ok_count _ _ _ Hroot) as Hcount.
  pose proof (slot_none_count_lt (gnt_nibbles t) (GNT_HIGH_NIBBLE b)
                ltac:(rewrite Hlen; lia) Hslot) as Hlt.
  pose proof (count_nonnull_bounds (gnt_nibbles t)) as Hge.
  rewrite Hlen in Hlt.
  destruct (prune_put_calloc_node (gnt_deallocator t) data bs Hbs)
    as (st & below & tr & ev & Hp & Hu & Hf & Hd).
  (* the insertion *)
  pose proof (gnt_insert_eq fuel t key data b bs Hm Hread) as Hins.
  destruct (put_blocks (gnt_deallocator t) data (b :: bs) (root_node t))
    as [_ Hinsfree]; [apply gnt_ok_iff in Hok as [_ H]; exact H|constructor; assumption|].
  pose proof (deallocs_put_events (gnt_deallocator t) (b :: bs) (root_node t)) as Hinsd.
  assert (descend (b :: bs) (root_node t) = None) as Hdesc.
  { cbn [descend root_node node_nibbles]. unfold child. rewrite Hslot. reflexivity. }
  rewrite Hdesc in Hinsd.
  set (t1 := with_root t (put data (b :: bs) (root_node t))) in *.
  (* the deletion *)
  assert (Hdel : gnt_delete fuel (Some t1) key
                 = Ok (0, Some t) ((tr ++ ev) ++ [Free])).
  { rewrite (gnt_delete_eq fuel t1 key b bs eq_refl Hread).
    subst t1. unfold with_root. cbn [gnt_deallocator gnt_nibbles].
    rewrite put_cons. cbn [node_nibbles node_children root_node].
    unfold next_node, child, put_body. rewrite Hslot.
    cbn [mbind option_bind default calloc_nibble nibble_nodes nibble_children].
    rewrite slot_null_array. cbn [fst snd].
    change (to_uint8 (0 + 1)) with 1.
    cbn [prune head].
    rewrite slot_set_slot_eq by (rewrite Hlen; lia).
    cbn [mbind option_bind nibble_nodes].
    rewrite slot_set_slot_eq by (simpl; lia).
    cbn [mbind option_bind]. rewrite Hp. cbn [mbind option_bind]. rewrite Hu.
    cbn [unwind_nibble nibble_children nibble_nodes].
    change (to_uint8 (1 - 1)) with 0. cbn [Z.eqb negb].
    unfold prune_root. cbn [gnt_children gnt_accessor gnt_deallocator fst snd].
    rewrite to_uint8_small by lia.
    destruct (gnt_children t + 1 =? 0) eqn:E; [lia|].
    cbn [fst snd].
    rewrite slot_set_slot_eq by (rewrite length_set_slot, Hlen; lia).
    rewrite !set_slot_set_slot.
    rewrite set_slot_none_id by (rewrite ?Hlen; first [lia|exact Hslot]).
    replace (gnt_children t + 1 - 1) with (gnt_children t) by lia.
    rewrite to_uint8_small by lia.
    destruct t as [m c a acc d]. simpl in Hm. subst m. reflexivity. }
  assert (Hrun : gnt_run fuel (Some t) [Insert key data; Delete key]
                 = Ok ([0; 0], Some t)
                     (put_events (gnt_deallocator t) (b :: bs) (root_node t)
                      ++ (tr ++ ev) ++ [Free])).
  { cbn [gnt_run gnt_step]. rewrite Hins, bind_Ok. fold t1. rewrite Hdel, bind_Ok.
    monad_simpl. rewrite !app_nil_r. reflexivity. }
  assert (Hfrees : count_free (put_events (gnt_deallocator t) (b :: bs) (root_node t)
                               ++ (tr ++ ev) ++ [Free])
                   = (2 * length (b :: bs))%nat).
  { rewrite !count_free_app in *. rewrite Hinsfree.
    change (count_free [Free]) with 1%nat. cbn [length]. lia. }
  eexists. split; [exact Hrun|]. split; [|split; [exact Hfrees|]].
  - destruct (gnt_run_blocks _ _ _ _ _ _ Hok Hrun) as (t' & Ht' & _ & Hbal).
    injection Ht' as <-. lia.
  - rewrite !deallocs_app in *. rewrite Hinsd, Hd.
    destruct (gnt_deallocator t); reflexivity.
Qed.

Lemma gnt_insert_delete_round_trip_witness :
  exists tr,
    gnt_run 9 (Some (trie_after 9 None [Insert 1 11])) [Insert 4096 44; Delete 4096]
    = Ok ([0; 0], Some (trie_after 9 None [Insert 1 11])) tr /\
    count_calloc tr = (2 * length [16; 0])%nat /\
    count_free tr = (2 * length [16; 0])%nat /\
    deallocs tr = if gnt_deallocator (trie_after 9 None [Insert 1 11]) then [44] else [].
Proof.
  apply (gnt_insert_delete_round_trip 9 (trie_after 9 None [Insert 1 11]) 4096 44 16 [0]);
    vm_compute; reflexivity.
Defined.

(** ** The unguarded engine through the guarded one *)

Lemma unguard_guard t : unguard (guard t) = t.
Proof. destruct t; reflexivity. Qed.

Lemma gnt_ok_guard t : gnt_ok (guard t) = gbt_ok t.
Proof. reflexivity. Qed.

Lemma gbt_ok_unguard t : gnt_ok t = true -> gbt_ok (unguard t) = true.
Proof. unfold gnt_ok, gbt_ok. intros H. apply andb_true_iff in H as [_ H]. exact H. Qed.

Lemma unguard_outcome_Ok_inv {A} (o : outcome (A * option gnt_trie_t)) a trie tr :
  unguard_outcome o = Ok (a, trie) tr ->
  exists trie', o = Ok (a, trie') tr /\ trie = unguard <$> trie'.
Proof.
  destruct o as [[a' trie'] tr'|f]; simpl; [|discriminate].
  intros [= <- <- <-]. eauto.
Qed.

Lemma gbt_run_guard fuel t ops :
  gbt_run fuel (Some t) ops = unguard_outcome (gnt_run fuel (Some (guard t)) ops).
Proof.
  destruct (gnt_run_unguard fuel ops (Some (guard t)) eq_refl) as [H _].
  rewrite H. cbn [fmap option_fmap option_map]. rewrite unguard_guard. reflexivity.
Qed.

Lemma gbt_step_guard fuel t op :
  gbt_step fuel (Some t) op = unguard_outcome (gnt_step fuel (Some (guard t)) op).
Proof.
  rewrite (gnt_step_unguard fuel (Some (guard t)) op eq_refl).
  cbn [fmap option_fmap option_map]. rewrite unguard_guard. reflexivity.
Qed.

Lemma guard_gbt_create cfg : gnt_ok (guard (gbt_create cfg)) = true /\
                             gnt_blocks (guard (gbt_create cfg)) = 0%nat.
Proof. destruct cfg as [[[a|] d]|]; split; reflexivity. Qed.

(** X15: the counters of gbt.c are exact too. In every state that a
    sequence of insertions, searches and deletions reaches from
    [gbt_create], the [children] counter of the root, of every nibble layer
    and of every node is the number of non-NULL slots of its array. *)
Theorem gbt_children_counters_exact fuel cfg ops vs trie tr :
  gbt_run fuel (Some (gbt_create cfg)) ops = Ok (vs, trie) tr ->
  exists t, trie = Some t /\ gbt_ok t = true.
Proof.
  rewrite gbt_run_guard. intros H.
  apply unguard_outcome_Ok_inv in H as (trie' & Hrun & ->).
  destruct (gnt_run_blocks _ _ _ _ _ _ (proj1 (guard_gbt_create cfg)) Hrun)
    as (t' & -> & Hok & _).
  exists (unguard t'). split; [reflexivity|apply gbt_ok_unguard, Hok].
Qed.

Lemma gbt_children_counters_exact_witness :
  exists t,
    (exists vs tr,
       gbt_run 8 (Some (gbt_create (Some (GbtCfg (Some (gbt_accessor_string example_mem)) true))))
         [Insert 1 11; Insert 2 22; Insert 3 33; Delete 2; Delete 3]
       = Ok (vs, Some t) tr)
    /\ gbt_ok t = true.
Proof.
  edestruct (gbt_children_counters_exact 8
               (Some (GbtCfg (Some (gbt_accessor_string example_mem)) true))
               [Insert 1 11; Insert 2 22; Insert 3 33; Delete 2; Delete 3])
    as (t & Ht & Hok).
  - vm_compute. reflexivity.
  - exists t. split; [|exact Hok].
    eexists _, _. rewrite <- Ht. vm_compute. reflexivity.
Defined.

(** X16: a session of gbt.c leaks nothing. When the operations between
    [gbt_create] and [gbt_destroy] all return, [gbt_destroy] returns 0 and
    [free] has been called once for every [calloc] of the operations and
    once more for the handle. *)
Theorem gbt_session_frees_all fuel cfg ops vs status tr :
  gbt_session fuel cfg ops = Ok (vs, status) tr ->
  status = 0 /\ count_free tr = S (count_calloc tr).
Proof.
  unfold gbt_session. intros H.
  apply bind_Ok_inv in H as ([vs' trie] & tr1 & tr2 & Hrun & H & ->).
  rewrite gbt_run_guard in Hrun.
  apply unguard_outcome_Ok_inv in Hrun as (trie' & Hrun & ->).
  destruct (guard_gbt_create cfg) as [Hok0 Hempty].
  destruct (gnt_run_blocks _ _ _ _ _ _ Hok0 Hrun) as (t & -> & Hok & Hb).
  destruct (gnt_destroy_spec t Hok) as (tr3 & Hd & Hf & Hc & _).
  rewrite <- gnt_destroy_unguard, Hd, bind_Ok in H. monad_simpl.
  injection H as <- <- <-.
  split; [reflexivity|].
  rewrite !count_free_app, !count_calloc_app, Hf, Hc.
  change (count_free []) with 0%nat. change (count_calloc []) with 0%nat. lia.
Qed.

Lemma gbt_session_frees_all_witness :
  0 = 0 /\
  count_free [Calloc; Calloc; Calloc; Calloc; Calloc; Calloc; Dealloc 11;
              Dealloc 33; Free; Free; Dealloc 0; Free; Free; Dealloc 0; Free; Free;
              Free]
  = S (count_calloc [Calloc; Calloc; Calloc; Calloc; Calloc; Calloc; Dealloc 11;
                     Dealloc 33; Free; Free; Dealloc 0; Free; Free; Dealloc 0; Free;
                     Free; Free]).
Proof.
  apply (gbt_session_frees_all 8 (Some (GbtCfg (Some (gbt_accessor_string example_mem)) true))
           [Insert 1 11; Insert 3 33; Delete 1; Search 3] [0; 0; 0; 33]).
  vm_compute. reflexivity.
Defined.

(** X17: [gbt_insert] then [gbt_search]. On a trie of gbt.c with exact
    counters and a key of at least one byte, the insertion returns 0, a
    search for the key then returns the payload inserted, and a search for
    a key with another byte sequence returns what it returned before. *)
Theorem gbt_search_after_insert fuel t key data b bs :
  gbt_ok t = true ->
  read_key fuel (gbt_accessor t) key 0 = Some (b :: bs) ->
  exists t' tr,
    gbt_insert fuel (Some t) key data = Ok (0, Some t') tr /\
    gbt_ok t' = true /\
    gbt_search fuel (Some t') key = Ok (data, Some t') [] /\
    (forall key' b' bs',
       read_key fuel (gbt_accessor t) key' 0 = Some (b' :: bs') ->
       b' :: bs' <> b :: bs ->
       exists v,
         gbt_search fuel (Some t) key' = Ok (v, Some t) [] /\
         gbt_search fuel (Some t') key' = Ok (v, Some t') []).
Proof.
  intros Hok Hread.
  assert (Hgok : gnt_ok (guard t) = true) by exact Hok.
  pose proof (read_key_bytes _ _ _ _ _ Hread) as Hbytes.
  set (g' := with_root (guard t) (put data (b :: bs) (root_node (guard t)))).
  assert (Hgok' : gnt_ok g' = true).
  { apply with_root_ok. apply put_ok; [|exact Hbytes].
    apply gnt_ok_iff in Hgok as [_ H]. exact H. }
  assert (Hsearch : forall k v, gnt_search fuel (Some g') k = Ok (v, Some g') [] ->
                                gbt_search fuel (Some (unguard g')) k
                                = Ok (v, Some (unguard g')) []).
  { intros k v H.
    change (Some (unguard g')) with (unguard <$> Some g') at 1.
    rewrite <- (gnt_search_unguard fuel (Some g') k (gnt_ok_mutex _ Hgok')), H.
    reflexivity. }
  exists (unguard g'), (put_events (gbt_deallocator t) (b :: bs) (root_node (guard t))).
  split; [|split; [apply gbt_ok_unguard, Hgok'|split]].
  - pose proof (gnt_insert_unguard fuel (Some (guard t)) key data eq_refl) as H.
    cbn [fmap option_fmap option_map] in H. rewrite unguard_guard in H.
    rewrite <- H, (gnt_insert_eq fuel (guard t) key data b bs eq_refl Hread).
    reflexivity.
  - apply Hsearch.
    rewrite (gnt_search_payload fuel g' key b bs (gnt_ok_mutex _ Hgok') Hread).
    unfold g'. rewrite payload_at_insert by (try assumption; discriminate).
    rewrite decide_True by reflexivity. reflexivity.
  - intros key' b' bs' Hread' Hdiff.
    pose proof (read_key_bytes _ _ _ _ _ Hread') as Hbytes'.
    exists (payload_at (guard t) (b' :: bs')). split.
    + pose proof (gnt_search_unguard fuel (Some (guard t)) key' eq_refl) as H.
      cbn [fmap option_fmap option_map] in H. rewrite unguard_guard in H.
      rewrite <- H, (gnt_search_payload fuel (guard t) key' b' bs' eq_refl Hread').
      simpl. rewrite unguard_guard. reflexivity.
    + apply Hsearch.
      rewrite (gnt_search_payload fuel g' key' b' bs' (gnt_ok_mutex _ Hgok') Hread').
      unfold g'. rewrite payload_at_insert by (try assumption; discriminate).
      rewrite decide_False by congruence. reflexivity.
Qed.

Lemma gbt_search_after_insert_witness :
  exists t' tr,
    gbt_insert 8 (Some (unguard example_trie)) 3 33 = Ok (0, Some t') tr /\
    gbt_ok t' = true /\
    gbt_search 8 (Some t') 3 = Ok (33, Some t') [] /\
    (forall key' b' bs',
       read_key 8 (gbt_accessor (unguard example_trie)) key' 0 = Some (b' :: bs') ->
       b' :: bs' <> [97; 98; 99] ->
       exists v,
         gbt_search 8 (Some (unguard example_trie)) key'
         = Ok (v, Some (unguard example_trie)) [] /\
         gbt_search 8 (Some t') key' = Ok (v, Some t') []).
Proof.
  apply (gbt_search_after_insert 8 (unguard example_trie) 3 33 97 [98; 99]);
    vm_compute; reflexivity.
Defined.

(** X18: [gbt_delete]. On a trie of gbt.c with exact counters and a key of
    at least one byte, the deletion dereferences NULL when a slot on the
    path of the key is missing; otherwise it returns 0, a search for the
    key then returns 0, and a search for a key whose byte sequence is not a
    prefix of the deleted one returns what it returned before. *)
Theorem gbt_search_after_delete fuel t key b bs :
  gbt_ok t = true ->
  read_key fuel (gbt_accessor t) key 0 = Some (b :: bs) ->
  (terminal (gbt_nibbles t) (b :: bs) = None ->
   gbt_delete fuel (Some t) key = Fault NullDeref) /\
  (is_Some (terminal (gbt_nibbles t) (b :: bs)) ->
   exists t' tr,
     gbt_delete fuel (Some t) key = Ok (0, Some t') tr /\
     gbt_ok t' = true /\
     gbt_search fuel (Some t') key = Ok (0, Some t') [] /\
     (forall key' b' bs',
        read_key fuel (gbt_accessor t) key' 0 = Some (b' :: bs') ->
        ~ (b' :: bs') `prefix_of` (b :: bs) ->
        exists v,
          gbt_search fuel (Some t) key' = Ok (v, Some t) [] /\
          gbt_search fuel (Some t') key' = Ok (v, Some t') [])).
Proof.
  intros Hok Hread.
  assert (Hgok : gnt_ok (guard t) = true) by exact Hok.
  pose proof (gnt_delete_unguard fuel (Some (guard t)) key eq_refl) as Hdel.
  cbn [fmap option_fmap option_map] in Hdel. rewrite unguard_guard in Hdel.
  rewrite <- Hdel. split.
  - intros Hnone.
    rewrite (gnt_delete_eq fuel (guard t) key b bs eq_refl Hread).
    destruct (prune_None (gnt_deallocator (guard t)) (b :: bs) (gnt_nibbles (guard t)))
      as [_ H].
    rewrite H; [reflexivity|]. split; [discriminate|exact Hnone].
  - intros Hterm.
    destruct (gnt_delete_spec fuel (guard t) key b bs Hgok Hread Hterm)
      as (g' & tr & Hd & Hgok' & Hacc & _ & Hpay & Hother & _).
    assert (Hsearch : forall k v, gnt_search fuel (Some g') k = Ok (v, Some g') [] ->
                                  gbt_search fuel (Some (unguard g')) k
                                  = Ok (v, Some (unguard g')) []).
    { intros k v H.
      change (Some (unguard g')) with (unguard <$> Some g') at 1.
      rewrite <- (gnt_search_unguard fuel (Some g') k (gnt_ok_mutex _ Hgok')), H.
      reflexivity. }
    exists (unguard g'), tr. rewrite Hd.
    split; [reflexivity|]. split; [apply gbt_ok_unguard, Hgok'|]. split.
    + apply Hsearch.
      rewrite (gnt_search_payload fuel g' key b bs (gnt_ok_mutex _ Hgok'))
        by (rewrite Hacc; exact Hread).
      rewrite Hpay. reflexivity.
    + intros key' b' bs' Hread' Hpre.
      exists (payload_at (guard t) (b' :: bs')). split.
      * pose proof (gnt_search_unguard fuel (Some (guard t)) key' eq_refl) as H.
        cbn [fmap option_fmap option_map] in H. rewrite unguard_guard in H.
        rewrite <- H, (gnt_search_payload fuel (guard t) key' b' bs' eq_refl Hread').
        simpl. rewrite unguard_guard. reflexivity.
      * apply Hsearch.
        rewrite (gnt_search_payload fuel g' key' b' bs' (gnt_ok_mutex _ Hgok'))
          by (rewrite Hacc; exact Hread').
        unfold payload_at. rewrite Hother;
          [reflexivity|eapply read_key_bytes; exact Hread'|discriminate|exact Hpre].
Qed.

Lemma gbt_search_after_delete_witness :
  exists t' tr,
    gbt_delete 8 (Some (unguard example_trie)) 2 = Ok (0, Some t') tr /\
    gbt_ok t' = true /\
    gbt_search 8 (Some t') 2 = Ok (0, Some t') [] /\
    (forall key' b' bs',
       read_key 8 (gbt_accessor (unguard example_trie)) key' 0 = Some (b' :: bs') ->
       ~ (b' :: bs') `prefix_of` [97; 98] ->
       exists v,
         gbt_search 8 (Some (unguard example_trie)) key'
         = Ok (v, Some (unguard example_trie)) [] /\
         gbt_search 8 (Some t') key' = Ok (v, Some t') []).
Proof.
  apply (gbt_search_after_delete 8 (unguard example_trie) 2 97 [98]);
    [vm_compute; reflexivity..|].
  vm_compute. eauto.
Defined.

(** ** Inserting a key twice *)

Lemma put_body_twice c nibbles byte node1 node2 :
  slots_ok nibble_ok c nibbles = true -> is_byte byte ->
  put_body (put_body nibbles c byte node1).1 (put_body nibbles c byte node1).2 byte node2
  = put_body nibbles c byte node2.
Proof.
  intros Hok Hb.
  pose proof (high_nibble_range byte Hb) as Hh.
  pose proof (low_nibble_range byte) as Hl.
  pose proof (slots_ok_length _ _ _ Hok) as Hlen.
  unfold put_body. cbn [fst snd].
  rewrite slot_set_slot_eq by (rewrite Hlen; lia).
  destruct (slot nibbles (GNT_HIGH_NIBBLE byte)) as [[nc nodes]|] eqn:E;
    cbn [default from_option]; unfold id; cbn [nibble_nodes nibble_children calloc_nibble].
  - apply (slots_ok_slot _ _ _ _ _ Hok) in E. rewrite nibble_ok_unfold in E.
    rewrite slot_set_slot_eq by (rewrite (slots_ok_length _ _ _ E); lia).
    rewrite !set_slot_set_slot. reflexivity.
  - rewrite slot_set_slot_eq by (simpl; lia).
    rewrite !set_slot_set_slot. reflexivity.
Qed.

Lemma put_twice data1 data2 bs : forall node,
  node_ok node = true -> Forall is_byte bs ->
  put data2 bs (put data1 bs node) = put data2 bs node.
Proof.
  induction bs as [|b bs IH]; intros [o c d nibbles] Hn Hbs; [reflexivity|].
  apply Forall_cons in Hbs as [Hb Hbs]. rewrite node_ok_unfold in Hn.
  rewrite !put_cons.
  cbn [node_nibbles node_children node_occupied node_data].
  assert (Hnext : forall node',
            next_node (put_body nibbles c b node').1 b = node').
  { intros node'. unfold next_node.
    rewrite (child_put_body_eq c nibbles b node' Hn Hb). reflexivity. }
  rewrite Hnext, IH by (try exact Hbs; eapply next_node_ok; exact Hn).
  rewrite put_body_twice by assumption. reflexivity.
Qed.

(** X19: [gnt_insert] keeps what is below the terminal node. After the
    insertion of a key of at least one byte into a trie with exact
    counters, the terminal node of the key is occupied, holds the payload
    and has the counter and the array of nibble layers that the terminal
    node had before (those of a new node when there was none). *)
Theorem gnt_insert_keeps_subtree fuel t key data b bs :
  gnt_ok t = true ->
  read_key fuel (gnt_accessor t) key 0 = Some (b :: bs) ->
  exists t' tr,
    gnt_insert fuel (Some t) key data = Ok (0, Some t') tr /\
    terminal (gnt_nibbles t') (b :: bs)
    = Some (Node true
              (node_children (default calloc_node (terminal (gnt_nibbles t) (b :: bs))))
              data
              (node_nibbles (default calloc_node (terminal (gnt_nibbles t) (b :: bs))))).
Proof.
  intros Hok Hread. pose proof (gnt_ok_mutex _ Hok) as Hm.
  pose proof (read_key_bytes _ _ _ _ _ Hread) as Hbytes.
  pose proof Hok as Hroot. apply gnt_ok_iff in Hroot as [_ Hroot].
  eexists _, _. split; [apply gnt_insert_eq; eassumption|].
  pose proof (descend_put data (b :: bs) (root_node t) Hroot Hbytes) as H.
  destruct (put data (b :: bs) (root_node t)) as [o c d nibbles] eqn:E.
  exact H.
Qed.

Lemma gnt_insert_keeps_subtree_witness :
  exists t' tr,
    gnt_insert 8 (Some example_trie) 1 77 = Ok (0, Some t') tr /\
    terminal (gnt_nibbles t') [97]
    = Some (Node true
              (node_children (default calloc_node (terminal (gnt_nibbles example_trie) [97])))
              77
              (node_nibbles (default calloc_node (terminal (gnt_nibbles example_trie) [97])))).
Proof.
  apply (gnt_insert_keeps_subtree 8 example_trie 1 77 97 []); vm_compute; reflexivity.
Defined.

(** X20: the last insertion wins and leaves no other trace in the trie. On
    a trie with exact counters and a key of at least one byte, inserting
    the key twice returns 0 twice and leaves exactly the trie that the
    second insertion alone leaves; the second insertion allocates
    nothing, and the deallocator, when configured, gets the first payload. *)
Theorem gnt_insert_twice fuel t key data1 data2 b bs :
  gnt_ok t = true ->
  read_key fuel (gnt_accessor t) key 0 = Some (b :: bs) ->
  exists t1 t2 tr1 tr2 tr,
    gnt_insert fuel (Some t) key data1 = Ok (0, Some t1) tr1 /\
    gnt_insert fuel (Some t1) key data2 = Ok (0, Some t2) tr2 /\
    gnt_insert fuel (Some t) key data2 = Ok (0, Some t2) tr /\
    count_calloc tr2 = 0%nat /\
    deallocs tr2 = if gnt_deallocator t then [data1] else [].
Proof.
  intros Hok Hread. pose proof (gnt_ok_mutex _ Hok) as Hm.
  pose proof (read_key_bytes _ _ _ _ _ Hread) as Hbytes.
  pose proof Hok as Hroot. apply gnt_ok_iff in Hroot as [_ Hroot].
  pose proof (descend_put data1 (b :: bs) (root_node t) Hroot Hbytes) as Hterm.
  pose proof (put_twice data1 data2 (b :: bs) (root_node t) Hroot Hbytes) as Htwice.
  assert (Hr : root_node (with_root t (put data1 (b :: bs) (root_node t)))
               = put data1 (b :: bs) (root_node t)).
  { rewrite put_cons. reflexivity. }
  set (n1 := put data1 (b :: bs) (root_node t)) in *.
  exists (with_root t n1), (with_root t (put data2 (b :: bs) (root_node t))), 
    (put_events (gnt_deallocator t) (b :: bs) (root_node t)),
    (put_events (gnt_deallocator t) (b :: bs) n1),
    (put_events (gnt_deallocator t) (b :: bs) (root_node t)).
  split; [apply gnt_insert_eq; assumption|].
  split; [|split; [apply gnt_insert_eq; assumption|]].
  - rewrite (gnt_insert_eq fuel (with_root t n1) key data2 b bs eq_refl Hread).
    rewrite Hr, Htwice. reflexivity.
  - destruct (count_calloc_put_events (gnt_deallocator t) (b :: bs) n1) as [_ Hiff].
    split; [apply Hiff; rewrite Hterm; eauto|].
    rewrite deallocs_put_events, Hterm. reflexivity.
Qed.

Lemma gnt_insert_twice_witness :
  exists t1 t2 tr1 tr2 tr,
    gnt_insert 8 (Some example_trie) 3 33 = Ok (0, Some t1) tr1 /\
    gnt_insert 8 (Some t1) 3 34 = Ok (0, Some t2) tr2 /\
    gnt_insert 8 (Some example_trie) 3 34 = Ok (0, Some t2) tr /\
    count_calloc tr2 = 0%nat /\
    deallocs tr2 = if gnt_deallocator example_trie then [33] else [].
Proof.
  apply (gnt_insert_twice 8 example_trie 3 33 34 97 [98; 99]); vm_compute; reflexivity.
Defined.

(** ** Inserting two keys in either order *)

Lemma set_slot_commute {A} (a : list (option A)) i j v w :
  0 <= i -> 0 <= j -> i <> j ->
  set_slot (set_slot a j w) i v = set_slot (set_slot a i v) j w.
Proof. intros Hi Hj Hne. unfold set_slot. apply list_insert_insert_ne. lia. Qed.

Lemma put_body_commute c nibbles b1 b2 node1 node2 :
  slots_ok nibble_ok c nibbles = true -> is_byte b1 -> is_byte b2 -> b1 <> b2 ->
  put_body (put_body nibbles c b2 node2).1 (put_body nibbles c b2 node2).2 b1 node1
  = put_body (put_body nibbles c b1 node1).1 (put_body nibbles c b1 node1).2 b2 node2.
Proof.
  intros Hok Hb1 Hb2 Hne.
  pose proof (high_nibble_range b1 Hb1) as Hh1.
  pose proof (high_nibble_range b2 Hb2) as Hh2.
  pose proof (low_nibble_range b1) as Hl1.
  pose proof (low_nibble_range b2) as Hl2.
  pose proof (slots_ok_length _ _ _ Hok) as Hlen.
  unfold put_body. cbn [fst snd].
  destruct (Z.eq_dec (GNT_HIGH_NIBBLE b1) (GNT_HIGH_NIBBLE b2)) as [Eh|Eh].
  - assert (El : GNT_LOW_NIBBLE b1 <> GNT_LOW_NIBBLE b2)
      by (intros El; apply Hne, nibbles_inj; assumption).
    rewrite <- Eh.
    rewrite !slot_set_slot_eq by (rewrite Hlen; lia).
    rewrite !set_slot_set_slot.
    destruct (slot nibbles (GNT_HIGH_NIBBLE b1)) as [[nc nodes]|] eqn:E;
      cbn [default from_option]; unfold id;
      cbn [nibble_nodes nibble_children calloc_nibble].
    + rewrite !slot_set_slot_ne by lia.
      rewrite (set_slot_commute nodes (GNT_LOW_NIBBLE b1) (GNT_LOW_NIBBLE b2)) by lia.
      destruct (slot nodes (GNT_LOW_NIBBLE b1)), (slot nodes (GNT_LOW_NIBBLE b2));
        reflexivity.
    + rewrite !slot_set_slot_ne by lia. rewrite !slot_null_array.
      rewrite (set_slot_commute null_array (GNT_LOW_NIBBLE b1) (GNT_LOW_NIBBLE b2))
        by lia.
      reflexivity.
  - rewrite !slot_set_slot_ne by lia.
    rewrite (set_slot_commute nibbles (GNT_HIGH_NIBBLE b1) (GNT_HIGH_NIBBLE b2)) by lia.
    destruct (slot nibbles (GNT_HIGH_NIBBLE b1)), (slot nibbles (GNT_HIGH_NIBBLE b2));
      reflexivity.
Qed.

Lemma put_commute data1 data2 bs1 : forall bs2 node,
  node_ok node = true -> Forall is_byte bs1 -> Forall is_byte bs2 -> bs1 <> bs2 ->
  put data1 bs1 (put data2 bs2 node) = put data2 bs2 (put data1 bs1 node).
Proof.
  induction bs1 as [|b1 bs1 IH]; intros bs2 [o c d nibbles] Hn Hbs1 Hbs2 Hne.
  - destruct bs2 as [|b2 bs2]; [congruence|]. rewrite !put_cons. reflexivity.
  - destruct bs2 as [|b2 bs2]; [rewrite !put_cons; reflexivity|].
    apply Forall_cons in Hbs1 as [Hb1 Hbs1]. apply Forall_cons in Hbs2 as [Hb2 Hbs2].
    rewrite node_ok_unfold in Hn.
    rewrite !put_cons. cbn [node_nibbles node_children node_occupied node_data].
    assert (Hnext : forall b node', is_byte b ->
              next_node (put_body nibbles c b node').1 b = node').
    { intros b node' Hb. unfold next_node.
      rewrite (child_put_body_eq c nibbles b node' Hn Hb). reflexivity. }
    destruct (Z.eq_dec b1 b2) as [<-|Hb].
    + rewrite !Hnext by assumption.
      rewrite !put_body_twice by assumption.
      rewrite (IH bs2) by (try assumption; try congruence; eapply next_node_ok; exact Hn).
      reflexivity.
    + assert (Hother : forall b b' node', is_byte b -> is_byte b' -> b <> b' ->
                next_node (put_body nibbles c b node').1 b' = next_node nibbles b').
      { intros b b' node' Hb0 Hb' Hbb. unfold next_node.
        rewrite (child_put_body_ne c nibbles b b' node' Hn Hb0 Hb' Hbb). reflexivity. }
      rewrite !Hother by (try assumption; congruence).
      rewrite (put_body_commute c nibbles b1 b2) by assumption.
      reflexivity.
Qed.

(** X21: the order of two insertions does not show in the trie. On a trie
    with exact counters, inserting two keys with different byte sequences
    of at least one byte in either order returns 0 twice and leaves the
    same trie, counters included. *)
Theorem gnt_insert_commute fuel t key1 data1 key2 data2 b1 bs1 b2 bs2 :
  gnt_ok t = true ->
  read_key fuel (gnt_accessor t) key1 0 = Some (b1 :: bs1) ->
  read_key fuel (gnt_accessor t) key2 0 = Some (b2 :: bs2) ->
  b1 :: bs1 <> b2 :: bs2 ->
  exists t' tr tr',
    gnt_run fuel (Some t) [Insert key1 data1; Insert key2 data2]
    = Ok ([0; 0], Some t') tr /\
    gnt_run fuel (Some t) [Insert key2 data2; Insert key1 data1]
    = Ok ([0; 0], Some t') tr'.
Proof.
  intros Hok Hread1 Hread2 Hne. pose proof (gnt_ok_mutex _ Hok) as Hm.
  pose proof (read_key_bytes _ _ _ _ _ Hread1) as Hbytes1.
  pose proof (read_key_bytes _ _ _ _ _ Hread2) as Hbytes2.
  pose proof Hok as Hroot. apply gnt_ok_iff in Hroot as [_ Hroot].
  assert (Hr : forall data b bs,
            root_node (with_root t (put data (b :: bs) (root_node t)))
            = put data (b :: bs) (root_node t)).
  { intros data b bs. rewrite put_cons. reflexivity. }
  exists (with_root t (put data2 (b2 :: bs2) (put data1 (b1 :: bs1) (root_node t)))).
  eexists _, _. split.
  - cbn [gnt_run gnt_step].
    rewrite (gnt_insert_eq fuel t key1 data1 b1 bs1 Hm Hread1), bind_Ok.
    rewrite (gnt_insert_eq fuel (with_root t (put data1 (b1 :: bs1) (root_node t)))
               key2 data2 b2 bs2 eq_refl Hread2), bind_Ok.
    rewrite Hr. reflexivity.
  - cbn [gnt_run gnt_step].
    rewrite (gnt_insert_eq fuel t key2 data2 b2 bs2 Hm Hread2), bind_Ok.
    rewrite (gnt_insert_eq fuel (with_root t (put data2 (b2 :: bs2) (root_node t)))
               key1 data1 b1 bs1 eq_refl Hread1), bind_Ok.
    rewrite Hr.
    rewrite (put_commute data1 data2 (b1 :: bs1) (b2 :: bs2)) by assumption.
    reflexivity.
Qed.

Lemma gnt_insert_commute_witness :
  exists t' tr tr',
    gnt_run 8 (Some example_trie) [Insert 3 33; Insert 1 12] = Ok ([0; 0], Some t') tr /\
    gnt_run 8 (Some example_trie) [Insert 1 12; Insert 3 33] = Ok ([0; 0], Some t') tr'.
Proof.
  apply (gnt_insert_commute 8 example_trie 3 33 1 12 97 [98; 99] 97 []);
    [vm_compute; reflexivity..|discriminate].
Defined.

(** ** Signed integers as keys *)

Lemma to_uintptr_signed k :
  - 2 ^ 63 <= k < 2 ^ 63 ->
  to_uintptr k = (if k <? 0 then 2 ^ 64 + k else k) /\ 0 <= to_uintptr k < 2 ^ 64.
Proof.
  intros Hk. unfold to_uintptr, uintptr_bits.
  destruct (k <? 0) eqn:E; [apply Z.ltb_lt in E|apply Z.ltb_ge in E].
  - rewrite <- (Z.mod_add k 1 (2 ^ 64)) by lia.
    rewrite Z.mod_small by lia. lia.
  - rewrite Z.mod_small by lia. lia.
Qed.

(** X22: signed keys. [_gnt_int64_to_data] maps an [int64_t] to itself when
    it is not negative and to 2^64 plus itself when it is, and
    [_gnt_accessor_default] produces different byte sequences for the
    conversions of two different [int64_t] keys. *)
Theorem gnt_int64_keys_separate fuel k1 k2 :
  - 2 ^ 63 <= k1 < 2 ^ 63 -> - 2 ^ 63 <= k2 < 2 ^ 63 -> (8 < fuel)%nat ->
  _gnt_int64_to_data k1 = (if k1 <? 0 then 2 ^ 64 + k1 else k1) /\
  (k1 <> k2 ->
   read_key fuel _gnt_accessor_default (_gnt_int64_to_data k1) 0
   <> read_key fuel _gnt_accessor_default (_gnt_int64_to_data k2) 0).
Proof.
  intros H1 H2 Hfuel. unfold _gnt_int64_to_data.
  destruct (to_uintptr_signed k1 H1) as [Hv1 Hr1].
  destruct (to_uintptr_signed k2 H2) as [Hv2 Hr2].
  split; [exact Hv1|]. intros Hne Heq. apply Hne.
  apply (gnt_accessor_default_inj fuel _ _ Hr1 Hr2 Hfuel) in Heq.
  rewrite Hv1, Hv2 in Heq.
  destruct (k1 <? 0) eqn:E1; destruct (k2 <? 0) eqn:E2;
    try apply Z.ltb_lt in E1; try apply Z.ltb_ge in E1;
    try apply Z.ltb_lt in E2; try apply Z.ltb_ge in E2; lia.
Qed.

Lemma gnt_int64_keys_separate_witness :
  _gnt_int64_to_data (-1) = (if -1 <? 0 then 2 ^ 64 + -1 else -1) /\
  (-1 <> 255 ->
   read_key 9 _gnt_accessor_default (_gnt_int64_to_data (-1)) 0
   <> read_key 9 _gnt_accessor_default (_gnt_int64_to_data 255) 0).
Proof. apply (gnt_int64_keys_separate 9 (-1) 255); lia. Defined.
